(** * ai-flashcard-app: a shallow embedding of the note-processing core

    The development follows the repository's TypeScript sources:
    - [utils/flashcardHelpers]   confidence tracking and session statistics
    - [utils/quizHelpers]        Levenshtein distance and fuzzy answer matching
    - [functions/utils/diagramDetector]  the diagram heuristic
    - [functions/utils/pdfSplitter]      chunking of oversized PDFs
    - [functions/utils/jsonParser]       validation of generated JSON
    - [functions/services/documentAIService], [functions/index]
                                  the OCR adapter and the request pipeline
    - [utils/firestoreService]   the client-side save with duplicate check

    JavaScript strings are modelled as [string], one [ascii] per UTF-16 code
    unit, which covers the code units below 256 (Latin-1).  Counts and indices
    are [nat], other integral numbers are [Z]; where the source computes with
    doubles and the result depends on it, binary64 primitive floats are used.

    All definitions come first, all lemmas after them. *)

From Stdlib Require Import ZArith Floats Uint63 Ascii String Lia Bool.
From stdpp Require Import base option list strings gmap sorting.

Set Default Proof Using "Type".

(** ** JavaScript built-ins used by the sources *)

(** Code unit of a character. *)
Definition code (c : ascii) : nat := nat_of_ascii c.

(** [\s] of a regular expression and the characters [String.prototype.trim]
    strips, restricted to code units below 256: TAB, LF, VT, FF, CR, SPACE and
    NO-BREAK SPACE. *)
Definition is_space (c : ascii) : bool :=
  let n := code c in
  ((9 <=? n) && (n <=? 13)) || (n =? 32) || (n =? 160).

(** [\w] of a regular expression: ASCII letters, digits and underscore. *)
Definition is_word (c : ascii) : bool :=
  let n := code c in
  ((48 <=? n) && (n <=? 57)) || ((65 <=? n) && (n <=? 90)) ||
  (n =? 95) || ((97 <=? n) && (n <=? 122)).

(** [String.prototype.toLowerCase] on one code unit below 256: A-Z and the
    Latin-1 capitals U+00C0-U+00DE (without the multiplication sign U+00D7)
    move up by 32. *)
Definition lower_char (c : ascii) : ascii :=
  let n := code c in
  if ((65 <=? n) && (n <=? 90)) ||
     ((192 <=? n) && (n <=? 222) && negb (n =? 215))
  then ascii_of_nat (n + 32) else c.

Definition chars (s : string) : list ascii := list_ascii_of_string s.
Definition str (l : list ascii) : string := string_of_list_ascii l.

Fixpoint drop_spaces (l : list ascii) : list ascii :=
  match l with
  | c :: l' => if is_space c then drop_spaces l' else l
  | [] => []
  end.

(** [s.trim()] on the list of code units. *)
Definition trim_chars (l : list ascii) : list ascii :=
  rev (drop_spaces (rev (drop_spaces l))).

Definition trim (s : string) : string := str (trim_chars (chars s)).

Definition toLowerCase (s : string) : string := str (map lower_char (chars s)).

(** [s.startsWith(p)] *)
Fixpoint starts_with (p l : list ascii) : bool :=
  match p, l with
  | [], _ => true
  | a :: p', b :: l' => if decide (a = b) then starts_with p' l' else false
  | _ :: _, [] => false
  end.

Definition startsWith (s p : string) : bool := starts_with (chars p) (chars s).

(** [s.includes(t)]: [t] occurs in [s] as a contiguous run; the empty string
    occurs in every string. *)
Fixpoint includes_chars (l t : list ascii) : bool :=
  starts_with t l ||
  match l with
  | [] => false
  | _ :: l' => includes_chars l' t
  end.

Definition includes (s t : string) : bool := includes_chars (chars s) (chars t).

(** [s.split(/\s+/)]: the pieces between maximal runs of white space.  A
    string that starts (ends) with white space yields an empty first (last)
    piece, and the empty string yields one empty piece.  [cur] is the piece
    being read, reversed; [in_sep] tells that the last character read was
    white space. *)
Fixpoint split_ws_go (in_sep : bool) (cur : list ascii) (l : list ascii)
  : list (list ascii) :=
  match l with
  | [] => [rev cur]
  | c :: l' =>
      if is_space c
      then (if in_sep then split_ws_go true [] l'
            else rev cur :: split_ws_go true [] l')
      else split_ws_go false (c :: cur) l'
  end.

Definition split_ws (s : string) : list string :=
  map str (split_ws_go false [] (chars s)).

(** [s.replace(/[^\w\s]/g, '')] *)
Definition strip_punctuation (l : list ascii) : list ascii :=
  filter (fun c => is_word c || is_space c) l.

(** [s.replace(/\s+/g, ' ')]: every maximal run of white space becomes one
    space. *)
Fixpoint collapse_ws (l : list ascii) : list ascii :=
  match l with
  | [] => []
  | c :: l' =>
      if is_space c then " "%char :: collapse_ws_skip l' else c :: collapse_ws l'
  end
with collapse_ws_skip (l : list ascii) : list ascii :=
  match l with
  | [] => []
  | c :: l' =>
      if is_space c then collapse_ws_skip l' else c :: collapse_ws l'
  end.

(** Numbers.  A count [n] as a double; exact below 2^53. *)
Definition float_of_nat (n : nat) : float :=
  PrimFloat.of_uint63 (Uint63.of_Z (Z.of_nat n)).

(** [Math.round] of a finite double: the nearest integer, ties towards
    +infinity, that is floor(x + 1/2) computed exactly on the value
    [m * 2^e] of the double.  (NaN and the infinities, which round to
    themselves in JavaScript, are not integers; the sources below never reach
    them and the model yields 0 there.) *)
Definition Math_round (x : float) : Z :=
  match Prim2SF x with
  | S754_finite s m e =>
      let num := (if s then Z.neg m else Z.pos m) in
      if (0 <=? e)%Z then (num * 2 ^ e)%Z
      else ((2 * num + 2 ^ (- e)) / 2 ^ (1 - e))%Z
  | _ => 0%Z
  end.

(** [Math_round] with the powers of two written as shifts, which evaluates
    faster; the two agree on every double. *)
Definition Math_round_shift (x : float) : Z :=
  match Prim2SF x with
  | S754_finite s m e =>
      let num := (if s then Z.neg m else Z.pos m) in
      if (0 <=? e)%Z then Z.shiftl num e
      else Z.shiftr (2 * num + Z.shiftl 1 (- e)) (1 - e)
  | _ => 0%Z
  end.

(** ** utils/flashcardHelpers *)

Inductive CardStatus := mastered | learning_status | unlearned.

(** [getCardStatus] *)
Definition getCardStatus (confidenceLevel : Z) : CardStatus :=
  if (confidenceLevel =? 5)%Z then mastered
  else if (1 <=? confidenceLevel)%Z && (confidenceLevel <? 5)%Z then learning_status
  else unlearned.

(** [updateCardConfidence] *)
Definition updateCardConfidence (currentLevel : Z) (isCorrect : bool) : Z :=
  if isCorrect then Z.min 5 (currentLevel + 1)
  else Z.max 0 (currentLevel - 1).

Record SessionResult := {
  cardIndex : nat;
  wasCorrect : bool;
  previousConfidence : Z;
  newConfidence : Z
}.

Record SessionStats := {
  know : nat;
  learning : nat;
  accuracy : Z
}.

(** The three counters of [calculateSessionStats]: know, learning, correct. *)
Record Counters := { c_know : nat; c_learning : nat; c_correct : nat }.

(** The predicate of the branch in the [forEach] callback. *)
Definition counts_as_known (r : SessionResult) : bool :=
  wasCorrect r || (newConfidence r =? 5)%Z.

(** One call of the [forEach] callback. *)
Definition stats_step (c : Counters) (result : SessionResult) : Counters :=
  if counts_as_known result
  then {| c_know := S (c_know c); c_learning := c_learning c;
          c_correct := S (c_correct c) |}
  else {| c_know := c_know c; c_learning := S (c_learning c);
          c_correct := c_correct c |}.

(** [Math.round((correct / total) * 100)], in doubles as the source has it. *)
Definition percentage (correct total : nat) : Z :=
  Math_round (PrimFloat.mul (PrimFloat.div (float_of_nat correct) (float_of_nat total))
                            100%float).

(** [calculateSessionStats] *)
Definition calculateSessionStats (sessionResults : list SessionResult) : SessionStats :=
  match sessionResults with
  | [] => {| know := 0; learning := 0; accuracy := 0 |}
  | _ =>
      let c := fold_left stats_step sessionResults
                 {| c_know := 0; c_learning := 0; c_correct := 0 |} in
      {| know := c_know c; learning := c_learning c;
         accuracy := percentage (c_correct c) (length sessionResults) |}
  end.

(** The number of results with [wasCorrect] alone, the specification's
    correctCount. *)
Definition spec_correctCount (rs : list SessionResult) : nat :=
  length (filter (fun r => wasCorrect r) rs).

(** round(100 × correct / total) as the specification words it: the exact
    quotient rounded to the nearest integer, a tie going up (nothing is
    computed in doubles here). *)
Definition round_share_Z (correct total : Z) : Z :=
  ((200 * correct + total) / (2 * total))%Z.

Definition round_share (correct total : nat) : Z :=
  round_share_Z (Z.of_nat correct) (Z.of_nat total).

(** The accuracy as the specification words it. *)
Definition spec_accuracy (rs : list SessionResult) : Z :=
  match rs with
  | [] => 0%Z
  | _ => round_share (spec_correctCount rs) (length rs)
  end.

(** The specification's expression evaluated in doubles, the multiplication
    first: [Math.round(100 * correct / total)]. *)
Definition percentage_multiply_first (correct total : nat) : Z :=
  Math_round (PrimFloat.div (PrimFloat.mul 100%float (float_of_nat correct))
                            (float_of_nat total)).

(** 100 × correct / total lies exactly halfway between two integers. *)
Definition share_is_tie_Z (correct total : Z) : bool :=
  ((200 * correct) mod (2 * total) =? total)%Z.

Definition share_is_tie (correct total : nat) : bool :=
  share_is_tie_Z (Z.of_nat correct) (Z.of_nat total).

(** The source's expression on integers given as [Z], rounded with
    [Math_round_shift]. *)
Definition percentage_Z (correct total : Z) : Z :=
  Math_round_shift
    (PrimFloat.mul
       (PrimFloat.div (PrimFloat.of_uint63 (Uint63.of_Z correct))
                      (PrimFloat.of_uint63 (Uint63.of_Z total)))
       100%float).

(** The source's accuracy for [correct] of [total] is the exact rounding, or
    one less at a tie. *)
Definition accuracy_agrees_Z (correct total : Z) : bool :=
  let p := percentage_Z correct total in
  let r := round_share_Z correct total in
  (p =? r)%Z || ((p =? r - 1)%Z && share_is_tie_Z correct total).

(** The integers [start], [start + 1], ..., [n] of them. *)
Fixpoint upto (n : nat) (start : Z) : list Z :=
  match n with
  | 0 => []
  | S n' => start :: upto n' (start + 1)%Z
  end.

(** [accuracy_agrees_Z] for every total from 1 to [n] and every count from 0
    to the total. *)
Definition accuracy_agrees_upto (n : nat) : bool :=
  forallb (fun total =>
             forallb (fun correct => accuracy_agrees_Z correct total)
                     (upto (S (Z.to_nat total)) 0))
          (upto n 1).

(** The two counts the loop keeps. *)
Definition known_count (rs : list SessionResult) : nat :=
  length (filter (fun r => counts_as_known r) rs).

Definition unknown_count (rs : list SessionResult) : nat :=
  length (filter (fun r => ¬ counts_as_known r) rs).

(** A result is consistent when a wrong answer did not end at level 5, as
    for every result [handleAnswer] builds with [updateCardConfidence] from a
    level of at most 5. *)
Definition consistent (r : SessionResult) : Prop :=
  wasCorrect r = false -> newConfidence r <> 5%Z.

(** The result [handleAnswer] of the study screen records for the card at
    [originalIndex], found at level [previousConfidence] and answered
    [isCorrect]. *)
Definition handleAnswer_result (originalIndex : nat) (previousConfidence : Z)
    (isCorrect : bool) : SessionResult :=
  {| cardIndex := originalIndex; wasCorrect := isCorrect;
     previousConfidence := previousConfidence;
     newConfidence := updateCardConfidence previousConfidence isCorrect |}.

(** The results of a study session over new cards (level 0), one answer per
    card. *)
Definition study_session (answers : list bool) : list SessionResult :=
  imap (fun i isCorrect => handleAnswer_result i 0 isCorrect) answers.

(** A session of 40 cards, 23 answered right and 17 wrong. *)
Definition session_23_of_40 : list SessionResult :=
  study_session (replicate 23 true ++ replicate 17 false).

(** A wrong answer recorded at level 5.  The study screen never builds it
    (it leaves out the cards at level 5 and a wrong answer lowers the level);
    the exported function accepts it. *)
Definition wrong_at_five : SessionResult :=
  {| cardIndex := 0; wasCorrect := false; previousConfidence := 5;
     newConfidence := 5 |}.

(** A session of two answers, one right (4 to 5) and one wrong (2 to 1). *)
Definition sample_session : list SessionResult :=
  [ handleAnswer_result 0 4 true; handleAnswer_result 1 2 false ].

(** ** utils/quizHelpers *)

(** [a[j] = v] on a JavaScript array: inside the array the element is
    replaced, at index [length a] the array grows by one.  Further out
    JavaScript leaves holes; they are padded with [hole] here, and
    [levenshteinDistance] never writes there. *)
Definition array_set {A} (a : list A) (j : nat) (v hole : A) : list A :=
  if j <? length a then <[j := v]> a
  else a ++ replicate (j - length a) hole ++ [v].

(** [matrix[i][j]] read as a number (0 where nothing was stored). *)
Definition cell (matrix : list (list nat)) (i j : nat) : nat :=
  default 0 (matrix !! i ≫= (.!! j)).

(** [matrix[i][j] = v]; the row [matrix[i]] exists at every use. *)
Definition set_cell (matrix : list (list nat)) (i j v : nat) : list (list nat) :=
  match matrix !! i with
  | Some row => <[i := array_set row j v 0]> matrix
  | None => matrix
  end.

(** [s.charAt(i)] *)
Definition charAt (s : list ascii) (i : nat) : option ascii := s !! i.

(** The body of the inner loop of [levenshteinDistance] at [(i, j)]. *)
Definition levenshtein_cell (str1 str2 : list ascii) (i : nat)
    (matrix : list (list nat)) (j : nat) : list (list nat) :=
  if decide (charAt str2 (i - 1) = charAt str1 (j - 1))
  then set_cell matrix i j (cell matrix (i - 1) (j - 1))
  else set_cell matrix i j
         (Nat.min (cell matrix (i - 1) (j - 1) + 1)
            (Nat.min (cell matrix i (j - 1) + 1) (cell matrix (i - 1) j + 1))).

(** The matrix after the two initialising loops of [levenshteinDistance]. *)
Definition levenshtein_init (len1 len2 : nat) : list (list nat) :=
  let rows := fold_left (fun m i => array_set m i [i] []) (seq 0 (S len2)) [] in
  fold_left (fun m j => set_cell m 0 j j) (seq 0 (S len1)) rows.

(** The matrix after all loops. *)
Definition levenshtein_matrix (str1 str2 : list ascii) : list (list nat) :=
  fold_left
    (fun m i => fold_left (levenshtein_cell str1 str2 i) (seq 1 (length str1)) m)
    (seq 1 (length str2))
    (levenshtein_init (length str1) (length str2)).

(** [levenshteinDistance] *)
Definition levenshteinDistance (str1 str2 : string) : nat :=
  cell (levenshtein_matrix (chars str1) (chars str2))
       (String.length str2) (String.length str1).

(** [normalizeString]: trim, lower case, drop everything that is neither a
    word character nor white space, collapse runs of white space. *)
Definition normalizeString (s : string) : string :=
  str (collapse_ws (strip_punctuation (map lower_char (trim_chars (chars s))))).

(** [!s] for a string [s]: only the empty string is falsy. *)
Definition falsy (s : string) : bool :=
  match s with EmptyString => true | _ => false end.

(** [Math.max(2, Math.floor(maxLength * 0.1))].  The product is a double in
    the source; its floor is the integer quotient by 10 (the double nearest
    to 1/10 lies above 1/10 by less than 2^-57, see
    [maxAllowedDistance_double]). *)
Definition maxAllowedDistance (maxLength : nat) : nat :=
  Nat.max 2 (maxLength / 10).

(** [Math.floor] of a finite non-negative double, and the source's expression
    in doubles, for comparison. *)
Definition Math_floor (x : float) : Z :=
  match Prim2SF x with
  | S754_finite s m e =>
      let num := (if s then Z.neg m else Z.pos m) in
      if (0 <=? e)%Z then (num * 2 ^ e)%Z else (num / 2 ^ (- e))%Z
  | _ => 0%Z
  end.

Definition maxAllowedDistance_float (maxLength : nat) : Z :=
  Z.max 2 (Math_floor (PrimFloat.mul (float_of_nat maxLength) 0x1.999999999999ap-4%float)).

(** [fuzzyMatch] *)
Definition fuzzyMatch (userAnswer correctAnswer : string) : bool :=
  if falsy userAnswer || falsy correctAnswer then false
  else
    let normalizedUser := normalizeString userAnswer in
    let normalizedCorrect := normalizeString correctAnswer in
    if String.eqb normalizedUser normalizedCorrect then true
    else if includes normalizedUser normalizedCorrect
            || includes normalizedCorrect normalizedUser then true
    else
      let distance := levenshteinDistance normalizedUser normalizedCorrect in
      let maxLength := Nat.max (String.length normalizedUser)
                               (String.length normalizedCorrect) in
      distance <=? maxAllowedDistance maxLength.

(** [arrayMatch] compares the sorted copies position by position; the
    default sort orders strings by code units. *)
Fixpoint insert_sorted (x : string) (l : list string) : list string :=
  match l with
  | [] => [x]
  | y :: l' => if String.leb x y then x :: l else y :: insert_sorted x l'
  end.

Definition sort_strings (l : list string) : list string :=
  foldr insert_sorted [] l.

Definition arrayMatch (arr1 arr2 : list string) : bool :=
  if negb (length arr1 =? length arr2) then false
  else
    let sorted1 := sort_strings arr1 in
    let sorted2 := sort_strings arr2 in
    forallb (fun p => String.eqb p.1 p.2) (zip sorted1 sorted2).

(** Two long answers of which one extends the other by six characters. *)
Definition extended_answer : string := "photosynthesis in plants today".
Definition expected_answer : string := "photosynthesis in plants".

(** An answer made of punctuation only. *)
Definition punctuation_answer : string := "?!...".

(** A 26-character answer, one that is two substitutions away from it and
    one that is five substitutions away. *)
Definition typed_answer : string := "the capital city of france".
Definition close_answer : string := "the capitol city of frence".
Definition distant_answer : string := "the kapitol sity ov frence".

(** ** utils/quizHelpers: checking answers and scoring *)

(** An answer is a string or a list of strings (see [QuizQuestion] below for
    the record that holds them). *)
Inductive AnswerValue :=
| TextAnswer (text : string)
| ListAnswer (items : list string).

(** [userAnswer === correctAnswer]: two strings are compared by value; the
    answers of a quiz held as lists are different objects and never
    identical. *)
Definition strict_equal (a b : AnswerValue) : bool :=
  match a, b with
  | TextAnswer x, TextAnswer y => String.eqb x y
  | _, _ => false
  end.

(** [checkAnswer] *)
Definition checkAnswer (userAnswer correctAnswer : AnswerValue) (questionType : string)
  : bool :=
  if String.eqb questionType "multiple-choice" then strict_equal userAnswer correctAnswer
  else if String.eqb questionType "multiple-selection" then
    match userAnswer, correctAnswer with
    | ListAnswer u, ListAnswer c => arrayMatch u c
    | _, _ => false
    end
  else if String.eqb questionType "fill-in-the-blank" then
    match userAnswer, correctAnswer with
    | TextAnswer u, TextAnswer c => fuzzyMatch u c
    | _, _ => false
    end
  else false.

(** A question of a quiz as [calculateQuizScore] reads it. *)
Record ScoredQuestion := {
  sq_type : string;
  sq_answer : AnswerValue;
  sq_currentAnswer : AnswerValue
}.

Definition question_correct (q : ScoredQuestion) : bool :=
  checkAnswer (sq_currentAnswer q) (sq_answer q) (sq_type q).

(** [calculateQuizScore]; [None] is a quiz without a list of questions. *)
Definition calculateQuizScore (questionsList : option (list ScoredQuestion)) : Z :=
  match questionsList with
  | None | Some [] => 0%Z
  | Some questions =>
      let correctCount :=
        fold_left (fun n q => if question_correct q then S n else n) questions 0 in
      percentage correctCount (length questions)
  end.

(** ** The recurrence behind levenshteinDistance *)

(** The distance between the first [i] characters of [str2] and the first
    [j] characters of [str1], by the recurrence the loops of
    [levenshteinDistance] follow: nothing to pay for equal last characters,
    otherwise one more than the cheapest of substitution, insertion and
    deletion. *)
Fixpoint edit (str1 str2 : list ascii) (i : nat) : nat -> nat :=
  match i with
  | 0 => fun j => j
  | S i' =>
      fix row (j : nat) : nat :=
        match j with
        | 0 => S i'
        | S j' =>
            if decide (charAt str2 i' = charAt str1 j')
            then edit str1 str2 i' j'
            else Nat.min (edit str1 str2 i' j' + 1)
                   (Nat.min (row j' + 1) (edit str1 str2 i' j + 1))
        end
  end.

(** The matrix when the rows before [i] are complete and row [i] holds its
    first [j] cells. *)
Definition matrix_at (str1 str2 : list ascii) (i j : nat) : list (list nat) :=
  map (fun r => map (edit str1 str2 r) (seq 0 (S (length str1)))) (seq 0 i) ++
  map (edit str1 str2 i) (seq 0 j) ::
  map (fun r => [r]) (seq (S i) (length str2 - i)).

(** ** functions/utils/diagramDetector *)

Definition imageTypes : list string :=
  ["image/jpeg"; "image/jpg"; "image/png"; "image/webp"; "image/gif"].

(** [a.includes(x)] on an array of strings. *)
Definition array_includes (a : list string) (x : string) : bool :=
  bool_decide (x ∈ a).

(** [extractedText.trim().split(/\s+/).filter(word => word.length > 0).length] *)
Definition wordCount (extractedText : string) : nat :=
  length (filter (fun word => 0 < String.length word) (split_ws (trim extractedText))).

(** [shouldUseDiagramUnderstanding] *)
Definition shouldUseDiagramUnderstanding (fileType extractedText : string) : bool :=
  if array_includes imageTypes (toLowerCase fileType)
  then wordCount extractedText <? 50
  else false.

(** The number of words of a text, read off the text itself: the number of
    maximal runs of characters that are not white space.  [in_word] tells
    that the previous character belongs to a word. *)
Fixpoint count_words (in_word : bool) (l : list ascii) : nat :=
  match l with
  | [] => 0
  | c :: l' =>
      if is_space c then count_words false l'
      else (if in_word then 0 else 1) + count_words true l'
  end.

Definition words_of (text : string) : nat := count_words false (chars text).

(** The file type is one of the five types the source lists, in any letter
    case. *)
Definition listed_image_type (fileType : string) : Prop :=
  toLowerCase fileType ∈ imageTypes.

(** An image MIME type as the specification words it: the type part is
    [image], in any letter case. *)
Definition image_mime_type (fileType : string) : Prop :=
  startsWith (toLowerCase fileType) "image/" = true.

(** A text of [n] words "w", separated by a space and a line break. *)
Fixpoint n_words (n : nat) : string :=
  match n with
  | 0 => ""
  | S n' => "w " +:+ String "010"%char (n_words n')
  end.

(** ** Errors, files and logs shared by the server-side sources *)

(** A thrown JavaScript [Error]: its message and, for errors of the OCR
    client, a numeric [code]. *)
Record JsError := { err_code : option Z; err_message : string }.

Definition plain_error (message : string) : JsError :=
  {| err_code := None; err_message := message |}.

Inductive Result (A : Type) : Type :=
| Ok (value : A)
| Throw (error : JsError).
Arguments Ok {A} value.
Arguments Throw {A} error.

(** A line of [firebase-functions/logger]. *)
Inductive LogEntry :=
| LogInfo (message : string)
| LogWarn (message : string)
| LogError (message : string).

(** [String(n)] for a non-negative integer: its decimal digits.  A number
    has no more decimal digits than binary ones, which bounds the loop. *)
Definition digit (d : N) : ascii := ascii_of_N (48 + d).

Fixpoint decimal_go (fuel : nat) (n : N) (acc : list ascii) : list ascii :=
  match fuel with
  | 0 => acc
  | S fuel' =>
      let acc' := digit (n mod 10) :: acc in
      if (n / 10 =? 0)%N then acc' else decimal_go fuel' (n / 10)%N acc'
  end.

Definition decimal (n : N) : string := str (decimal_go (S (N.size_nat n)) n []).

(** [a.join(sep)] *)
Fixpoint join (sep : string) (a : list string) : string :=
  match a with
  | [] => ""
  | [x] => x
  | x :: rest => x +:+ sep +:+ join sep rest
  end.

(** [path.basename(p, ext)]: the part after the last slash, without the
    extension [ext] when the name ends with it and is longer than it.  (A
    path that ends in a slash does not occur here.) *)
Fixpoint last_component (cur : list ascii) (l : list ascii) : list ascii :=
  match l with
  | [] => rev cur
  | c :: l' => if decide (c = "/"%char) then last_component [] l'
               else last_component (c :: cur) l'
  end.

Definition ends_with (l suffix : list ascii) : bool :=
  starts_with (rev suffix) (rev l).

Definition basename (p ext : string) : string :=
  let name := last_component [] (chars p) in
  let e := chars ext in
  if ends_with name e && (length e <? length name)
  then str (take (length name - length e) name)
  else str name.

(** The segments of a path, the pieces between its slashes.  [cur] is the
    segment being read, reversed. *)
Fixpoint segments (cur : list ascii) (l : list ascii) : list (list ascii) :=
  match l with
  | [] => [rev cur]
  | c :: l' => if decide (c = "/"%char) then rev cur :: segments [] l'
               else segments (c :: cur) l'
  end.

(** One segment in the loop of [normalizeString] of Node's [path] module:
    an empty segment and [.] are dropped; [..] removes the segment kept
    last, unless there is none or it is [..] itself, in which case [..] is
    kept if the path is relative and dropped otherwise; any other segment is
    kept.  [kept] lists the segments kept so far, the last one first. *)
Definition normalize_segment (allowAboveRoot : bool) (kept : list (list ascii))
    (segment : list ascii) : list (list ascii) :=
  if decide (segment = [] \/ segment = chars ".") then kept
  else if decide (segment = chars "..") then
    match kept with
    | last :: before =>
        if decide (last = chars "..")
        then (if allowAboveRoot then segment :: kept else kept)
        else before
    | [] => if allowAboveRoot then [segment] else []
    end
  else segment :: kept.

(** The kept segments with a slash between them. *)
Fixpoint join_segments (segs : list (list ascii)) : list ascii :=
  match segs with
  | [] => []
  | [s] => s
  | s :: rest => s ++ "/"%char :: join_segments rest
  end.

(** [path.posix.normalize(p)] *)
Definition normalize (p : list ascii) : list ascii :=
  match p with
  | [] => chars "."
  | first :: _ =>
      let isAbsolute := bool_decide (first = "/"%char) in
      let trailingSeparator := bool_decide (last p = Some "/"%char) in
      let kept := fold_left (normalize_segment (negb isAbsolute)) (segments [] p) [] in
      match join_segments (rev kept) with
      | [] => if isAbsolute then chars "/"
              else if trailingSeparator then chars "./" else chars "."
      | res => (if isAbsolute then ["/"%char] else []) ++ res ++
               (if trailingSeparator then ["/"%char] else [])
      end
  end.

(** [path.join(dir, name)] on a POSIX system: the arguments that are not
    empty, joined with a slash and normalized. *)
Definition path_join (dir name : string) : string :=
  match chars dir, chars name with
  | [], [] => "."
  | [], n => str (normalize n)
  | d, [] => str (normalize d)
  | d, n => str (normalize (d ++ "/"%char :: n))
  end.

(** ** functions/utils/pdfSplitter *)

Definition MAX_PAGES_PER_CHUNK : nat := 15.

(** [Math.ceil(a / b)] for counts; the quotient of two integers below 2^53
    is either an integer or at least [1/b] away from one, so the double
    quotient has the same ceiling. *)
Definition ceil_div (a b : nat) : nat := (a + (b - 1)) / b.

Section Files.
Context {Page : Type}.

(** What a path of the local file system holds: a PDF with its pages, or any
    other file with its size in bytes and the message of the error with
    which [PDFDocument.load] rejects its bytes. *)
Inductive File :=
| PdfFile (pages : list Page)
| OtherFile (size : nat) (pdfError : string).

(** [PDFDocument.load(fs.readFileSync(filePath))]: the pages of the PDF at
    the path; it throws when the file is missing or is not a PDF. *)
Definition load_pdf (fs : gmap string File) (filePath : string) : Result (list Page) :=
  match fs !! filePath with
  | Some (PdfFile pages) => Ok pages
  | Some (OtherFile _ pdfError) => Throw (plain_error pdfError)
  | None => Throw (plain_error ("ENOENT: no such file or directory, open '" +:+ filePath +:+ "'"))
  end.

(** [getPdfPageCount] *)
Definition getPdfPageCount (fs : gmap string File) (filePath : string) : Result nat :=
  match load_pdf fs filePath with
  | Ok pages => Ok (length pages)
  | Throw e => Throw (plain_error ("Failed to get PDF page count: " +:+ err_message e))
  end.

(** [chunkPdf.copyPages(sourcePdf, indices)]: the pages at the indices, in
    order; an index outside the document is an error. *)
Definition copyPages (source : list Page) (indices : list nat) : option (list Page) :=
  mapM (fun i => source !! i) indices.

(** The file name of chunk [chunkIndex]; [timestamp] is [Date.now()] at the
    moment the chunk is saved. *)
Definition chunkFileName (baseFileName : string) (chunkIndex numChunks : nat)
    (timestamp : N) : string :=
  baseFileName +:+ "_chunk_" +:+ decimal (N.of_nat (chunkIndex + 1)) +:+ "_of_" +:+
  decimal (N.of_nat numChunks) +:+ "_" +:+ decimal timestamp +:+ ".pdf".

(** The chunk loop of [splitPdfIntoChunks], over the chunk indices still to
    do.  [now i] is the clock when chunk [i] is saved.  The state is the file
    system and the paths pushed so far. *)
Fixpoint split_loop (now : nat -> N) (source : list Page) (tempDir baseFileName : string)
    (numChunks : nat) (indices : list nat)
    (fs : gmap string File) (chunkPaths : list string)
  : Result (list string) * gmap string File :=
  match indices with
  | [] => (Ok chunkPaths, fs)
  | chunkIndex :: rest =>
      let pageCount := length source in
      let startPage := chunkIndex * MAX_PAGES_PER_CHUNK in
      let endPage := Nat.min (startPage + MAX_PAGES_PER_CHUNK) pageCount in
      let pagesToCopy := seq startPage (endPage - startPage) in
      match copyPages source pagesToCopy with
      | None =>
          (Throw (plain_error "Failed to split PDF: page index out of range"), fs)
      | Some copiedPages =>
          let chunkPath :=
            path_join tempDir
              (chunkFileName baseFileName chunkIndex numChunks (now chunkIndex)) in
          split_loop now source tempDir baseFileName numChunks rest
            (<[chunkPath := PdfFile copiedPages]> fs) (chunkPaths ++ [chunkPath])
      end
  end.

(** [splitPdfIntoChunks] *)
Definition splitPdfIntoChunks (now : nat -> N) (filePath tempDir : string)
    (fs : gmap string File) : Result (list string) * gmap string File :=
  match load_pdf fs filePath with
  | Throw e => (Throw (plain_error ("Failed to split PDF: " +:+ err_message e)), fs)
  | Ok source =>
      let pageCount := length source in
      if pageCount <=? MAX_PAGES_PER_CHUNK then (Ok [filePath], fs)
      else
        let baseFileName := basename filePath ".pdf" in
        let numChunks := ceil_div pageCount MAX_PAGES_PER_CHUNK in
        split_loop now source tempDir baseFileName numChunks (seq 0 numChunks) fs []
  end.

(** One round of the [forEach] of [cleanupPdfChunks].  [unlink_throws p]
    tells that [fs.unlinkSync(p)] fails although the file exists. *)
Definition cleanup_chunk (unlink_throws : string -> bool)
    (st : gmap string File * list LogEntry) (chunkPath : string)
  : gmap string File * list LogEntry :=
  let '(fs, log) := st in
  if bool_decide (is_Some (fs !! chunkPath)) && includes chunkPath "_chunk_" then
    if unlink_throws chunkPath
    then (fs, log ++ [LogError ("Error cleaning up PDF chunk " +:+ chunkPath +:+ ":")])
    else (delete chunkPath fs, log ++ [LogInfo ("Cleaned up PDF chunk: " +:+ chunkPath)])
  else (fs, log).

(** [cleanupPdfChunks] *)
Definition cleanupPdfChunks (unlink_throws : string -> bool) (chunkPaths : list string)
    (st : gmap string File * list LogEntry) : gmap string File * list LogEntry :=
  fold_left (cleanup_chunk unlink_throws) chunkPaths st.

(** The pages of chunk [i] of a document, read off the document: at most 15
    pages from page [15 * i] on. *)
Definition chunk_pages (source : list Page) (i : nat) : list Page :=
  take MAX_PAGES_PER_CHUNK (drop (i * MAX_PAGES_PER_CHUNK) source).

(** The path of chunk [i] of the file at [filePath] with [n] pages. *)
Definition chunk_path (now : nat -> N) (filePath tempDir : string) (n i : nat) : string :=
  path_join tempDir
    (chunkFileName (basename filePath ".pdf") i (ceil_div n MAX_PAGES_PER_CHUNK) (now i)).

(** The file system after the chunks with the given indices are written. *)
Definition write_chunks (now : nat -> N) (filePath tempDir : string) (source : list Page)
    (indices : list nat) (fs : gmap string File)
  : gmap string File :=
  fold_left
    (fun fs i => <[chunk_path now filePath tempDir (length source) i :=
                     PdfFile (chunk_pages source i)]> fs)
    indices fs.

End Files.
Arguments File : clear implicits.

(** A 38-page PDF in an otherwise empty temporary directory, and a clock. *)
Definition notes_path : string := "/tmp/1700000000000_notes.pdf".

Definition notes_fs : gmap string (File nat) :=
  {[ notes_path := PdfFile (seq 0 38) ]}.

Definition clock (i : nat) : N := (1700000000123 + N.of_nat i)%N.

(** What pdf-lib reports for bytes that do not start a PDF. *)
Definition no_pdf_header : string :=
  "Failed to parse PDF document (line:0 col:0 offset=0): No PDF header found".

(** ** Decimal numerals and chunk paths *)

Definition is_digit (c : ascii) : bool :=
  let n := code c in (48 <=? n) && (n <=? 57).

(** The number a list of digits denotes. *)
Definition digits_value (l : list ascii) : N :=
  fold_left (fun v c => (v * 10 + (N_of_ascii c - 48))%N) l 0%N.

(** The characters a chunk name adds to the base name. *)
Definition chunk_suffix (chunkIndex numChunks : nat) (timestamp : N) : list ascii :=
  chars "_chunk_" ++ chars (decimal (N.of_nat (chunkIndex + 1))) ++
  chars "_of_" ++ chars (decimal (N.of_nat numChunks)) ++
  chars "_" ++ chars (decimal timestamp) ++ chars ".pdf".

Definition slash_free (l : list ascii) : Prop := Forall (fun c => c <> "/"%char) l.

(** A plain file name: not empty, without a slash, and neither [.] nor
    [..]. *)
Definition plain_name (n : list ascii) : Prop :=
  n <> [] /\ slash_free n /\ n <> chars "." /\ n <> chars "..".

(** What [path.join(dir, name)] puts in front of a plain name: nothing for
    an empty or vanishing relative directory, otherwise the normalized
    directory and a slash. *)
Definition join_prefix (dir : string) : list ascii :=
  match chars dir with
  | [] => []
  | first :: _ =>
      let isAbsolute := bool_decide (first = "/"%char) in
      let kept := fold_left (normalize_segment (negb isAbsolute))
                            (segments [] (chars dir)) [] in
      (if isAbsolute then ["/"%char] else []) ++
      match rev kept with
      | [] => []
      | segs => join_segments segs ++ ["/"%char]
      end
  end.

(** ** functions/services/documentAIService *)

(** The error of the OCR service that reports too many pages: code 3
    (INVALID_ARGUMENT) with a message that mentions "page" and "limit". *)
Definition is_page_limit_error (e : JsError) : bool :=
  bool_decide (err_code e = Some 3%Z) &&
  includes (err_message e) "page" && includes (err_message e) "limit".

Definition chunk_separator : string :=
  String "010" (String "010" "--- Chunk separator ---" +:+ String "010" (String "010" "")).

Section OcrAdapter.
Context {Page : Type}.

(** What the adapter is run with:
    - [processorId]: the environment variable GCP_PROCESSOR_ID;
    - [processDocument file mimeType native]: the call to the OCR service on
      the bytes of [file], giving [document?.text] or an error;
    - [unlink_throws]: the deletions of local files that fail;
    - [now]: the clock read when chunk [i] is saved.
    Of the logger calls, the model keeps those of the cleanup operations. *)
Record OcrEnv := {
  processorId : option string;
  processDocument : File Page -> string -> bool -> Result (option string);
  unlink_throws : string -> bool;
  now : nat -> N
}.

(** Local files and the log. *)
Definition World : Type := gmap string (File Page) * list LogEntry.

(** [document?.text], with the empty string when there is none. *)
Definition text_or_empty (text : option string) : string := default "" text.

(** [processPdfChunk] *)
Definition processPdfChunk (env : OcrEnv) (fs : gmap string (File Page))
    (chunkPath : string) : Result string :=
  match fs !! chunkPath with
  | None =>
      Throw (plain_error ("ENOENT: no such file or directory, open '" +:+ chunkPath +:+ "'"))
  | Some file =>
      match processDocument env file "application/pdf" true with
      | Throw e => Throw e
      | Ok text => Ok (text_or_empty text)
      end
  end.

(** The loop over the chunks in the [try] block: a chunk that fails is
    skipped, unless it fails with the page-limit error.  [i] is the index of
    the first chunk of [chunks]. *)
Fixpoint process_chunks (env : OcrEnv) (fs : gmap string (File Page))
    (chunks : list string) (i : nat) (extractedTexts : list string)
  : Result (list string) :=
  match chunks with
  | [] => Ok extractedTexts
  | chunkPath :: rest =>
      match processPdfChunk env fs chunkPath with
      | Ok chunkText => process_chunks env fs rest (S i) (extractedTexts ++ [chunkText])
      | Throw chunkError =>
          if is_page_limit_error chunkError
          then Throw (plain_error
                 ("Chunk " +:+ decimal (N.of_nat (i + 1)) +:+
                  " still exceeds page limit. This shouldn't happen after splitting."))
          else process_chunks env fs rest (S i) extractedTexts
      end
  end.

(** The loop over the chunks in the retry of the [catch] block: the first
    failure ends it. *)
Fixpoint process_chunks_retry (env : OcrEnv) (fs : gmap string (File Page))
    (chunks : list string) (extractedTexts : list string) : Result (list string) :=
  match chunks with
  | [] => Ok extractedTexts
  | chunkPath :: rest =>
      match processPdfChunk env fs chunkPath with
      | Ok chunkText => process_chunks_retry env fs rest (extractedTexts ++ [chunkText])
      | Throw e => Throw e
      end
  end.

(** [chunks.filter((chunk) => chunk !== filePath)] *)
Definition chunks_without (filePath : string) (chunks : list string) : list string :=
  filter (fun chunk => chunk <> filePath) chunks.

(** The outcome of the [try] block of [extractTextFromFile]: the value it
    returns or the error it throws, the world, and [pdfChunkPaths]. *)
Definition extract_try (env : OcrEnv) (filePath mimeType : string) (w : World)
  : Result string * World * list string :=
  let '(fs, log) := w in
  let isPDF := String.eqb mimeType "application/pdf" in
  let normal :=
    match fs !! filePath with
    | None =>
        (Throw (plain_error ("ENOENT: no such file or directory, open '" +:+ filePath +:+ "'")),
         w, [])
    | Some file =>
        match processDocument env file mimeType isPDF with
        | Throw e => (Throw e, w, [])
        | Ok text => (Ok (text_or_empty text), w, [])
        end
    end in
  if isPDF then
    match getPdfPageCount fs filePath with
    | Throw e => (Throw e, w, [])
    | Ok pageCount =>
        if 15 <? pageCount then
          match splitPdfIntoChunks (now env) filePath "/tmp" fs with
          | (Throw e, fs1) => (Throw e, (fs1, log), [])
          | (Ok chunks, fs1) =>
              let pdfChunkPaths := chunks_without filePath chunks in
              match process_chunks env fs1 chunks 0 [] with
              | Throw e => (Throw e, (fs1, log), pdfChunkPaths)
              | Ok extractedTexts =>
                  (Ok (join chunk_separator extractedTexts),
                   cleanupPdfChunks (unlink_throws env) pdfChunkPaths (fs1, log),
                   pdfChunkPaths)
              end
          end
        else normal
    end
  else normal.

(** The retry with splitting inside the [catch] block.  [None] stands for
    falling through to the final [throw]. *)
Definition extract_retry (env : OcrEnv) (filePath : string) (w : World)
  : option string * World :=
  let '(fs, log) := w in
  match getPdfPageCount fs filePath with
  | Throw _ => (None, w)
  | Ok pageCount =>
      if 15 <? pageCount then
        match splitPdfIntoChunks (now env) filePath "/tmp" fs with
        | (Throw _, fs1) => (None, (fs1, log))
        | (Ok chunks, fs1) =>
            match process_chunks_retry env fs1 chunks [] with
            | Throw _ => (None, (fs1, log))
            | Ok extractedTexts =>
                (Some (join chunk_separator extractedTexts),
                 cleanupPdfChunks (unlink_throws env) (chunks_without filePath chunks)
                   (fs1, log))
            end
        end
      else (None, w)
  end.

(** [extractTextFromFile] *)
Definition extractTextFromFile (env : OcrEnv) (filePath mimeType : string) (w : World)
  : Result string * World :=
  match processorId env with
  | None | Some EmptyString =>
      (Throw (plain_error "Document AI processor ID not configured"), w)
  | Some _ =>
      let isPDF := String.eqb mimeType "application/pdf" in
      match extract_try env filePath mimeType w with
      | (Ok text, w1, _) => (Ok text, w1)
      | (Throw error, w1, pdfChunkPaths) =>
          let w2 := match pdfChunkPaths with
                    | [] => w1
                    | _ => cleanupPdfChunks (unlink_throws env) pdfChunkPaths w1
                    end in
          if is_page_limit_error error then
            let '(retried, w3) :=
              if isPDF && bool_decide (pdfChunkPaths = [])
              then extract_retry env filePath w2
              else (None, w2) in
            match retried with
            | Some combinedText => (Ok combinedText, w3)
            | None =>
                (Throw (plain_error
                   ("PDF exceeds Document AI page limit. Original error: " +:+
                    err_message error)), w3)
            end
          else
            (Throw (plain_error ("Failed to extract text: " +:+ err_message error)), w2)
      end
  end.

End OcrAdapter.
Arguments OcrEnv : clear implicits.
Arguments World : clear implicits.

(** A temporary directory with the source PDF, two of its chunks and an
    unrelated image; the deletion of the first chunk fails. *)
Definition chunk1_path : string := "/tmp/notes_chunk_1_of_2_1700000000123.pdf".
Definition chunk2_path : string := "/tmp/notes_chunk_2_of_2_1700000000124.pdf".

Definition chunked_fs : gmap string (File nat) :=
  {[ "/tmp/notes.pdf" := PdfFile (seq 0 20);
     chunk1_path := PdfFile (seq 0 15);
     chunk2_path := PdfFile (seq 15 5);
     "/tmp/photo.png" := OtherFile 2048 no_pdf_header ]}.

Definition first_chunk_locked (p : string) : bool := String.eqb p chunk1_path.

(** A path that chunk cleanup removes when it meets it: its name has the
    chunk marker and its deletion does not fail. *)
Definition deletable (unlink_throws : string -> bool) (p : string) : bool :=
  includes p "_chunk_" && negb (unlink_throws p).

Definition cleanup_list : list string :=
  [chunk1_path; "/tmp/gone_chunk_3_of_3_1.pdf"; "/tmp/photo.png"; chunk2_path].

(** ** The OCR adapter: texts of the chunks *)

(** The text a chunk contributes, if its OCR call succeeds. *)
Definition chunk_text {Page} (env : OcrEnv Page) (fs : gmap string (File Page))
    (chunkPath : string) : option string :=
  match processPdfChunk env fs chunkPath with
  | Ok text => Some text
  | Throw _ => None
  end.

(** The OCR call on a chunk fails with the page-limit error. *)
Definition chunk_over_limit {Page} (env : OcrEnv Page) (fs : gmap string (File Page))
    (chunkPath : string) : bool :=
  match processPdfChunk env fs chunkPath with
  | Throw e => is_page_limit_error e
  | Ok _ => false
  end.

(** The environment is configured with a processor. *)
Definition configured {Page} (env : OcrEnv Page) : Prop :=
  exists c s, processorId env = Some (String c s).

(** An OCR service that fails on the second chunk of [chunked_fs] with an
    error that is not the page-limit error. *)
Definition flaky_ocr : OcrEnv nat :=
  {| processorId := Some "processor-1";
     processDocument := fun file _ _ =>
       match file with
       | PdfFile (15 :: _) =>
           Throw {| err_code := Some 14%Z; err_message := "service unavailable" |}
       | _ => Ok (Some "text of a chunk")
       end;
     unlink_throws := fun _ => false;
     now := clock |}.

(** What the OCR service returns for chunk [i] of a document, if it
    succeeds. *)
Definition ocr_chunk {Page} (env : OcrEnv Page) (pages : list Page) (i : nat)
  : option string :=
  match processDocument env (PdfFile (chunk_pages pages i)) "application/pdf" true with
  | Ok text => Some (text_or_empty text)
  | Throw _ => None
  end.

(** The OCR service does not answer chunk [i] with the page-limit error. *)
Definition ocr_within_limit {Page} (env : OcrEnv Page) (pages : list Page) (i : nat)
  : Prop :=
  match processDocument env (PdfFile (chunk_pages pages i)) "application/pdf" true with
  | Ok _ => True
  | Throw e => is_page_limit_error e = false
  end.

(** ** functions/utils/jsonParser *)

(** The values [JSON.parse] produces.  An object is the list of its
    properties in insertion order, each key once. *)
#[warnings="-register-all"]
Inductive Json :=
| JNull
| JBool (b : bool)
| JNumber (x : float)
| JString (s : string)
| JArray (items : list Json)
| JObject (fields : list (string * Json)).

Global Instance Result_ret : MRet Result := fun _ x => Ok x.

Global Instance Result_bind : MBind Result := fun _ _ f r =>
  match r with
  | Ok x => f x
  | Throw e => Throw e
  end.

(** The first binding of a key in a list of properties. *)
Fixpoint assoc (key : string) (fields : list (string * Json)) : option Json :=
  match fields with
  | [] => None
  | (k, v) :: rest => if String.eqb k key then Some v else assoc key rest
  end.

(** [obj[key] = v] on a list of properties: an existing key keeps its place,
    a new key goes to the end. *)
Fixpoint assoc_set (key : string) (v : Json) (fields : list (string * Json))
  : list (string * Json) :=
  match fields with
  | [] => [(key, v)]
  | (k, old) :: rest =>
      if String.eqb k key then (k, v) :: rest else (k, old) :: assoc_set key v rest
  end.

(** [value.key] for the property names the parser reads ([title], [cards],
    [tags], [question], [answer], [type], [options]), none of which is
    inherited: [None] is [undefined]; reading a property of [null] throws a
    TypeError. *)
Definition prop (value : Json) (key : string) : Result (option Json) :=
  match value with
  | JNull =>
      Throw (plain_error ("Cannot read properties of null (reading '" +:+ key +:+ "')"))
  | JObject fields => Ok (assoc key fields)
  | _ => Ok None
  end.

(** [value.key = v]; the parser assigns only to a value that has passed the
    title check, which is an object. *)
Definition set_prop (value : Json) (key : string) (v : Json) : Json :=
  match value with
  | JObject fields => JObject (assoc_set key v fields)
  | other => other
  end.

(** [x && typeof x === 'string'] for a property that was read: a string that
    is not empty. *)
Definition nonempty_string (x : option Json) : bool :=
  match x with
  | Some (JString (String _ _)) => true
  | _ => false
  end.

(** [Array.isArray(x)] *)
Definition isArray (x : option Json) : bool :=
  match x with
  | Some (JArray _) => true
  | _ => false
  end.

(** [s.replace(/^<fence>\n?/i, '')] for a string known to start with the
    fence: the fence goes, and a line break right after it. *)
Definition drop_fence_open (fence : nat) (l : list ascii) : list ascii :=
  match drop fence l with
  | c :: rest => if decide (c = "010"%char) then rest else c :: rest
  | [] => []
  end.

(** [s.replace(/\n?```$/, '')]: a closing fence at the very end goes, and a
    line break right before it. *)
Definition drop_fence_close (l : list ascii) : list ascii :=
  if ends_with l (chars "```") then
    let body := take (length l - 3) l in
    if ends_with body ["010"%char] then take (length body - 1) body else body
  else l.

(** The clean-up of the response before parsing. *)
Definition strip_code_fence (response : string) : string :=
  let cleaned := trim_chars (chars response) in
  if starts_with (chars "```json") cleaned
  then str (drop_fence_close (drop_fence_open 7 cleaned))
  else if starts_with (chars "```") cleaned
  then str (drop_fence_close (drop_fence_open 3 cleaned))
  else str cleaned.

(** The loop over the cards. *)
Fixpoint validate_cards (cards : list Json) : Result unit :=
  match cards with
  | [] => Ok ()
  | card :: rest =>
      question ← prop card "question";
      if negb (nonempty_string question)
      then Throw (plain_error "Invalid flashcard response: card missing question")
      else
        answer ← prop card "answer";
        if negb (nonempty_string answer)
        then Throw (plain_error "Invalid flashcard response: card missing answer")
        else validate_cards rest
  end.

(** The [try] block of [parseFlashcardResponse]; [JSON_parse] is
    [JSON.parse]. *)
Definition parseFlashcard_try (JSON_parse : string -> Result Json) (response : string)
  : Result Json :=
  parsed ← JSON_parse (strip_code_fence response);
  title ← prop parsed "title";
  if negb (nonempty_string title)
  then Throw (plain_error "Invalid flashcard response: missing or invalid title")
  else
    cards ← prop parsed "cards";
    match cards with
    | Some (JArray items) =>
        tags ← prop parsed "tags";
        let parsed := if isArray tags then parsed else set_prop parsed "tags" (JArray []) in
        _ ← validate_cards items;
        Ok parsed
    | _ => Throw (plain_error "Invalid flashcard response: cards must be an array")
    end.

(** [parseFlashcardResponse] *)
Definition parseFlashcardResponse (JSON_parse : string -> Result Json) (response : string)
  : Result Json :=
  match parseFlashcard_try JSON_parse response with
  | Ok parsed => Ok parsed
  | Throw error =>
      Throw (plain_error ("Failed to parse flashcard JSON: " +:+ err_message error))
  end.

Definition validTypes : list string :=
  ["multiple-choice"; "multiple-selection"; "fill-in-the-blank"].

(** [question.type && validTypes.includes(question.type)] *)
Definition valid_type (x : option Json) : option string :=
  match x with
  | Some (JString t) => if array_includes validTypes t then Some t else None
  | _ => None
  end.

(** [x === undefined || x === null] *)
Definition nullish (x : option Json) : bool :=
  match x with
  | None | Some JNull => true
  | _ => false
  end.

(** [!Array.isArray(x) || x.length < 2] *)
Definition fewer_than_two (x : option Json) : bool :=
  match x with
  | Some (JArray items) => length items <? 2
  | _ => true
  end.

(** The loop over the questions; [show] is the conversion of a value to
    text inside the template string of the first message. *)
Fixpoint validate_questions (show : option Json -> string) (questions : list Json)
  : Result unit :=
  match questions with
  | [] => Ok ()
  | question :: rest =>
      type ← prop question "type";
      match valid_type type with
      | None =>
          Throw (plain_error
                   ("Invalid quiz response: question has invalid type: " +:+ show type))
      | Some t =>
          text ← prop question "question";
          if negb (nonempty_string text)
          then Throw (plain_error "Invalid quiz response: question missing question text")
          else
            answer ← prop question "answer";
            if nullish answer
            then Throw (plain_error "Invalid quiz response: question missing answer")
            else
              options ← prop question "options";
              if (String.eqb t "multiple-choice" || String.eqb t "multiple-selection")
                 && fewer_than_two options
              then Throw (plain_error
                     "Invalid quiz response: multiple-choice/selection missing options")
              else if String.eqb t "multiple-selection" && negb (isArray answer)
              then Throw (plain_error
                     "Invalid quiz response: multiple-selection answer must be array")
              else validate_questions show rest
      end
  end.

Definition parseQuiz_try (JSON_parse : string -> Result Json)
    (show : option Json -> string) (response : string) : Result Json :=
  parsed ← JSON_parse (strip_code_fence response);
  title ← prop parsed "title";
  if negb (nonempty_string title)
  then Throw (plain_error "Invalid quiz response: missing or invalid title")
  else
    questionsList ← prop parsed "questionsList";
    match questionsList with
    | Some (JArray items) =>
        tags ← prop parsed "tags";
        let parsed := if isArray tags then parsed else set_prop parsed "tags" (JArray []) in
        _ ← validate_questions show items;
        Ok parsed
    | _ => Throw (plain_error "Invalid quiz response: questionsList must be an array")
    end.

(** [parseQuizResponse] *)
Definition parseQuizResponse (JSON_parse : string -> Result Json)
    (show : option Json -> string) (response : string) : Result Json :=
  match parseQuiz_try JSON_parse show response with
  | Ok parsed => Ok parsed
  | Throw error =>
      Throw (plain_error ("Failed to parse quiz JSON: " +:+ err_message error))
  end.

(** A card the parser accepts: its question and its answer are strings that
    are not empty. *)
Definition valid_card (card : Json) : Prop :=
  exists q a, prop card "question" = Ok (Some (JString q)) /\ q <> "" /\
              prop card "answer" = Ok (Some (JString a)) /\ a <> "".

(** The property is a list. *)
Definition has_list (value : Json) (key : string) (items : list Json) : Prop :=
  prop value key = Ok (Some (JArray items)).

(** The property is absent or not a list. *)
Definition lacks_list (value : Json) (key : string) : Prop :=
  forall items, prop value key <> Ok (Some (JArray items)).

(** A response inside a code fence whose object has a title and one card
    but no tags, and a [JSON.parse] that knows this one text. *)
Definition dq : string := String (ascii_of_nat 34) "".

Definition untagged_text : string :=
  "{" +:+ dq +:+ "title" +:+ dq +:+ ":" +:+ dq +:+ "Cells" +:+ dq +:+ "," +:+
  dq +:+ "cards" +:+ dq +:+ ":[{" +:+ dq +:+ "question" +:+ dq +:+ ":" +:+
  dq +:+ "Q" +:+ dq +:+ "," +:+ dq +:+ "answer" +:+ dq +:+ ":" +:+
  dq +:+ "A" +:+ dq +:+ "}]}".

Definition untagged_response : string :=
  "```json" +:+ String "010" untagged_text +:+ String "010" "```".

Definition untagged_value : Json :=
  JObject [ ("title", JString "Cells");
            ("cards", JArray [ JObject [ ("question", JString "Q");
                                         ("answer", JString "A") ] ]) ].

Definition sample_parse (text : string) : Result Json :=
  if String.eqb text untagged_text then Ok untagged_value
  else Throw (plain_error "Unexpected token in JSON").

(** The title is a string that is not empty. *)
Definition valid_title (value : Json) : Prop :=
  exists t, prop value "title" = Ok (Some (JString t)) /\ t <> "".
(** ** functions/utils/jsonParser: quiz responses *)

(** A question the quiz parser accepts: a known type, a non-empty string as
    question text, an answer that is neither missing nor [null]; for the two
    choice types at least two options, and for multiple selection a list as
    answer. *)
Definition valid_question (question : Json) : Prop :=
  exists t text answer,
    prop question "type" = Ok (Some (JString t)) /\ t ∈ validTypes /\
    prop question "question" = Ok (Some (JString text)) /\ text <> "" /\
    prop question "answer" = Ok (Some answer) /\ answer <> JNull /\
    (t <> "fill-in-the-blank" ->
     exists options, prop question "options" = Ok (Some (JArray options)) /\
                     2 <= length options) /\
    (t = "multiple-selection" -> exists items, answer = JArray items).

(** The parsed value with its tags defaulted: unchanged when [tags] is a
    list, with [tags] set to the empty list otherwise. *)
Definition with_tags (parsed : Json) : Json :=
  match prop parsed "tags" with
  | Ok (Some (JArray _)) => parsed
  | _ => set_prop parsed "tags" (JArray [])
  end.

(** A quiz with one question of each type, and a [JSON.parse] that knows its
    text. *)
Definition quiz_text : string :=
  "{" +:+ dq +:+ "title" +:+ dq +:+ ":" +:+ dq +:+ "Cells" +:+ dq +:+ ",...}".

Definition quiz_value : Json :=
  JObject [ ("title", JString "Cells");
            ("questionsList",
             JArray [ JObject [ ("type", JString "multiple-choice");
                                ("question", JString "Which organelle makes ATP?");
                                ("options", JArray [JString "Nucleus"; JString "Mitochondrion"]);
                                ("answer", JString "Mitochondrion") ];
                      JObject [ ("type", JString "multiple-selection");
                                ("question", JString "Which have a membrane?");
                                ("options", JArray [JString "Nucleus"; JString "Ribosome";
                                                    JString "Lysosome"]);
                                ("answer", JArray [JString "Nucleus"; JString "Lysosome"]) ];
                      JObject [ ("type", JString "fill-in-the-blank");
                                ("question", JString "The powerhouse of the cell is the ...");
                                ("answer", JString "mitochondrion") ] ]);
            ("tags", JString "biology") ].

Definition sample_quiz_parse (text : string) : Result Json :=
  if String.eqb text quiz_text then Ok quiz_value
  else Throw (plain_error "Unexpected token in JSON").

Definition show_undefined (x : option Json) : string := "undefined".

(** A text inside a Markdown code fence with the given tag, the way the
    model wraps its JSON: the opening fence, a line break, the text, a line
    break, the closing fence. *)
Definition in_code_fence (tag body : string) : string :=
  "```" +:+ tag +:+ String "010" body +:+ String "010" "```".

(** A string of white space only. *)
Definition blank (s : string) : Prop := Forall (fun c => is_space c = true) (chars s).

(** ** utils/firestoreService (client side): save with duplicate check *)

(** A creation or access date as the code may find it in a stored entity: a
    Firestore [Timestamp] (with [toMillis]), a plain object with a [seconds]
    field, or nothing. *)
Inductive TimeField :=
| Timestamp (seconds nanoseconds : Z)
| PlainSeconds (seconds : Z)
| NoTime.

(** An integer as a double; exact below 2^53 in absolute value, which
    covers the seconds and nanoseconds of every [Timestamp]. *)
Definition float_of_Z (z : Z) : float :=
  if (z <? 0)%Z then PrimFloat.opp (PrimFloat.of_uint63 (Uint63.of_Z (- z)))
  else PrimFloat.of_uint63 (Uint63.of_Z z).

(** [Timestamp.toMillis()], which the SDK computes as
    [this.seconds * 1000 + this.nanoseconds / 1e6]: a double that keeps the
    part below a millisecond. *)
Definition toMillis (seconds nanoseconds : Z) : float :=
  PrimFloat.add (PrimFloat.mul (float_of_Z seconds) 1000%float)
                (PrimFloat.div (float_of_Z nanoseconds) 1000000%float).

(** [a || b] on numbers: [a] unless it is 0 or NaN. *)
Definition num_or (a b : float) : float :=
  if PrimFloat.is_zero a || PrimFloat.is_nan a then b else a.

(** [t?.toMillis?.() || (t as any)?.seconds * 1000 || 0] *)
Definition millis_of (t : TimeField) : float :=
  match t with
  | Timestamp s n =>
      num_or (toMillis s n) (num_or (PrimFloat.mul (float_of_Z s) 1000%float) 0%float)
  | PlainSeconds s => num_or (PrimFloat.mul (float_of_Z s) 1000%float) 0%float
  | NoTime => 0%float
  end.

(** [t?.toMillis?.() || 0] *)
Definition toMillis_or_0 (t : TimeField) : float :=
  match t with
  | Timestamp s n => num_or (toMillis s n) 0%float
  | _ => 0%float
  end.

Inductive Answer :=
| AnswerText (text : string)
| AnswerList (items : list string).

Record QuizQuestion := {
  q_type : string;
  q_question : string;
  q_answer : Answer;
  q_options : list string;
  q_currentAnswer : Answer
}.

Record QuizData := {
  quiz_title : string;
  quiz_creationDate : TimeField;
  quiz_isComplete : bool;
  quiz_lastAccessed : TimeField;
  quiz_lastQuestionIndex : option nat;
  quiz_score : Z;
  quiz_tags : list string;
  quiz_questionsList : option (list QuizQuestion);
  quiz_bookmarkedQuestions : option (list nat)
}.

(** [Omit<QuizData, 'creationDate' | 'lastAccessed' | 'lastQuestionIndex' |
    'bookmarkedQuestions'>] *)
Record QuizInput := {
  qi_title : string;
  qi_isComplete : bool;
  qi_score : Z;
  qi_tags : list string;
  qi_questionsList : option (list QuizQuestion)
}.

Record FlashcardCard := {
  card_question : string;
  card_answer : string;
  card_status : string;
  card_confidenceLevel : Z
}.

Record FlashcardData := {
  fc_title : string;
  fc_tags : list string;
  fc_creationDate : TimeField;
  fc_lastReviewed : TimeField;
  fc_cards : option (list FlashcardCard)
}.

(** [Omit<FlashcardData, 'creationDate' | 'lastReviewed'>] *)
Record FlashcardInput := {
  fi_title : string;
  fi_tags : list string;
  fi_cards : option (list FlashcardCard)
}.

(** The part of a user document the save functions read and write:
    [history.flashcards] and [history.quizzes], each possibly absent. *)
Record UserDoc := {
  history_flashcards : option (list FlashcardData);
  history_quizzes : option (list QuizData)
}.

(** [Math.abs(existingTime - newTime) < window], on doubles. *)
Definition within (window : float) (existingTime newTime : float) : bool :=
  PrimFloat.ltb (PrimFloat.abs (PrimFloat.sub existingTime newTime)) window.

(** [a?.length === b?.length] *)
Definition same_length {A B} (a : option (list A)) (b : option (list B)) : bool :=
  bool_decide (length <$> a = length <$> b).

(** The callback of [existingQuizzes.some(...)]. *)
Definition quiz_isDuplicate (quiz existingQuiz : QuizData) : bool :=
  if negb (String.eqb (quiz_title existingQuiz) (quiz_title quiz)) then false
  else
    let existingTime := millis_of (quiz_creationDate existingQuiz) in
    let newTime := millis_of (quiz_creationDate quiz) in
    let sameStructure :=
      same_length (quiz_questionsList existingQuiz) (quiz_questionsList quiz) in
    within 5000%float existingTime newTime && sameStructure.

(** The callback of [existingQuizzes.find(...)]. *)
Definition quiz_found (quiz existingQuiz : QuizData) : bool :=
  if negb (String.eqb (quiz_title existingQuiz) (quiz_title quiz)) then false
  else within 5000%float (millis_of (quiz_creationDate existingQuiz))
                   (millis_of (quiz_creationDate quiz)).

(** The quiz object built inside the transaction. *)
Definition new_quiz (now : TimeField) (quizData : QuizInput) : QuizData :=
  {| quiz_title := qi_title quizData;
     quiz_creationDate := now;
     quiz_isComplete := qi_isComplete quizData;
     quiz_lastAccessed := now;
     quiz_lastQuestionIndex := Some 0;
     quiz_score := qi_score quizData;
     quiz_tags := qi_tags quizData;
     quiz_questionsList := qi_questionsList quizData;
     quiz_bookmarkedQuestions := Some [] |}.

(** The body of the transaction of [saveQuizToFirestore]: the entity it
    reports and the documents after it. *)
Definition quiz_transaction (now : TimeField) (userId : string) (quizData : QuizInput)
    (db : gmap string UserDoc) : QuizData * gmap string UserDoc :=
  let quiz := new_quiz now quizData in
  match db !! userId with
  | None =>
      (quiz, <[userId := {| history_flashcards := Some [];
                            history_quizzes := Some [quiz] |}]> db)
  | Some userData =>
      let existingQuizzes := default [] (history_quizzes userData) in
      let isDuplicate := existsb (quiz_isDuplicate quiz) existingQuizzes in
      if negb isDuplicate then
        (quiz, <[userId := {| history_flashcards := history_flashcards userData;
                              history_quizzes := Some (existingQuizzes ++ [quiz]) |}]> db)
      else
        let duplicate := List.find (quiz_found quiz) existingQuizzes in
        (default quiz duplicate, db)
  end.

(** [quizzes.findIndex(...)] of the defensive write-back. *)
Fixpoint findIndex {A} (p : A -> bool) (l : list A) : option nat :=
  match l with
  | [] => None
  | x :: rest => if p x then Some 0 else S <$> findIndex p rest
  end.

Definition set_bookmarks (quiz : QuizData) (b : option (list nat)) : QuizData :=
  {| quiz_title := quiz_title quiz;
     quiz_creationDate := quiz_creationDate quiz;
     quiz_isComplete := quiz_isComplete quiz;
     quiz_lastAccessed := quiz_lastAccessed quiz;
     quiz_lastQuestionIndex := quiz_lastQuestionIndex quiz;
     quiz_score := quiz_score quiz;
     quiz_tags := quiz_tags quiz;
     quiz_questionsList := quiz_questionsList quiz;
     quiz_bookmarkedQuestions := b |}.

(** The check after the transaction: a saved quiz without
    [bookmarkedQuestions] gets the empty list and is written back. *)
Definition quiz_fix_bookmarks (userId : string) (savedQuiz : QuizData)
    (db : gmap string UserDoc) : QuizData * gmap string UserDoc :=
  match quiz_bookmarkedQuestions savedQuiz with
  | Some _ => (savedQuiz, db)
  | None =>
      let finalQuiz := set_bookmarks savedQuiz (Some []) in
      match db !! userId with
      | None => (finalQuiz, db)
      | Some userData =>
          let quizzes := default [] (history_quizzes userData) in
          match findIndex
                  (fun q => String.eqb (quiz_title q) (quiz_title finalQuiz) &&
                            within 1000%float (toMillis_or_0 (quiz_creationDate q))
                                        (toMillis_or_0 (quiz_creationDate finalQuiz)))
                  quizzes with
          | Some quizIndex =>
              (finalQuiz,
               <[userId := {| history_flashcards := history_flashcards userData;
                              history_quizzes := Some (<[quizIndex := finalQuiz]> quizzes) |}]>
                 db)
          | None => (finalQuiz, db)
          end
      end
  end.

(** [saveQuizToFirestore].  [commit_fails] tells that the transaction is
    rejected (no connection, too much contention); then nothing is written
    and the call throws. *)
Definition saveQuizToFirestore (commit_fails : bool) (now : TimeField) (userId : string)
    (quizData : QuizInput) (db : gmap string UserDoc)
  : Result QuizData * gmap string UserDoc :=
  if commit_fails
  then (Throw (plain_error "Failed to save quiz: transaction failed"), db)
  else
    let '(savedQuiz, db1) := quiz_transaction now userId quizData db in
    let '(finalQuiz, db2) := quiz_fix_bookmarks userId savedQuiz db1 in
    (Ok finalQuiz, db2).

(** The callbacks of [some] and [find] in [saveFlashcardToFirestore]. *)
Definition flashcard_isDuplicate (flashcard existingFlashcard : FlashcardData) : bool :=
  if negb (String.eqb (fc_title existingFlashcard) (fc_title flashcard)) then false
  else
    let existingTime := millis_of (fc_creationDate existingFlashcard) in
    let newTime := millis_of (fc_creationDate flashcard) in
    let sameStructure := same_length (fc_cards existingFlashcard) (fc_cards flashcard) in
    within 5000%float existingTime newTime && sameStructure.

Definition flashcard_found (flashcard existingFlashcard : FlashcardData) : bool :=
  if negb (String.eqb (fc_title existingFlashcard) (fc_title flashcard)) then false
  else within 5000%float (millis_of (fc_creationDate existingFlashcard))
                   (millis_of (fc_creationDate flashcard)).

Definition new_flashcard (now : TimeField) (flashcardData : FlashcardInput)
  : FlashcardData :=
  {| fc_title := fi_title flashcardData;
     fc_tags := fi_tags flashcardData;
     fc_creationDate := now;
     fc_lastReviewed := now;
     fc_cards := fi_cards flashcardData |}.

Definition flashcard_transaction (now : TimeField) (userId : string)
    (flashcardData : FlashcardInput) (db : gmap string UserDoc)
  : FlashcardData * gmap string UserDoc :=
  let flashcard := new_flashcard now flashcardData in
  match db !! userId with
  | None =>
      (flashcard, <[userId := {| history_flashcards := Some [flashcard];
                                 history_quizzes := Some [] |}]> db)
  | Some userData =>
      let existingFlashcards := default [] (history_flashcards userData) in
      let isDuplicate := existsb (flashcard_isDuplicate flashcard) existingFlashcards in
      if negb isDuplicate then
        (flashcard,
         <[userId := {| history_flashcards := Some (existingFlashcards ++ [flashcard]);
                        history_quizzes := history_quizzes userData |}]> db)
      else
        let duplicate := List.find (flashcard_found flashcard) existingFlashcards in
        (default flashcard duplicate, db)
  end.

(** [saveFlashcardToFirestore] *)
Definition saveFlashcardToFirestore (commit_fails : bool) (now : TimeField)
    (userId : string) (flashcardData : FlashcardInput) (db : gmap string UserDoc)
  : Result FlashcardData * gmap string UserDoc :=
  if commit_fails
  then (Throw (plain_error "Failed to save flashcard: transaction failed"), db)
  else
    let '(savedFlashcard, db1) := flashcard_transaction now userId flashcardData db in
    (Ok savedFlashcard, db1).

(** [Timestamp.fromMillis(ms)], what [Timestamp.now()] yields at time [ms]. *)
Definition at_millis (ms : Z) : TimeField :=
  Timestamp (ms / 1000) ((ms mod 1000) * 1000000).

(** Three cards and five cards. *)
Definition a_card : FlashcardCard :=
  {| card_question := "Q"; card_answer := "A"; card_status := "review";
     card_confidenceLevel := 0 |}.

(** A history with a three-card set "Biology" made at 1700000001000 ms and
    a five-card set "Biology" made two seconds later. *)
Definition small_set : FlashcardData :=
  {| fc_title := "Biology"; fc_tags := []; fc_creationDate := at_millis 1700000001000;
     fc_lastReviewed := at_millis 1700000001000; fc_cards := Some (replicate 3 a_card) |}.

Definition large_set : FlashcardData :=
  {| fc_title := "Biology"; fc_tags := []; fc_creationDate := at_millis 1700000003000;
     fc_lastReviewed := at_millis 1700000003000; fc_cards := Some (replicate 5 a_card) |}.

Definition two_sets_db : gmap string UserDoc :=
  {[ "uid-1" := {| history_flashcards := Some [small_set; large_set];
                   history_quizzes := Some [] |} ]}.

Definition one_set_db : gmap string UserDoc :=
  {[ "uid-1" := {| history_flashcards := Some [small_set];
                   history_quizzes := Some [] |} ]}.

(** The second save of the five-card set, one second after the first. *)
Definition large_input : FlashcardInput :=
  {| fi_title := "Biology"; fi_tags := []; fi_cards := Some (replicate 5 a_card) |}.

Definition a_question : QuizQuestion :=
  {| q_type := "fill-in-the-blank"; q_question := "Q"; q_answer := AnswerText "A";
     q_options := []; q_currentAnswer := AnswerText "" |}.

Definition small_quiz : QuizData :=
  new_quiz (at_millis 1700000001000)
    {| qi_title := "Biology"; qi_isComplete := false; qi_score := 0; qi_tags := [];
       qi_questionsList := Some (replicate 3 a_question) |}.

Definition large_quiz_input : QuizInput :=
  {| qi_title := "Biology"; qi_isComplete := false; qi_score := 0; qi_tags := [];
     qi_questionsList := Some (replicate 5 a_question) |}.

Definition one_quiz_db : gmap string UserDoc :=
  {[ "uid-1" := {| history_flashcards := Some [];
                   history_quizzes := Some [small_quiz] |} ]}.

(** ** utils/flashcardHelpers: filtering, searching, sorting *)

Record FilterOptions := {
  filter_mastered : bool;
  filter_learned : bool;
  filter_unlearned : bool
}.

(** The callback of the [filter] in [filterCards]. *)
Definition card_selected (filters : FilterOptions) (card : FlashcardCard) : bool :=
  match getCardStatus (card_confidenceLevel card) with
  | mastered => filter_mastered filters
  | learning_status => filter_learned filters
  | unlearned => filter_unlearned filters
  end.

(** [filterCards] *)
Definition filterCards (cards : list FlashcardCard) (filters : FilterOptions)
  : list FlashcardCard :=
  if negb (filter_mastered filters) && negb (filter_learned filters) &&
     negb (filter_unlearned filters)
  then cards
  else List.filter (card_selected filters) cards.

(** The callback of the [filter] in [searchCards], for the query after
    [toLowerCase] and [trim]. *)
Definition card_matches (query : string) (card : FlashcardCard) : bool :=
  includes (toLowerCase (card_question card)) query ||
  includes (toLowerCase (card_answer card)) query.

(** [searchCards] *)
Definition searchCards (cards : list FlashcardCard) (searchQuery : string)
  : list FlashcardCard :=
  if falsy searchQuery || falsy (trim searchQuery) then cards
  else List.filter (card_matches (trim (toLowerCase searchQuery))) cards.

(** [updateCardStatus] *)
Definition updateCardStatus (card : FlashcardCard) : FlashcardCard :=
  {| card_question := card_question card;
     card_answer := card_answer card;
     card_status := if (card_confidenceLevel card =? 5)%Z then "complete" else "review";
     card_confidenceLevel := card_confidenceLevel card |}.

(** [calculateMasteryPercentage]; [None] is a set without a list of cards. *)
Definition calculateMasteryPercentage (cards : option (list FlashcardCard)) : Z :=
  match cards with
  | None | Some [] => 0%Z
  | Some cards =>
      percentage
        (length (List.filter (fun card => (card_confidenceLevel card =? 5)%Z) cards))
        (length cards)
  end.

(** [a.sort(compare)]: the sort is stable; [compare x y] is negative, zero
    or positive.  An element is put after the elements that do not come
    after it. *)
Fixpoint insert_by {A} (compare : A -> A -> Z) (x : A) (sorted : list A) : list A :=
  match sorted with
  | [] => [x]
  | y :: rest =>
      if (compare x y <=? 0)%Z then x :: sorted
      else y :: insert_by compare x rest
  end.

Definition sort_by {A} (compare : A -> A -> Z) (l : list A) : list A :=
  foldr (insert_by compare) [] l.

(** [sortCards]; [localeCompare a b] is
    [a.localeCompare(b, undefined, {sensitivity: "base"})], the collation
    of the platform. *)
Definition sortCards (localeCompare : string -> string -> Z)
    (cards : list FlashcardCard) (sortBy : string) : list FlashcardCard :=
  let sorted := cards in
  if String.eqb sortBy "newest" then rev sorted
  else if String.eqb sortBy "oldest" then sorted
  else if String.eqb sortBy "title-asc"
  then sort_by (fun a b => localeCompare (card_question a) (card_question b)) sorted
  else if String.eqb sortBy "title-desc"
  then sort_by (fun a b => localeCompare (card_question b) (card_question a)) sorted
  else sorted.

(** [k] answers of the same kind in a row. *)
Definition answer_repeatedly (isCorrect : bool) (k : nat) (level : Z) : Z :=
  Nat.iter k (fun l => updateCardConfidence l isCorrect) level.

Definition all_filters : FilterOptions :=
  {| filter_mastered := true; filter_learned := true; filter_unlearned := true |}.

Definition no_filters : FilterOptions :=
  {| filter_mastered := false; filter_learned := false; filter_unlearned := false |}.

(** ** functions/services/storageService *)

(** The part of a list of characters after the last [sep] (all of it when
    there is none): [s.split(sep).pop()]. *)
Fixpoint after_last (sep : ascii) (cur : list ascii) (l : list ascii) : list ascii :=
  match l with
  | [] => rev cur
  | c :: l' => if decide (c = sep) then after_last sep [] l'
               else after_last sep (c :: cur) l'
  end.

(** The part after the first [sep] ([""] when there is none):
    [s.split(sep).slice(1).join(sep)]. *)
Fixpoint after_first (sep : ascii) (l : list ascii) : list ascii :=
  match l with
  | [] => []
  | c :: l' => if decide (c = sep) then l' else after_first sep l'
  end.

(** The part before the first [sep]: [s.split(sep)[0]]. *)
Fixpoint before_first (sep : ascii) (l : list ascii) : list ascii :=
  match l with
  | [] => []
  | c :: l' => if decide (c = sep) then [] else c :: before_first sep l'
  end.

(** The content type [uploadFileFromBase64] stores with a file. *)
Definition upload_mime_type (fileName fileType : string) : string :=
  if String.eqb fileType "pdf" then "application/pdf"
  else
    let extension := toLowerCase (str (after_last "."%char [] (chars fileName))) in
    if String.eqb extension "jpg" || String.eqb extension "jpeg" then "image/jpeg"
    else if String.eqb extension "png" then "image/png"
    else if String.eqb extension "gif" then "image/gif"
    else if String.eqb extension "webp" then "image/webp"
    else "image/jpeg".

Section Pipeline.
Context {Page : Type}.

(** The machine the function runs on: the local temporary files, the objects
    of the storage bucket with their content type, and the log. *)
Record Cloud := {
  local : gmap string (File Page);
  bucket : gmap string (File Page * string);
  log : list LogEntry
}.

Definition with_local (c : Cloud) (fs : gmap string (File Page)) : Cloud :=
  {| local := fs; bucket := bucket c; log := log c |}.

Definition with_bucket (c : Cloud) (b : gmap string (File Page * string)) : Cloud :=
  {| local := local c; bucket := b; log := log c |}.

Definition add_log (c : Cloud) (entry : LogEntry) : Cloud :=
  {| local := local c; bucket := bucket c; log := log c ++ [entry] |}.

(** The services and the environment of a run:
    - [sv_ocr]: the OCR adapter's environment;
    - [sv_bucket_name]: the name of the default bucket;
    - [sv_apiKey]: GEMINI_API_KEY;
    - [sv_decode]: the file a base64 text decodes to;
    - [sv_encode]: the base64 text of a file;
    - [sv_upload_prefix i]: the time stamp and random suffix of upload [i];
    - [sv_download_time i]: the clock at download [i];
    - [sv_save_fails], [sv_download_fails], [sv_remote_delete_fails]: the
      calls to the bucket that fail;
    - [sv_extractFilePathFromUrl]: the object path of a storage URL, as the
      helper of the same name computes it with the platform's URL parser;
    - [sv_generateContent], [sv_describeImage]: the generative model called
      with a prompt, and with an image and a prompt;
    - [sv_JSON_parse], [sv_show]: [JSON.parse] and the conversion to text. *)
Record Services := {
  sv_ocr : OcrEnv Page;
  sv_bucket_name : string;
  sv_apiKey : option string;
  sv_decode : string -> File Page;
  sv_encode : File Page -> string;
  sv_upload_prefix : nat -> string;
  sv_download_time : nat -> N;
  sv_save_fails : string -> bool;
  sv_download_fails : string -> bool;
  sv_remote_delete_fails : string -> bool;
  sv_extractFilePathFromUrl : string -> string;
  sv_generateContent : string -> Result string;
  sv_describeImage : string -> string -> string -> Result string;
  sv_JSON_parse : string -> Result Json;
  sv_show : option Json -> string
}.

(** [uploadFileFromBase64], the [i]-th upload of the run. *)
Definition uploadFileFromBase64 (sv : Services) (i : nat)
    (base64Data fileName fileType userId : string) (c : Cloud) : Result string * Cloud :=
  let storageFileName := sv_upload_prefix sv i +:+ "_" +:+ fileName in
  let storagePath := "uploads/" +:+ userId +:+ "/" +:+ storageFileName in
  let mimeType := upload_mime_type fileName fileType in
  if sv_save_fails sv storagePath
  then (Throw (plain_error "Failed to upload file: storage write failed"), c)
  else
    (Ok ("gs://" +:+ sv_bucket_name sv +:+ "/" +:+ storagePath),
     with_bucket c (<[storagePath := (sv_decode sv base64Data, mimeType)]> (bucket c))).

Record Downloaded := {
  dl_filePath : string;
  dl_fileName : string;
  dl_mimeType : string
}.

(** The [filePath] variable of [downloadFileFromStorage]: for a gs:// URL
    the part after the bucket name, otherwise what the shared helper
    extracts. *)
Definition download_file_path (sv : Services) (storageUrl : string) : string :=
  if startsWith storageUrl "gs://"
  then str (after_first "/"%char (drop 5 (chars storageUrl)))
  else sv_extractFilePathFromUrl sv storageUrl.

(** The object path [downloadFileFromStorage] reads in the bucket of the
    application.  A gs:// URL of another bucket names no object of this
    one. *)
Definition download_object_path (sv : Services) (storageUrl : string) : option string :=
  if startsWith storageUrl "gs://" then
    let rest := drop 5 (chars storageUrl) in
    if String.eqb (str (before_first "/"%char rest)) (sv_bucket_name sv)
    then Some (str (after_first "/"%char rest))
    else None
  else Some (sv_extractFilePathFromUrl sv storageUrl).

(** [downloadFileFromStorage], the [i]-th download of the run. *)
Definition downloadFileFromStorage (sv : Services) (i : nat) (storageUrl : string)
    (c : Cloud) : Result Downloaded * Cloud :=
  match download_object_path sv storageUrl ≫= (fun p => (fun o => (p, o)) <$> bucket c !! p) with
  | None =>
      (Throw (plain_error ("Failed to download file: File does not exist at path: " +:+
                           download_file_path sv storageUrl)), c)
  | Some (filePath, (content, contentType)) =>
      let mimeType := if falsy contentType then "application/octet-stream" else contentType in
      let fileName := basename filePath "" in
      let localFilePath :=
        path_join "/tmp" (decimal (sv_download_time sv i) +:+ "_" +:+ fileName) in
      if sv_download_fails sv filePath
      then (Throw (plain_error "Failed to download file: download failed"), c)
      else
        (Ok {| dl_filePath := localFilePath; dl_fileName := fileName;
               dl_mimeType := mimeType |},
         with_local c (<[localFilePath := content]> (local c)))
  end.

(** [cleanupTempFile] *)
Definition cleanupTempFile (sv : Services) (filePath : string) (c : Cloud) : Cloud :=
  match local c !! filePath with
  | None => c
  | Some _ =>
      if unlink_throws (sv_ocr sv) filePath
      then add_log c (LogError "Error cleaning up temp file:")
      else add_log (with_local c (delete filePath (local c)))
                   (LogInfo ("Cleaned up temp file: " +:+ filePath))
  end.

(** [deleteFileFromStorage]: deleting an object that does not exist, or
    whose deletion the bucket refuses, is an error, which is logged. *)
Definition deleteFileFromStorage (sv : Services) (storageUrl : string) (c : Cloud) : Cloud :=
  let filePath := sv_extractFilePathFromUrl sv storageUrl in
  if falsy filePath
  then add_log c (LogWarn ("Could not extract file path from URL: " +:+ storageUrl))
  else
    match bucket c !! filePath with
    | Some _ =>
        if sv_remote_delete_fails sv filePath
        then add_log c (LogError "Error deleting file from Storage:")
        else add_log (with_bucket c (delete filePath (bucket c)))
                     (LogInfo ("Deleted file from Storage: " +:+ filePath))
    | None => add_log c (LogError "Error deleting file from Storage:")
    end.

(** [fileToBase64] *)
Definition fileToBase64 (sv : Services) (filePath : string) (c : Cloud) : Result string :=
  match local c !! filePath with
  | Some file => Ok (sv_encode sv file)
  | None => Throw (plain_error "Failed to convert file to base64: no such file")
  end.

End Pipeline.
Arguments Cloud : clear implicits.
Arguments Services : clear implicits.

(** ** functions/utils/promptBuilder and functions/services/geminiService *)

Definition nl : string := String "010" "".

(** [`${n}`] for the number of items, an integer. *)
Definition show_count (n : Z) : string :=
  if (n <? 0)%Z then "-" +:+ decimal (Z.to_N (- n)) else decimal (Z.to_N n).

(** [notes ? `User notes: ${notes}` : ''] *)
Definition notes_line (notes : option string) : string :=
  match notes with
  | Some (String c s) => "User notes: " +:+ String c s
  | _ => ""
  end.

(** [buildDiagramPrompt] *)
Definition buildDiagramPrompt : string :=
  "Describe this diagram in detail, including all concepts, labels, relationships, and any text visible. "
  +:+ nl +:+
  "Focus on information that would be useful for creating educational flashcards. "
  +:+ nl +:+
  "Output as a clear, comprehensive plain text description.".

(** The fixed lines of [buildFlashcardPrompt] between the first line and the
    content. *)
Definition flashcard_format : string :=
  "Return ONLY valid JSON in this exact format (no markdown, no code blocks, just raw JSON):"
  +:+ nl +:+ "{" +:+ nl +:+
  "  " +:+ dq +:+ "title" +:+ dq +:+ ": " +:+ dq +:+ "string" +:+ dq +:+ "," +:+ nl +:+
  "  " +:+ dq +:+ "tags" +:+ dq +:+ ": [" +:+ dq +:+ "string" +:+ dq +:+ "]," +:+ nl +:+
  "  " +:+ dq +:+ "cards" +:+ dq +:+ ": [" +:+ nl +:+
  "    {" +:+ nl +:+
  "      " +:+ dq +:+ "question" +:+ dq +:+ ": " +:+ dq +:+ "string" +:+ dq +:+ "," +:+ nl +:+
  "      " +:+ dq +:+ "answer" +:+ dq +:+ ": " +:+ dq +:+ "string" +:+ dq +:+ nl +:+
  "    }" +:+ nl +:+
  "  ]" +:+ nl +:+
  "}" +:+ nl.

(** [buildFlashcardPrompt] *)
Definition buildFlashcardPrompt (text : string) (numCards : Z) (notes : option string)
  : string :=
  "Generate exactly " +:+ show_count numCards +:+
  " flashcards from the following content. " +:+ nl +:+
  flashcard_format +:+ nl +:+
  "Content: " +:+ text +:+ nl +:+
  notes_line notes +:+ nl +:+ nl +:+
  "Make sure the questions are clear and the answers are comprehensive. Ensure the JSON is valid and parseable.".

Definition quiz_format : string :=
  "Return ONLY valid JSON in this exact format (no markdown, no code blocks, just raw JSON):"
  +:+ nl +:+ "{" +:+ nl +:+
  "  " +:+ dq +:+ "title" +:+ dq +:+ ": " +:+ dq +:+ "string" +:+ dq +:+ "," +:+ nl +:+
  "  " +:+ dq +:+ "tags" +:+ dq +:+ ": [" +:+ dq +:+ "string" +:+ dq +:+ "]," +:+ nl +:+
  "  " +:+ dq +:+ "questionsList" +:+ dq +:+ ": [" +:+ nl +:+
  "    {" +:+ nl +:+
  "      " +:+ dq +:+ "type" +:+ dq +:+ ": " +:+ dq +:+ "multiple-choice" +:+ dq +:+ " | " +:+
    dq +:+ "multiple-selection" +:+ dq +:+ " | " +:+ dq +:+ "fill-in-the-blank" +:+ dq +:+
    "," +:+ nl +:+
  "      " +:+ dq +:+ "question" +:+ dq +:+ ": " +:+ dq +:+ "string" +:+ dq +:+ "," +:+ nl +:+
  "      " +:+ dq +:+ "answer" +:+ dq +:+ ": " +:+ dq +:+ "string" +:+ dq +:+ " or [" +:+
    dq +:+ "string" +:+ dq +:+ "] for multiple-selection," +:+ nl +:+
  "      " +:+ dq +:+ "options" +:+ dq +:+ ": [" +:+ dq +:+ "string" +:+ dq +:+
    "] for multiple-choice/multiple-selection" +:+ nl +:+
  "    }" +:+ nl +:+
  "  ]" +:+ nl +:+
  "}" +:+ nl.

Definition quiz_advice : string :=
  "Make sure:" +:+ nl +:+
  "- For multiple-choice and multiple-selection: provide 4-5 options" +:+ nl +:+
  "- For fill-in-the-blank: answer should be the correct fill-in" +:+ nl +:+
  "- For multiple-selection: answer should be an array of correct options" +:+ nl +:+
  "- Questions should test understanding of the content" +:+ nl +:+
  "- Ensure the JSON is valid and parseable.".

(** [buildQuizPrompt] *)
Definition buildQuizPrompt (text : string) (numQuestions : Z) (questionTypes : list string)
    (notes : option string) : string :=
  let typesList := join ", " questionTypes in
  "Generate exactly " +:+ show_count numQuestions +:+
  " quiz questions from the following content." +:+ nl +:+
  "Use these question types: " +:+ typesList +:+ "." +:+ nl +:+ nl +:+
  quiz_format +:+ nl +:+
  "Content: " +:+ text +:+ nl +:+
  notes_line notes +:+ nl +:+ nl +:+
  quiz_advice.

Section Gemini.
Context {Page : Type}.

(** [getGeminiClient]: it needs the API key. *)
Definition getGeminiClient (sv : Services Page) : Result unit :=
  match sv_apiKey sv with
  | Some (String _ _) => Ok ()
  | _ => Throw (plain_error "Gemini API key not configured")
  end.

(** [understandDiagram] *)
Definition understandDiagram (sv : Services Page) (imageBase64 mimeType : string)
  : Result string :=
  match (_ ← getGeminiClient sv;
         sv_describeImage sv imageBase64 mimeType buildDiagramPrompt) with
  | Ok text => Ok text
  | Throw error =>
      Throw (plain_error ("Failed to understand diagram: " +:+ err_message error))
  end.

(** [generateFlashcards] *)
Definition generateFlashcards (sv : Services Page) (text : string) (numCards : Z)
    (notes : option string) : Result Json :=
  match (_ ← getGeminiClient sv;
         textResponse ← sv_generateContent sv (buildFlashcardPrompt text numCards notes);
         parseFlashcardResponse (sv_JSON_parse sv) textResponse) with
  | Ok parsed => Ok parsed
  | Throw error =>
      Throw (plain_error ("Failed to generate flashcards: " +:+ err_message error))
  end.

(** [generateQuiz] *)
Definition generateQuiz (sv : Services Page) (text : string) (numQuestions : Z)
    (questionTypes : list string) (notes : option string) : Result Json :=
  match (_ ← getGeminiClient sv;
         textResponse ← sv_generateContent sv
                          (buildQuizPrompt text numQuestions questionTypes notes);
         parseQuizResponse (sv_JSON_parse sv) (sv_show sv) textResponse) with
  | Ok parsed => Ok parsed
  | Throw error =>
      Throw (plain_error ("Failed to generate quiz: " +:+ err_message error))
  end.

End Gemini.

(** ** functions/index: processNotes *)

Record FileData := {
  fd_name : string;
  fd_type : string;
  fd_base64 : string
}.

(** The request data.  [req_files] is [None] when the field is missing or is
    not an array; a missing string is the empty string. *)
Record ProcessNotesRequest := {
  req_files : option (list FileData);
  req_selectionType : string;
  req_numberOfItems : Z;
  req_quizQuestionTypes : option (list string);
  req_notes : option string
}.

(** [functions.HttpsError] *)
Record HttpsError := { https_code : string; https_message : string }.

(** What a statement inside the handler may throw. *)
Inductive Thrown :=
| ThrowHttps (e : HttpsError)
| ThrowPlain (e : JsError).

Definition https (code message : string) : Thrown :=
  ThrowHttps {| https_code := code; https_message := message |}.

Definition thrown_message (t : Thrown) : string :=
  match t with
  | ThrowHttps e => https_message e
  | ThrowPlain e => err_message e
  end.

Inductive Stage (A : Type) : Type :=
| Done (value : A)
| Failed (error : Thrown).
Arguments Done {A} value.
Arguments Failed {A} error.

(** [/^[A-Za-z0-9+/=]+$/.test(s)] *)
Definition is_base64_char (c : ascii) : bool :=
  let n := code c in
  ((48 <=? n) && (n <=? 57)) || ((65 <=? n) && (n <=? 90)) ||
  ((97 <=? n) && (n <=? 122)) || (n =? 43) || (n =? 47) || (n =? 61).

Definition looks_like_base64 (s : string) : bool :=
  match chars s with
  | [] => false
  | l => forallb is_base64_char l
  end.

(** The checks on one file of the request. *)
Definition validate_file (file : FileData) : option Thrown :=
  if falsy (fd_name file) || falsy (fd_type file) || falsy (fd_base64 file)
  then Some (https "invalid-argument" "Each file must have name, type, and base64 data")
  else if negb (array_includes ["pdf"; "image"] (fd_type file))
  then Some (https "invalid-argument"
               ("File type must be " +:+ dq +:+ "pdf" +:+ dq +:+ " or " +:+
                dq +:+ "image" +:+ dq))
  else if negb (looks_like_base64 (trim (fd_base64 file)))
  then Some (https "invalid-argument" "Invalid base64 data format")
  else if (100663296 <? Z.of_nat (String.length (fd_base64 file)) * 3)%Z
  then Some (https "invalid-argument"
               ("File " +:+ fd_name file +:+ " is too large. Maximum size is 24MB."))
  else None.

Fixpoint first_invalid_file (files : list FileData) : option Thrown :=
  match files with
  | [] => None
  | file :: rest =>
      match validate_file file with
      | Some e => Some e
      | None => first_invalid_file rest
      end
  end.

(** The validation at the start of the handler, up to the check of the OCR
    configuration.  It yields the files. *)
Definition validate_request (processor : option string) (data : ProcessNotesRequest)
  : Stage (list FileData) :=
  match req_files data with
  | None | Some [] => Failed (https "invalid-argument" "At least one file is required")
  | Some files =>
      if negb (array_includes ["flashcard"; "quiz"] (req_selectionType data))
      then Failed (https "invalid-argument"
                     ("selectionType must be " +:+ dq +:+ "flashcard" +:+ dq +:+ " or " +:+
                      dq +:+ "quiz" +:+ dq))
      else if (req_numberOfItems data <=? 0)%Z
      then Failed (https "invalid-argument" "numberOfItems must be greater than 0")
      else if String.eqb (req_selectionType data) "quiz" &&
              match req_quizQuestionTypes data with
              | None | Some [] => true
              | _ => false
              end
      then Failed (https "invalid-argument" "quizQuestionTypes is required for quiz type")
      else
        match first_invalid_file files with
        | Some e => Failed e
        | None =>
            let hasPdfFiles := existsb (fun f => String.eqb (fd_type f) "pdf") files in
            let configured := match processor with
                              | Some (String _ _) => true
                              | _ => false
                              end in
            if hasPdfFiles && negb configured
            then Failed (https "failed-precondition"
                   "Document AI processor ID not configured. Please set GCP_PROCESSOR_ID environment variable or secret. Check Firebase Functions logs for details.")
            else Done files
        end
  end.

Record DownloadedFile := {
  df_filePath : string;
  df_fileName : string;
  df_mimeType : string;
  df_storageUrl : string
}.

Record ExtractedFileData := {
  ef_fileName : string;
  ef_fileType : string;
  ef_textContent : string
}.

(** [s && s.trim()] as a condition. *)
Definition has_text (s : string) : bool := negb (falsy s) && negb (falsy (trim s)).

Section Handler.
Context {Page : Type}.

(** Step 1, the upload loop; [i] counts the uploads. *)
Fixpoint upload_all (sv : Services Page) (userId : string) (files : list FileData)
    (i : nat) (uploadedFileUrls : list string) (c : Cloud Page)
  : Stage (list string) * Cloud Page :=
  match files with
  | [] => (Done uploadedFileUrls, c)
  | file :: rest =>
      match uploadFileFromBase64 sv i (fd_base64 file) (fd_name file) (fd_type file)
              userId c with
      | (Ok storageUrl, c1) =>
          upload_all sv userId rest (S i) (uploadedFileUrls ++ [storageUrl]) c1
      | (Throw error, c1) =>
          (Failed (https "internal"
                     ("Failed to upload file " +:+ fd_name file +:+ ": " +:+
                      err_message error)), c1)
      end
  end.

(** Step 2, the download loop. *)
Fixpoint download_all (sv : Services Page) (urls : list string) (i : nat)
    (downloadedFiles : list DownloadedFile) (c : Cloud Page)
  : Stage (list DownloadedFile) * Cloud Page :=
  match urls with
  | [] => (Done downloadedFiles, c)
  | storageUrl :: rest =>
      match downloadFileFromStorage sv i storageUrl c with
      | (Ok downloaded, c1) =>
          match local c1 !! dl_filePath downloaded with
          | None =>
              (Failed (https "internal"
                 ("Failed to download file: Downloaded file does not exist at path: " +:+
                  dl_filePath downloaded)), c1)
          | Some _ =>
              download_all sv rest (S i)
                (downloadedFiles ++
                 [{| df_filePath := dl_filePath downloaded;
                     df_fileName := dl_fileName downloaded;
                     df_mimeType := dl_mimeType downloaded;
                     df_storageUrl := storageUrl |}]) c1
          end
      | (Throw error, c1) =>
          (Failed (https "internal"
                     ("Failed to download file: " +:+ err_message error)), c1)
      end
  end.

(** [fileStats.size === 0]: a file without bytes; a PDF that loads has
    bytes. *)
Definition empty_file (f : File Page) : bool :=
  match f with
  | OtherFile 0 _ => true
  | _ => false
  end.

(** The OCR adapter run on the local files and the log of the cloud. *)
Definition run_extractText (sv : Services Page) (filePath mimeType : string)
    (c : Cloud Page) : Result string * Cloud Page :=
  let '(r, (fs, lg)) := extractTextFromFile (sv_ocr sv) filePath mimeType (local c, log c) in
  (r, {| local := fs; bucket := bucket c; log := lg |}).

(** Step 3 for one file: the text to record for it, or the fatal error. *)
Definition extract_one (sv : Services Page) (file : DownloadedFile) (c : Cloud Page)
  : Stage ExtractedFileData * Cloud Page :=
  let isImage := array_includes imageTypes (toLowerCase (df_mimeType file)) in
  let isPdf := String.eqb (df_mimeType file) "application/pdf" in
  let record text :=
    Done {| ef_fileName := df_fileName file; ef_fileType := df_mimeType file;
            ef_textContent := text |} in
  let outer_catch (message : string) :=
    if negb isImage
    then Failed (https "internal"
           ("Failed to extract text from PDF file " +:+ df_fileName file +:+ ": " +:+ message))
    else record "" in
  match local c !! df_filePath file with
  | None => (outer_catch ("File does not exist at path: " +:+ df_filePath file), c)
  | Some f =>
      if empty_file f then (outer_catch ("File is empty: " +:+ df_fileName file), c)
      else
        match run_extractText sv (df_filePath file) (df_mimeType file) c with
        | (Ok textContent, c1) =>
            if negb (has_text textContent) && isPdf
            then (outer_catch
                    ("Failed to extract text from PDF: No text extracted from PDF " +:+
                     df_fileName file +:+ " - PDF may be image-only or corrupted"), c1)
            else (record textContent, c1)
        | (Throw extractError, c1) =>
            if isPdf
            then (outer_catch
                    ("Failed to extract text from PDF: " +:+ err_message extractError), c1)
            else (record "", c1)
        end
  end.

Fixpoint extract_all (sv : Services Page) (files : list DownloadedFile)
    (extractedFiles : list ExtractedFileData) (c : Cloud Page)
  : Stage (list ExtractedFileData) * Cloud Page :=
  match files with
  | [] => (Done extractedFiles, c)
  | file :: rest =>
      match extract_one sv file c with
      | (Done extracted, c1) => extract_all sv rest (extractedFiles ++ [extracted]) c1
      | (Failed e, c1) => (Failed e, c1)
      end
  end.

(** The [try] block around diagram understanding in step 4. *)
Definition describe_diagram (sv : Services Page) (file : ExtractedFileData)
    (downloadedFile : DownloadedFile) (c : Cloud Page) : Result string :=
  match local c !! df_filePath downloadedFile with
  | None => Throw (plain_error ("Image file not found at path: " +:+ df_filePath downloadedFile))
  | Some f =>
      if empty_file f
      then Throw (plain_error ("Image file is empty: " +:+ ef_fileName file))
      else
        imageBase64 ← fileToBase64 sv (df_filePath downloadedFile) c;
        if falsy imageBase64
        then Throw (plain_error "Failed to convert image to base64")
        else understandDiagram sv imageBase64 (ef_fileType file)
  end.

(** Step 4 for one file: the texts it adds to [allTexts], or the fatal
    error. *)
Definition process_one (sv : Services Page) (file : ExtractedFileData)
    (downloadedFile : DownloadedFile) (c : Cloud Page) : Stage (list string) :=
  let isImage := array_includes imageTypes (toLowerCase (ef_fileType file)) in
  let isPdf := String.eqb (ef_fileType file) "application/pdf" in
  let own_text := if has_text (ef_textContent file) then [ef_textContent file] else [] in
  if isPdf then
    if has_text (ef_textContent file) then Done [ef_textContent file]
    else Failed (https "internal"
           ("No text could be extracted from PDF file " +:+ ef_fileName file +:+
            ". The PDF may be corrupted, password-protected, or contain only images."))
  else if isImage then
    if shouldUseDiagramUnderstanding (ef_fileType file) (ef_textContent file) then
      match describe_diagram sv file downloadedFile c with
      | Ok diagramDescription =>
          if has_text diagramDescription then Done [diagramDescription]
          else Done own_text
      | Throw _ => Done own_text
      end
    else Done own_text
  else Done own_text.

Fixpoint process_all (sv : Services Page) (files : list ExtractedFileData)
    (downloadedFiles : list DownloadedFile) (allTexts : list string) (c : Cloud Page)
  : Stage (list string) :=
  match files, downloadedFiles with
  | file :: rest, downloadedFile :: rest' =>
      match process_one sv file downloadedFile c with
      | Done texts => process_all sv rest rest' (allTexts ++ texts) c
      | Failed e => Failed e
      end
  | _, _ => Done allTexts
  end.

(** Step 5, the generation. *)
Definition generate (sv : Services Page) (data : ProcessNotesRequest)
    (combinedText : string) : Stage Json :=
  let r :=
    if String.eqb (req_selectionType data) "flashcard"
    then generateFlashcards sv combinedText (req_numberOfItems data) (req_notes data)
    else generateQuiz sv combinedText (req_numberOfItems data)
           (default [] (req_quizQuestionTypes data)) (req_notes data) in
  match r with
  | Ok result => Done result
  | Throw e => Failed (ThrowPlain e)
  end.

(** The clean-up loop after the generation. *)
Definition cleanup_file (sv : Services Page) (c : Cloud Page) (file : DownloadedFile)
  : Cloud Page :=
  deleteFileFromStorage sv (df_storageUrl file) (cleanupTempFile sv (df_filePath file) c).

Definition cleanup_all (sv : Services Page) (downloadedFiles : list DownloadedFile)
    (c : Cloud Page) : Cloud Page :=
  fold_left (cleanup_file sv) downloadedFiles c.

(** The [try] block of the handler up to the generation: the result and the
    downloaded files, or what was thrown. *)
Definition run_stages (sv : Services Page) (userId : string) (data : ProcessNotesRequest)
    (c : Cloud Page) : Stage (Json * list DownloadedFile) * Cloud Page :=
  match validate_request (processorId (sv_ocr sv)) data with
  | Failed e => (Failed e, c)
  | Done files =>
      match upload_all sv userId files 0 [] c with
      | (Failed e, c1) => (Failed e, c1)
      | (Done uploadedFileUrls, c1) =>
          match download_all sv uploadedFileUrls 0 [] c1 with
          | (Failed e, c2) => (Failed e, c2)
          | (Done [], c2) =>
              (Failed (https "internal"
                         "No files were successfully downloaded from Storage"), c2)
          | (Done downloadedFiles, c2) =>
              match extract_all sv downloadedFiles [] c2 with
              | (Failed e, c3) => (Failed e, c3)
              | (Done extractedFiles, c3) =>
                  match process_all sv extractedFiles downloadedFiles [] c3 with
                  | Failed e => (Failed e, c3)
                  | Done allTexts =>
                      let combinedText := join (nl +:+ nl) allTexts in
                      if falsy (trim combinedText)
                      then (Failed (https "invalid-argument"
                              "No text could be extracted from the provided files"), c3)
                      else
                        match generate sv data combinedText with
                        | Failed e => (Failed e, c3)
                        | Done result => (Done (result, downloadedFiles), c3)
                        end
                  end
              end
          end
      end
  end.

(** [processNotes]: the handler.  [auth] is the caller's user id, if any.
    A success carries the generated data; an error is always an
    [HttpsError]. *)
Definition processNotes (sv : Services Page) (auth : option string)
    (data : ProcessNotesRequest) (c : Cloud Page)
  : (HttpsError + Json) * Cloud Page :=
  match auth with
  | None =>
      (inl {| https_code := "unauthenticated";
              https_message := "User must be authenticated" |}, c)
  | Some userId =>
      match run_stages sv userId data c with
      | (Done (result, downloadedFiles), c1) =>
          (inr result, cleanup_all sv downloadedFiles c1)
      | (Failed (ThrowHttps e), c1) => (inl e, c1)
      | (Failed (ThrowPlain e), c1) =>
          (inl {| https_code := "internal";
                  https_message := "Failed to process notes: " +:+ err_message e |}, c1)
      end
  end.

End Handler.

(** A run with one three-page PDF.  No call to the bucket and no deletion
    fails; the OCR service reads a sentence; the generative model answers
    with [untagged_response]. *)
Definition sample_ocr : OcrEnv nat :=
  {| processorId := Some "processor-1";
     processDocument := fun _ _ _ => Ok (Some "Cells are the units of life.");
     unlink_throws := fun _ => false;
     now := clock |}.

Definition sample_services (key : option string) : Services nat :=
  {| sv_ocr := sample_ocr;
     sv_bucket_name := "app.appspot.com";
     sv_apiKey := key;
     sv_decode := fun _ => PdfFile [0; 1; 2];
     sv_encode := fun _ => "JVBERi0x";
     sv_upload_prefix := fun _ => "1700000000000_k3j9x2a";
     sv_download_time := fun i => (1700000000500 + N.of_nat i)%N;
     sv_save_fails := fun _ => false;
     sv_download_fails := fun _ => false;
     sv_remote_delete_fails := fun _ => false;
     sv_extractFilePathFromUrl :=
       fun url => str (after_first "/"%char (drop 5 (chars url)));
     sv_generateContent := fun _ => Ok untagged_response;
     sv_describeImage := fun _ _ _ => Ok "A diagram of a cell.";
     sv_JSON_parse := sample_parse;
     sv_show := fun _ => "undefined" |}.

Definition sample_request : ProcessNotesRequest :=
  {| req_files := Some [ {| fd_name := "notes.pdf"; fd_type := "pdf";
                            fd_base64 := "JVBERi0x" |} ];
     req_selectionType := "flashcard";
     req_numberOfItems := 5;
     req_quizQuestionTypes := None;
     req_notes := None |}.

Definition empty_cloud : Cloud nat := {| local := ∅; bucket := ∅; log := [] |}.

Definition sample_local_path : string :=
  "/tmp/1700000000500_1700000000000_k3j9x2a_notes.pdf".

Definition sample_object_path : string :=
  "uploads/uid-1/1700000000000_k3j9x2a_notes.pdf".

(** The paths and object paths the clean-up loop works on. *)
Definition cleanup_paths (downloadedFiles : list DownloadedFile) : list string :=
  map df_filePath downloadedFiles.

Definition cleanup_objects {Page} (sv : Services Page)
    (downloadedFiles : list DownloadedFile) : list string :=
  map (fun f => sv_extractFilePathFromUrl sv (df_storageUrl f)) downloadedFiles.

(** No line of the log comes from the clean-up of the handler. *)
Definition is_cleanup_entry (e : LogEntry) : bool :=
  match e with
  | LogInfo m => starts_with (chars "Cleaned up temp file") (chars m) ||
                 starts_with (chars "Deleted file from Storage") (chars m)
  | LogWarn m => starts_with (chars "Could not extract file path") (chars m)
  | LogError m => starts_with (chars "Error cleaning up temp file") (chars m) ||
                  starts_with (chars "Error deleting file from Storage") (chars m)
  end.

(** * Lemmas *)

(** ** utils/flashcardHelpers *)

Example percentage_examples :
  percentage 1 1 = 100%Z /\ percentage 0 3 = 0%Z /\ percentage 2 3 = 67%Z /\
  percentage 1 8 = 13%Z /\ percentage 29 200 = 14%Z.
Proof. vm_compute. done. Qed.

(** *** updateCardConfidence *)

(** C8: [updateCardConfidence] is min(5, level+1) on a correct answer and
    max(0, level-1) on a wrong one; on a level in [0,5] the result stays in
    [0,5]; at the ends it saturates: 5 stays 5 when correct, 0 stays 0 when
    wrong. *)
Theorem updateCardConfidence_saturating (currentLevel : Z) (isCorrect : bool) :
  (0 <= currentLevel <= 5)%Z ->
  updateCardConfidence currentLevel true = Z.min 5 (currentLevel + 1) /\
  updateCardConfidence currentLevel false = Z.max 0 (currentLevel - 1) /\
  (0 <= updateCardConfidence currentLevel isCorrect <= 5)%Z /\
  updateCardConfidence 5 true = 5%Z /\
  updateCardConfidence 0 false = 0%Z.
Proof.
  intros Hrange. repeat split; try reflexivity;
    destruct isCorrect; unfold updateCardConfidence; lia.
Qed.

Lemma updateCardConfidence_saturating_witness :
  (0 <= 5 <= 5)%Z /\
  (0 <= updateCardConfidence 5 true <= 5)%Z.
Proof.
  split; [lia |].
  apply (updateCardConfidence_saturating 5 true). lia.
Defined.

(** *** calculateSessionStats *)

(** The loop invariant of the [forEach]: the know and correct counters move
    together. *)
Lemma stats_fold (rs : list SessionResult) (c : Counters) :
  fold_left stats_step rs c =
  {| c_know := c_know c + known_count rs;
     c_learning := c_learning c + unknown_count rs;
     c_correct := c_correct c + known_count rs |}.
Proof.
  revert c. induction rs as [|r rs IH]; intros [k l c]; simpl.
  - unfold known_count, unknown_count. simpl. f_equal; lia.
  - rewrite IH. unfold stats_step, known_count, unknown_count.
    rewrite !filter_cons.
    destruct (counts_as_known r) eqn:Hr; repeat case_decide;
      try (exfalso; naive_solver); simpl; f_equal; lia.
Qed.

Lemma known_unknown_total (rs : list SessionResult) :
  known_count rs + unknown_count rs = length rs.
Proof.
  unfold known_count, unknown_count.
  induction rs as [|r rs IH]; [done|].
  rewrite !filter_cons.
  destruct (counts_as_known r) eqn:Hr; repeat case_decide;
    try (exfalso; naive_solver); simpl; lia.
Qed.

Lemma consistent_of_update (i : nat) (prev : Z) (ok : bool) :
  (prev <= 5)%Z ->
  consistent {| cardIndex := i; wasCorrect := ok; previousConfidence := prev;
                newConfidence := updateCardConfidence prev ok |}.
Proof.
  intros Hp Hw. simpl in *. subst ok. unfold updateCardConfidence. lia.
Qed.

Lemma known_count_consistent (rs : list SessionResult) :
  Forall consistent rs -> known_count rs = spec_correctCount rs.
Proof.
  unfold known_count, spec_correctCount.
  induction 1 as [|r rs Hr _ IH]; [done|].
  assert (Heq : counts_as_known r = wasCorrect r).
  { unfold counts_as_known. destruct (wasCorrect r) eqn:Hw; [done|].
    specialize (Hr Hw). apply Z.eqb_neq in Hr. by rewrite Hr. }
  rewrite !filter_cons.
  repeat case_decide; simpl; rewrite ?IH; try done; rewrite Heq in *; done.
Qed.

Lemma study_session_consistent (answers : list bool) :
  Forall consistent (study_session answers).
Proof.
  apply Forall_lookup. intros i r Hr. unfold study_session in Hr.
  rewrite list_lookup_imap in Hr.
  destruct (answers !! i) as [ok|]; [|done]. injection Hr as <-.
  apply consistent_of_update. lia.
Qed.

Lemma elem_of_upto (n : nat) (start z : Z) :
  (start <= z < start + Z.of_nat n)%Z -> In z (upto n start).
Proof.
  revert start. induction n as [|n IH]; intros start Hz; [lia|].
  cbn [upto]. destruct (decide (z = start)) as [->|Hne]; [by left|].
  right. apply IH. lia.
Qed.

Lemma Math_round_shift_eq (x : float) : Math_round x = Math_round_shift x.
Proof.
  unfold Math_round, Math_round_shift.
  destruct (Prim2SF x) as [| | |s m e]; try done.
  destruct (Z.leb_spec 0 e).
  - by rewrite Z.shiftl_mul_pow2.
  - rewrite Z.shiftr_div_pow2, Z.shiftl_mul_pow2 by lia. by rewrite Z.mul_1_l.
Qed.

Lemma percentage_percentage_Z (correct total : nat) :
  percentage correct total = percentage_Z (Z.of_nat correct) (Z.of_nat total).
Proof. unfold percentage, percentage_Z. apply Math_round_shift_eq. Qed.

Lemma accuracy_agrees_upto_spec (n correct total : nat) :
  accuracy_agrees_upto n = true -> correct <= total -> 1 <= total <= n ->
  accuracy_agrees_Z (Z.of_nat correct) (Z.of_nat total) = true.
Proof.
  intros Hall Hc Ht.
  unfold accuracy_agrees_upto in Hall. rewrite forallb_forall in Hall.
  specialize (Hall (Z.of_nat total) ltac:(apply elem_of_upto; lia)).
  rewrite forallb_forall in Hall.
  apply Hall. apply elem_of_upto. lia.
Qed.

(** The check for every total up to 1000, count by count. *)
Lemma accuracy_agrees_upto_1000 : accuracy_agrees_upto 1000 = true.
Proof. vm_compute. reflexivity. Qed.

(** For up to 1000 results the source's accuracy is the exact rounding,
    except that it may be one less at a tie. *)
Lemma accuracy_agrees_bounded (correct total : nat) :
  correct <= total -> 1 <= total <= 1000 ->
  percentage correct total = round_share correct total \/
  (share_is_tie correct total = true /\
   percentage correct total = (round_share correct total - 1)%Z).
Proof.
  intros Hc Ht.
  pose proof (accuracy_agrees_upto_spec 1000 correct total
                accuracy_agrees_upto_1000 Hc Ht) as Hall.
  unfold accuracy_agrees_Z in Hall. cbv zeta in Hall. rewrite percentage_percentage_Z.
  unfold round_share, share_is_tie.
  apply orb_true_iff in Hall as [H|H].
  - left. by apply Z.eqb_eq.
  - right. apply andb_true_iff in H as [H Htie]. split; [done|]. by apply Z.eqb_eq.
Qed.

(** The exported function counts a wrong answer recorded at level 5 as
    correct: for the single result [wrong_at_five] the accuracy is 100,
    while no result has [wasCorrect]. *)
Example calculateSessionStats_wrong_at_five :
  accuracy (calculateSessionStats [wrong_at_five]) = 100%Z /\
  spec_correctCount [wrong_at_five] = 0 /\
  spec_accuracy [wrong_at_five] = 0%Z.
Proof. vm_compute. done. Qed.

(** C1, as stated, fails on a session the study screen produces: 40 new
    cards, 23 answered right and 17 wrong.  100 × 23 / 40 is 57.5, which
    rounds to 58, also when 100 * 23 / 40 is evaluated in doubles; the
    source divides first, (23 / 40) * 100 is just below 57.5 in doubles, and
    it reports 57. *)
Lemma calculateSessionStats_accuracy_counterexample :
  length session_23_of_40 = 40 /\
  spec_correctCount session_23_of_40 = 23 /\
  know (calculateSessionStats session_23_of_40) = 23 /\
  accuracy (calculateSessionStats session_23_of_40) = 57%Z /\
  spec_accuracy session_23_of_40 = 58%Z /\
  percentage_multiply_first 23 40 = 58%Z /\
  accuracy (calculateSessionStats session_23_of_40) <> spec_accuracy session_23_of_40.
Proof. vm_compute. repeat split; discriminate. Qed.

(** C1, amended: for every list of results, know counts the results with
    [wasCorrect] or [newConfidence = 5], learning counts the rest, and the
    accuracy is Math.round((correct / total) * 100) in doubles, where the
    correct counter is the know counter.  The empty list gives 0, 0, 0.
    When no wrong answer is recorded at level 5, the correct counter is the
    number of results with [wasCorrect]; then, for up to 1000 results, the
    accuracy is round(100 × correctCount / total), or one less than it when
    100 × correctCount / total lies exactly halfway between two integers. *)
Theorem calculateSessionStats_spec (rs : list SessionResult) :
  know (calculateSessionStats rs) = known_count rs /\
  learning (calculateSessionStats rs) = unknown_count rs /\
  know (calculateSessionStats rs) + learning (calculateSessionStats rs) = length rs /\
  accuracy (calculateSessionStats rs) =
    (match rs with [] => 0%Z | _ => percentage (known_count rs) (length rs) end) /\
  (rs = [] -> calculateSessionStats rs = {| know := 0; learning := 0; accuracy := 0 |}) /\
  (Forall consistent rs -> known_count rs = spec_correctCount rs) /\
  (Forall consistent rs -> length rs <= 1000 ->
   accuracy (calculateSessionStats rs) = spec_accuracy rs \/
   (share_is_tie (spec_correctCount rs) (length rs) = true /\
    accuracy (calculateSessionStats rs) = (spec_accuracy rs - 1)%Z)).
Proof.
  assert (Hk : know (calculateSessionStats rs) = known_count rs).
  { destruct rs as [|r rs]; [done|].
    unfold calculateSessionStats. by rewrite stats_fold. }
  assert (Hl : learning (calculateSessionStats rs) = unknown_count rs).
  { destruct rs as [|r rs]; [done|].
    unfold calculateSessionStats. by rewrite stats_fold. }
  assert (Ha : accuracy (calculateSessionStats rs) =
    (match rs with [] => 0%Z | _ => percentage (known_count rs) (length rs) end)).
  { destruct rs as [|r rs]; [done|].
    unfold calculateSessionStats. by rewrite stats_fold. }
  split; [exact Hk|]. split; [exact Hl|].
  split; [rewrite Hk, Hl; apply known_unknown_total|].
  split; [exact Ha|]. split; [by intros ->|].
  split; [apply known_count_consistent|].
  intros Hc Hlen. rewrite Ha. unfold spec_accuracy.
  destruct rs as [|r rs]; [by left|].
  rewrite (known_count_consistent _ Hc).
  apply accuracy_agrees_bounded; [|cbn [length] in *; lia].
  unfold spec_correctCount. apply length_filter.
Qed.

Lemma calculateSessionStats_spec_witness :
  Forall consistent session_23_of_40 /\ length session_23_of_40 <= 1000 /\
  (accuracy (calculateSessionStats session_23_of_40) = spec_accuracy session_23_of_40 \/
   (share_is_tie (spec_correctCount session_23_of_40) (length session_23_of_40) = true /\
    accuracy (calculateSessionStats session_23_of_40) =
      (spec_accuracy session_23_of_40 - 1)%Z)).
Proof.
  assert (Hc : Forall consistent session_23_of_40) by apply study_session_consistent.
  assert (Hlen : length session_23_of_40 <= 1000) by (vm_compute; lia).
  split; [exact Hc|]. split; [exact Hlen|].
  destruct (calculateSessionStats_spec session_23_of_40) as (_ & _ & _ & _ & _ & _ & Htie).
  exact (Htie Hc Hlen).
Defined.

(** ** utils/quizHelpers *)

Example levenshtein_examples :
  levenshteinDistance "kitten" "sitting" = 3 /\
  levenshteinDistance "flaw" "lawn" = 2 /\
  levenshteinDistance "" "abc" = 3 /\
  levenshteinDistance "abc" "" = 3 /\
  levenshteinDistance "same" "same" = 0.
Proof. vm_compute. done. Qed.

Example normalizeString_examples :
  normalizeString "  Hello,   World! " = "hello world" /\
  normalizeString "?!..." = "" /\
  normalizeString "! a" = " a" /\
  normalizeString "It's  A_b" = "its a_b".
Proof. vm_compute. done. Qed.

Example fuzzyMatch_examples :
  fuzzyMatch "cat" "cats" = true /\
  fuzzyMatch "Photosynthesis" "photosynthesys." = true /\
  fuzzyMatch "cat" "dog" = false /\
  fuzzyMatch "" "dog" = false.
Proof. vm_compute. done. Qed.

(** The integer quotient agrees with the floor of the double product for
    every length up to 4000. *)
Lemma maxAllowedDistance_double :
  forallb (fun n => (Z.of_nat (maxAllowedDistance n) =? maxAllowedDistance_float n)%Z)
          (seq 0 4001) = true.
Proof. vm_compute. reflexivity. Qed.

(** *** Strings as lists of code units *)

Lemma length_chars (s : string) : length (chars s) = String.length s.
Proof. induction s as [|c s IH]; simpl; [done | by rewrite IH]. Qed.

Lemma chars_str (l : list ascii) : chars (str l) = l.
Proof. apply list_ascii_of_string_of_list_ascii. Qed.

Lemma str_chars (s : string) : str (chars s) = s.
Proof. apply string_of_list_ascii_of_string. Qed.

Lemma chars_empty (s : string) : chars s = [] -> s = "".
Proof. by destruct s. Qed.

Lemma falsy_empty (s : string) : falsy s = true <-> s = "".
Proof. by destruct s. Qed.

Lemma starts_with_refl (l : list ascii) : starts_with l l = true.
Proof. induction l as [|c l IH]; simpl; [done|]. by rewrite decide_True. Qed.

Lemma includes_empty (s : string) : includes s "" = true.
Proof. unfold includes. by destruct (chars s). Qed.

Lemma includes_refl (s : string) : includes s s = true.
Proof.
  unfold includes. destruct (chars s) as [|c l] eqn:E; [done|].
  simpl. rewrite decide_True by done. by rewrite starts_with_refl.
Qed.

(** *** The initial matrix of levenshteinDistance *)

Lemma array_set_end {A} (a : list A) (v hole : A) :
  array_set a (length a) v hole = a ++ [v].
Proof. unfold array_set. by rewrite Nat.ltb_irrefl, Nat.sub_diag. Qed.

Lemma init_rows_fold (n a : nat) (m : list (list nat)) :
  a = length m ->
  fold_left (fun m i => array_set m i [i] []) (seq a n) m =
  m ++ map (fun i => [i]) (seq a n).
Proof.
  revert a m. induction n as [|n IH]; intros a m Ha; simpl.
  - by rewrite app_nil_r.
  - subst a. rewrite array_set_end.
    rewrite IH by (rewrite length_app; simpl; lia).
    by rewrite <- app_assoc.
Qed.

Lemma set_cell_head_end (row : list nat) (rest : list (list nat)) (v : nat) :
  set_cell (row :: rest) 0 (length row) v = (row ++ [v]) :: rest.
Proof. unfold set_cell. simpl. by rewrite array_set_end. Qed.

Lemma init_cols_fold (n a : nat) (row : list nat) (rest : list (list nat)) :
  a = length row ->
  fold_left (fun m j => set_cell m 0 j j) (seq a n) (row :: rest) =
  (row ++ seq a n) :: rest.
Proof.
  revert a row. induction n as [|n IH]; intros a row Ha; simpl.
  - by rewrite app_nil_r.
  - subst a. rewrite set_cell_head_end.
    rewrite IH by (rewrite length_app; simpl; lia).
    by rewrite <- app_assoc.
Qed.

Lemma levenshtein_init_shape (len1 len2 : nat) :
  levenshtein_init len1 len2 =
  seq 0 (S len1) :: map (fun i => [i]) (seq 1 len2).
Proof.
  unfold levenshtein_init.
  rewrite (init_rows_fold (S len2) 0 []) by done.
  cbn [seq map app fold_left].
  change (set_cell ([0] :: map (fun i => [i]) (seq 1 len2)) 0 0 0)
    with ([0] :: map (fun i => [i]) (seq 1 len2)).
  apply (init_cols_fold len1 1 [0]). done.
Qed.

Lemma levenshtein_empty_l (s : string) : levenshteinDistance "" s = String.length s.
Proof.
  unfold levenshteinDistance, levenshtein_matrix. simpl.
  rewrite length_chars.
  assert (Hfold : forall (l : list nat) (m : list (list nat)),
             fold_left (fun m0 (_ : nat) => m0) l m = m).
  { induction l; simpl; auto. }
  rewrite Hfold, levenshtein_init_shape.
  change (seq 0 1 :: map (fun i => [i]) (seq 1 (String.length s)))
    with (map (fun i => [i]) (seq 0 (S (String.length s)))).
  unfold cell. rewrite list_lookup_fmap.
  rewrite lookup_seq_lt by lia. done.
Qed.

Lemma levenshtein_empty_r (s : string) : levenshteinDistance s "" = String.length s.
Proof.
  unfold levenshteinDistance, levenshtein_matrix. simpl.
  rewrite length_chars, levenshtein_init_shape.
  unfold cell. cbn [map seq lookup list_lookup mbind option_bind].
  change (0 :: seq 1 (String.length s)) with (seq 0 (S (String.length s))).
  rewrite lookup_seq_lt by lia. done.
Qed.

Lemma normalizeString_empty : normalizeString "" = "".
Proof. reflexivity. Qed.

(** *** fuzzyMatch *)

(** Past the guard, the equality test and the containment test, the answer
    is the comparison of the distance with max(2, floor(maxLen / 10)). *)
Lemma fuzzyMatch_distance (u c : string) :
  u <> "" -> c <> "" ->
  includes (normalizeString u) (normalizeString c) = false ->
  includes (normalizeString c) (normalizeString u) = false ->
  fuzzyMatch u c =
  (levenshteinDistance (normalizeString u) (normalizeString c) <=?
     Nat.max 2 (Nat.max (String.length (normalizeString u))
                        (String.length (normalizeString c)) / 10)).
Proof.
  intros Hu Hc Huc Hcu. unfold fuzzyMatch.
  destruct u; [done|]. destruct c; [done|]. cbn [falsy orb].
  destruct (String.eqb_spec (normalizeString (String a u)) (normalizeString (String a0 c)))
    as [E|_].
  - rewrite E, includes_refl in Huc. done.
  - by rewrite Huc, Hcu.
Qed.

(** C5, as stated, fails in its second half: the two normalized answers
    are 30 and 24 long and 6 = floor(30/10) + 3 edits apart, yet
    [fuzzyMatch] accepts, because one contains the other. *)
Lemma fuzzyMatch_far_but_contained :
  String.length (normalizeString extended_answer) = 30 /\
  levenshteinDistance (normalizeString extended_answer) (normalizeString expected_answer)
    = 30 / 10 + 3 /\
  fuzzyMatch extended_answer expected_answer = true.
Proof. vm_compute. done. Qed.

(** C5, amended: the allowed distance is max(2, floor(maxLen / 10)) with
    maxLen the longer normalized length.  When the normalized answers are
    exactly floor(maxLen / 10) edits apart and maxLen >= 20, [fuzzyMatch]
    is true.  When they are floor(maxLen / 10) + 3 edits apart and neither
    normalized answer contains the other, [fuzzyMatch] is false. *)
Theorem fuzzyMatch_threshold (u c : string) :
  let nu := normalizeString u in
  let nc := normalizeString c in
  let maxLen := Nat.max (String.length nu) (String.length nc) in
  (20 <= maxLen -> levenshteinDistance nu nc = maxLen / 10 ->
   fuzzyMatch u c = true) /\
  (levenshteinDistance nu nc = maxLen / 10 + 3 ->
   includes nu nc = false -> includes nc nu = false ->
   fuzzyMatch u c = false) /\
  (u <> "" -> c <> "" -> includes nu nc = false -> includes nc nu = false ->
   fuzzyMatch u c = (levenshteinDistance nu nc <=? Nat.max 2 (maxLen / 10))).
Proof.
  intros nu nc maxLen. split; [|split].
  - intros Hlong Hd.
    destruct (decide (u = "")) as [->|Hu].
    { exfalso. subst nu maxLen. rewrite normalizeString_empty in *.
      rewrite levenshtein_empty_l in Hd.
      change (String.length "") with 0 in *. rewrite Nat.max_0_l in *.
      pose proof (Nat.div_lt (String.length nc) 10). lia. }
    destruct (decide (c = "")) as [->|Hc].
    { exfalso. subst nc maxLen. rewrite normalizeString_empty in *.
      rewrite levenshtein_empty_r in Hd.
      change (String.length "") with 0 in *. rewrite Nat.max_0_r in *.
      pose proof (Nat.div_lt (String.length nu) 10). lia. }
    unfold fuzzyMatch. fold nu nc.
    destruct u; [done|]. destruct c; [done|]. cbn [falsy orb].
    destruct (String.eqb nu nc); [done|].
    destruct (includes nu nc || includes nc nu); [done|].
    cbv zeta. fold maxLen. unfold maxAllowedDistance. apply Nat.leb_le. lia.
  - intros Hd Huc Hcu.
    destruct (decide (u = "")) as [->|Hu]; [done|].
    destruct (decide (c = "")) as [->|Hc]; [by destruct u|].
    rewrite fuzzyMatch_distance by done.
    fold nu nc maxLen. apply Nat.leb_gt. lia.
  - intros. by apply fuzzyMatch_distance.
Qed.

Lemma fuzzyMatch_threshold_witness :
  20 <= Nat.max (String.length (normalizeString typed_answer))
                (String.length (normalizeString close_answer)) /\
  fuzzyMatch typed_answer close_answer = true /\
  fuzzyMatch typed_answer distant_answer = false.
Proof.
  split; [vm_compute; lia |]. split.
  - destruct (fuzzyMatch_threshold typed_answer close_answer) as (H & _ & _).
    apply H; vm_compute; [lia | reflexivity].
  - destruct (fuzzyMatch_threshold typed_answer distant_answer) as (_ & H & _).
    apply H; vm_compute; reflexivity.
Defined.

(** C9: an answer that is not empty but normalizes to the empty string (only
    punctuation, say) matches every non-empty correct answer: the guard looks
    at the raw strings, and the empty string is contained in every string. *)
Theorem fuzzyMatch_empty_normalization (userAnswer correctAnswer : string) :
  userAnswer <> "" -> correctAnswer <> "" ->
  normalizeString userAnswer = "" ->
  fuzzyMatch userAnswer correctAnswer = true.
Proof.
  intros Hu Hc Hn. unfold fuzzyMatch. rewrite Hn.
  destruct userAnswer; [done|]. destruct correctAnswer as [|a0 c]; [done|].
  cbn [falsy orb].
  destruct (String.eqb "" (normalizeString (String a0 c))); [done|].
  by rewrite includes_empty, orb_true_r.
Qed.

Lemma fuzzyMatch_empty_normalization_witness :
  punctuation_answer <> "" /\ "Paris" <> "" /\
  normalizeString punctuation_answer = "" /\
  fuzzyMatch punctuation_answer "Paris" = true.
Proof.
  split; [discriminate|]. split; [discriminate|]. split; [reflexivity|].
  apply (fuzzyMatch_empty_normalization punctuation_answer "Paris");
    [discriminate | discriminate | reflexivity].
Defined.

(** ** utils/quizHelpers: further properties *)

(** Answers with the same normal form match: [fuzzyMatch] does not see
    letter case, punctuation, or the amount of white space. *)
Theorem fuzzyMatch_same_normal_form (a b : string) :
  a <> "" -> b <> "" -> normalizeString a = normalizeString b ->
  fuzzyMatch a b = true.
Proof.
  intros Ha Hb Hn. unfold fuzzyMatch. destruct a; [done|]. destruct b; [done|].
  cbn [falsy orb]. rewrite Hn. by rewrite String.eqb_refl.
Qed.

Lemma fuzzyMatch_same_normal_form_witness :
  "Hello,   World!" <> "" /\ " hello world" <> "" /\
  fuzzyMatch "Hello,   World!" " hello world" = true.
Proof.
  split; [discriminate|]. split; [discriminate|].
  apply fuzzyMatch_same_normal_form; [discriminate | discriminate | reflexivity].
Defined.

Lemma insert_sorted_perm (x : string) (l : list string) :
  insert_sorted x l ≡ₚ x :: l.
Proof.
  induction l as [|y l IH]; simpl; [done|].
  destruct (String.leb x y); [done|]. rewrite IH. apply Permutation_swap.
Qed.

Lemma sort_strings_perm (l : list string) : sort_strings l ≡ₚ l.
Proof.
  induction l as [|x l IH]; [done|]. cbn [sort_strings foldr].
  rewrite insert_sorted_perm. by f_equiv.
Qed.

Lemma leb_le (x y : string) : String.leb x y = true <-> String.le x y.
Proof. unfold String.le. by destruct (String.leb x y). Qed.

Lemma insert_sorted_sorted (x : string) (l : list string) :
  Sorted String.le l -> Sorted String.le (insert_sorted x l).
Proof.
  induction 1 as [|y l Hl IH Hhd]; simpl.
  - by repeat constructor.
  - destruct (String.leb x y) eqn:E.
    + constructor; [by constructor|]. constructor. by apply leb_le.
    + constructor; [exact IH|].
      assert (Hyx : String.le y x).
      { destruct (total String.le x y) as [H|H]; [|done].
        apply leb_le in H. congruence. }
      destruct Hhd as [|z l Hyz]; simpl.
      * by constructor.
      * destruct (String.leb x z); by constructor.
Qed.

Lemma sort_strings_sorted (l : list string) : Sorted String.le (sort_strings l).
Proof.
  induction l as [|x l IH]; [constructor|]. by apply insert_sorted_sorted.
Qed.

Lemma pairwise_eqb (l1 l2 : list string) :
  length l1 = length l2 ->
  forallb (fun p => String.eqb p.1 p.2) (zip l1 l2) = true <-> l1 = l2.
Proof.
  revert l2. induction l1 as [|x l1 IH]; intros [|y l2] Hlen; try done.
  simpl. rewrite andb_true_iff, String.eqb_eq, IH by (simpl in Hlen; lia).
  split; [by intros [-> ->] | by intros [= -> ->]].
Qed.

(** [arrayMatch] compares as multisets. *)
Lemma arrayMatch_perm (arr1 arr2 : list string) :
  arrayMatch arr1 arr2 = true <-> arr1 ≡ₚ arr2.
Proof.
  unfold arrayMatch. destruct (decide (length arr1 = length arr2)) as [Hlen|Hlen].
  - rewrite (proj2 (Nat.eqb_eq _ _) Hlen). cbn [negb].
    rewrite pairwise_eqb
      by (by rewrite (Permutation_length (sort_strings_perm arr1)),
                     (Permutation_length (sort_strings_perm arr2))).
    split.
    + intros Heq. rewrite <- (sort_strings_perm arr1), Heq. apply sort_strings_perm.
    + intros Hperm. apply (Sorted_unique String.le); try apply sort_strings_sorted.
      by rewrite !sort_strings_perm.
  - rewrite (proj2 (Nat.eqb_neq _ _) Hlen). cbn [negb]. split; [done|].
    intros Hperm. by apply Permutation_length in Hperm.
Qed.

(** A multiple-selection answer is right exactly when it lists the correct
    options, each as often as the key does, in any order; an answer of the
    wrong kind is wrong, and so is every answer to a question of an unknown
    type. *)
Theorem checkAnswer_selection (userAnswer correctAnswer : AnswerValue)
    (questionType : string) :
  (forall u c, checkAnswer (ListAnswer u) (ListAnswer c) "multiple-selection" = true
               <-> u ≡ₚ c) /\
  (forall u, checkAnswer (TextAnswer u) correctAnswer "multiple-selection" = false) /\
  (forall u, checkAnswer (ListAnswer u) correctAnswer "fill-in-the-blank" = false) /\
  (forall u c, checkAnswer (TextAnswer u) (TextAnswer c) "multiple-choice" = true
               <-> u = c) /\
  (questionType ∉ validTypes ->
   checkAnswer userAnswer correctAnswer questionType = false).
Proof.
  split; [|split; [|split; [|split]]].
  - intros u c. cbn. apply arrayMatch_perm.
  - done.
  - done.
  - intros u c. cbn. apply String.eqb_eq.
  - intros Hno. unfold checkAnswer.
    destruct (String.eqb_spec questionType "multiple-choice") as [->|_].
    { exfalso. apply Hno. unfold validTypes. set_solver. }
    destruct (String.eqb_spec questionType "multiple-selection") as [->|_].
    { exfalso. apply Hno. unfold validTypes. set_solver. }
    destruct (String.eqb_spec questionType "fill-in-the-blank") as [->|_]; [|done].
    exfalso. apply Hno. unfold validTypes. set_solver.
Qed.

Lemma checkAnswer_selection_witness :
  ("essay" ∉ validTypes) /\
  checkAnswer (TextAnswer "x") (TextAnswer "x") "essay" = false /\
  checkAnswer (ListAnswer ["b"; "a"]) (ListAnswer ["a"; "b"]) "multiple-selection" = true.
Proof.
  assert (H : "essay" ∉ validTypes).
  { unfold validTypes. rewrite !not_elem_of_cons.
    repeat split; (discriminate || apply not_elem_of_nil). }
  split; [exact H|]. split.
  - by apply (checkAnswer_selection (TextAnswer "x") (TextAnswer "x") "essay").
  - reflexivity.
Defined.

(** ** levenshteinDistance computes the recurrence *)

Section EditDistance.
Variables str1 str2 : list ascii.

Lemma edit_0_l (j : nat) : edit str1 str2 0 j = j.
Proof. done. Qed.

Lemma edit_0_r (i : nat) : edit str1 str2 i 0 = i.
Proof. by destruct i. Qed.

Lemma edit_S_S (i j : nat) :
  edit str1 str2 (S i) (S j) =
  if decide (charAt str2 i = charAt str1 j)
  then edit str1 str2 i j
  else Nat.min (edit str1 str2 i j + 1)
         (Nat.min (edit str1 str2 (S i) j + 1) (edit str1 str2 i (S j) + 1)).
Proof. done. Qed.

Lemma matrix_at_init :
  levenshtein_init (length str1) (length str2) = matrix_at str1 str2 0 (S (length str1)).
Proof.
  rewrite levenshtein_init_shape. unfold matrix_at.
  rewrite Nat.sub_0_r. cbn [seq map app]. f_equal.
  change (edit str1 str2 0 0 :: map (edit str1 str2 0) (seq 1 (length str1)))
    with (map (edit str1 str2 0) (seq 0 (S (length str1)))).
  exact (eq_sym (List.map_id (seq 0 (S (length str1))))).
Qed.

Lemma matrix_at_next_row (i : nat) :
  i < length str2 ->
  matrix_at str1 str2 i (S (length str1)) = matrix_at str1 str2 (S i) 1.
Proof.
  intros Hi. unfold matrix_at.
  replace (length str2 - i) with (S (length str2 - S i)) by lia.
  rewrite (seq_S i 0), map_app, <- app_assoc. cbn [seq map app plus].
  by rewrite edit_0_r.
Qed.

Lemma matrix_at_prefix_length (i : nat) :
  length (map (fun r => map (edit str1 str2 r) (seq 0 (S (length str1)))) (seq 0 i)) = i.
Proof. by rewrite length_map, length_seq. Qed.

(** Reading a complete row. *)
Lemma cell_done_row (i j r c : nat) :
  r < i -> c <= length str1 ->
  cell (matrix_at str1 str2 i j) r c = edit str1 str2 r c.
Proof.
  intros Hr Hc. unfold cell, matrix_at.
  rewrite lookup_app_l by (rewrite matrix_at_prefix_length; lia).
  rewrite list_lookup_fmap, lookup_seq_lt by lia. cbn [fmap option_fmap option_map mbind option_bind].
  rewrite list_lookup_fmap, lookup_seq_lt by lia. done.
Qed.

(** Reading the row in progress. *)
Lemma cell_current_row (i j c : nat) :
  c < j -> cell (matrix_at str1 str2 i j) i c = edit str1 str2 i c.
Proof.
  intros Hc. unfold cell, matrix_at.
  rewrite lookup_app_r by (rewrite matrix_at_prefix_length; lia).
  rewrite matrix_at_prefix_length, Nat.sub_diag.
  cbn [lookup list_lookup mbind option_bind].
  rewrite list_lookup_fmap, lookup_seq_lt by lia. done.
Qed.

(** Writing the next cell of the row in progress. *)
Lemma set_cell_current_row (i j : nat) :
  set_cell (matrix_at str1 str2 i j) i j (edit str1 str2 i j) =
  matrix_at str1 str2 i (S j).
Proof.
  unfold set_cell, matrix_at.
  rewrite lookup_app_r by (rewrite matrix_at_prefix_length; lia).
  rewrite matrix_at_prefix_length, Nat.sub_diag. cbn [lookup list_lookup].
  rewrite insert_app_r_alt by (rewrite matrix_at_prefix_length; lia).
  rewrite matrix_at_prefix_length, Nat.sub_diag. cbn [insert list_insert].
  do 2 f_equal.
  replace j with (length (map (edit str1 str2 i) (seq 0 j))) at 2
    by (by rewrite length_map, length_seq).
  rewrite array_set_end. by rewrite (seq_S j 0), map_app.
Qed.

(** One round of the inner loop. *)
Lemma levenshtein_cell_step (i j : nat) :
  levenshtein_cell str1 str2 (S i) (matrix_at str1 str2 (S i) (S j)) (S j) =
  matrix_at str1 str2 (S i) (S (S j)) \/ length str1 <= j.
Proof.
  destruct (decide (length str1 <= j)) as [|Hj]; [by right|]. left.
  unfold levenshtein_cell. cbn [Nat.sub]. rewrite !Nat.sub_0_r.
  rewrite (cell_done_row (S i) (S j) i j) by lia.
  rewrite (cell_done_row (S i) (S j) i (S j)) by lia.
  rewrite (cell_current_row (S i) (S j) j) by lia.
  etrans; [|apply (set_cell_current_row (S i) (S j))].
  rewrite (edit_S_S i j).
  by destruct (decide (charAt str2 i = charAt str1 j)).
Qed.

(** The inner loop completes the row. *)
Lemma levenshtein_inner_loop (i n j : nat) :
  j + n = length str1 ->
  fold_left (levenshtein_cell str1 str2 (S i)) (seq (S j) n)
    (matrix_at str1 str2 (S i) (S j)) =
  matrix_at str1 str2 (S i) (S (length str1)).
Proof.
  revert j. induction n as [|n IH]; intros j Hj.
  - cbn [seq fold_left]. by replace j with (length str1) by lia.
  - cbn [seq fold_left].
    destruct (levenshtein_cell_step i j) as [-> | Hle]; [|lia].
    apply IH. lia.
Qed.

(** The outer loop completes the matrix. *)
Lemma levenshtein_outer_loop (n i : nat) :
  i + n = length str2 ->
  fold_left
    (fun m r => fold_left (levenshtein_cell str1 str2 r) (seq 1 (length str1)) m)
    (seq (S i) n) (matrix_at str1 str2 i (S (length str1))) =
  matrix_at str1 str2 (length str2) (S (length str1)).
Proof.
  revert i. induction n as [|n IH]; intros i Hi.
  - cbn [seq fold_left]. by replace i with (length str2) by lia.
  - cbn [seq fold_left]. rewrite matrix_at_next_row by lia.
    rewrite (levenshtein_inner_loop i (length str1) 0) by lia.
    apply IH. lia.
Qed.

Lemma levenshtein_matrix_final :
  levenshtein_matrix str1 str2 =
  matrix_at str1 str2 (length str2) (S (length str1)).
Proof.
  unfold levenshtein_matrix. rewrite matrix_at_init.
  apply (levenshtein_outer_loop (length str2) 0). lia.
Qed.

End EditDistance.

(** The value the loops leave in the last cell is the value of the
    recurrence. *)
Lemma levenshteinDistance_edit (s1 s2 : string) :
  levenshteinDistance s1 s2 =
  edit (chars s1) (chars s2) (String.length s2) (String.length s1).
Proof.
  unfold levenshteinDistance. rewrite levenshtein_matrix_final.
  rewrite <- !length_chars.
  apply cell_current_row. lia.
Qed.

(** *** Properties of the recurrence *)

Lemma edit_same (s : list ascii) (n : nat) : edit s s n n = 0.
Proof.
  induction n as [|n IH]; [done|]. rewrite edit_S_S. by rewrite decide_True.
Qed.

Lemma edit_sym (s1 s2 : list ascii) (i j : nat) :
  edit s1 s2 i j = edit s2 s1 j i.
Proof.
  revert j. induction i as [|i IHi]; intros j.
  - by rewrite edit_0_l, edit_0_r.
  - induction j as [|j IHj].
    + by rewrite edit_0_l, edit_0_r.
    + rewrite !edit_S_S, IHj, !IHi.
      destruct (decide (charAt s2 i = charAt s1 j)) as [E|E].
      * by rewrite decide_True.
      * rewrite decide_False by congruence. lia.
Qed.

Lemma edit_bounds (s1 s2 : list ascii) (i j : nat) :
  edit s1 s2 i j <= Nat.max i j /\ i <= j + edit s1 s2 i j /\ j <= i + edit s1 s2 i j.
Proof.
  revert j. induction i as [|i IHi]; intros j.
  - rewrite edit_0_l. lia.
  - induction j as [|j IHj].
    + rewrite edit_0_r. lia.
    + rewrite edit_S_S.
      pose proof (IHi j). pose proof (IHi (S j)).
      destruct (decide (charAt s2 i = charAt s1 j)); lia.
Qed.

(** A distance of zero means equal prefixes. *)
Lemma edit_zero (s1 s2 : list ascii) (i j : nat) :
  i <= length s2 -> j <= length s1 -> edit s1 s2 i j = 0 ->
  i = j /\ take i s2 = take j s1.
Proof.
  revert j. induction i as [|i IHi]; intros j Hi Hj.
  - rewrite edit_0_l. intros ->. done.
  - destruct j as [|j]; [by rewrite edit_0_r|].
    rewrite edit_S_S. destruct (decide (charAt s2 i = charAt s1 j)) as [E|E]; [|lia].
    intros H0. destruct (IHi j) as [-> Htake]; [lia | lia | done |].
    split; [done|]. unfold charAt in E.
    destruct (lookup_lt_is_Some_2 s2 j) as [a Ha]; [lia|].
    rewrite Ha in E. symmetry in E.
    rewrite (take_S_r _ _ _ Ha), (take_S_r _ _ _ E). by rewrite Htake.
Qed.

(** The recurrence looks at the prefixes only. *)
Lemma edit_prefix (s1 s2 t1 t2 : list ascii) (i j : nat) :
  (forall k, k < i -> s2 !! k = t2 !! k) ->
  (forall k, k < j -> s1 !! k = t1 !! k) ->
  edit s1 s2 i j = edit t1 t2 i j.
Proof.
  revert j. induction i as [|i IHi]; intros j H2 H1; [done|].
  induction j as [|j IHj]; [done|].
  rewrite !edit_S_S. unfold charAt.
  rewrite (H2 i) by lia. rewrite (H1 j) by lia.
  rewrite IHj by (intros; apply H1; lia).
  rewrite (IHi j) by (intros; (apply H2 || apply H1); lia).
  rewrite (IHi (S j)) by (intros; (apply H2 || apply H1); lia).
  done.
Qed.

Lemma chars_app (s t : string) : chars (s +:+ t) = chars s ++ chars t.
Proof.
  induction s as [|c s IH]; [done|].
  change (String c s +:+ t) with (String c (s +:+ t)).
  unfold chars in *. cbn [list_ascii_of_string app]. by rewrite IH.
Qed.

Lemma length_app_string (s t : string) :
  String.length (s +:+ t) = String.length s + String.length t.
Proof. by rewrite <- !length_chars, chars_app, length_app. Qed.

(** The distance by cases on the last characters: to the empty string it is
    the length; for equal last characters it is the distance of the rest;
    otherwise one more than the least of the three shorter problems. *)
Theorem levenshteinDistance_cases (s t : string) (a b : ascii) :
  levenshteinDistance "" t = String.length t /\
  levenshteinDistance s "" = String.length s /\
  levenshteinDistance (s +:+ String a "") (t +:+ String b "") =
  if decide (a = b) then levenshteinDistance s t
  else 1 + Nat.min (levenshteinDistance s t)
             (Nat.min (levenshteinDistance s (t +:+ String b ""))
                      (levenshteinDistance (s +:+ String a "") t)).
Proof.
  split; [apply levenshtein_empty_l|]. split; [apply levenshtein_empty_r|].
  rewrite !levenshteinDistance_edit, !chars_app, !length_app_string.
  cbn [String.length chars list_ascii_of_string]. rewrite !Nat.add_1_r.
  rewrite edit_S_S. unfold charAt. rewrite <- !length_chars.
  rewrite !lookup_app_r by lia. rewrite !Nat.sub_diag. cbn [lookup list_lookup].
  rewrite (edit_prefix (chars s ++ [a]) (chars t ++ [b]) (chars s) (chars t)
             (length (chars t)) (length (chars s)))
    by (intros; by rewrite lookup_app_l).
  rewrite (edit_prefix (chars s ++ [a]) (chars t ++ [b]) (chars s) (chars t ++ [b])
             (S (length (chars t))) (length (chars s)))
    by (done || intros; by rewrite lookup_app_l).
  rewrite (edit_prefix (chars s ++ [a]) (chars t ++ [b]) (chars s ++ [a]) (chars t)
             (length (chars t)) (S (length (chars s))))
    by (done || intros; by rewrite lookup_app_l).
  destruct (decide (a = b)) as [->|Hab].
  - by rewrite decide_True.
  - rewrite decide_False by congruence. lia.
Qed.

(** The distance is zero exactly on equal strings, is symmetric, lies
    between the difference of the lengths and the longer length. *)
Theorem levenshteinDistance_metric (s t : string) :
  (levenshteinDistance s t = 0 <-> s = t) /\
  levenshteinDistance s t = levenshteinDistance t s /\
  levenshteinDistance s t <= Nat.max (String.length s) (String.length t) /\
  String.length s <= String.length t + levenshteinDistance s t /\
  String.length t <= String.length s + levenshteinDistance s t.
Proof.
  rewrite !levenshteinDistance_edit.
  pose proof (edit_bounds (chars s) (chars t) (String.length t) (String.length s)).
  split; [|split; [apply edit_sym | lia]].
  split.
  - intros H0. apply edit_zero in H0 as [Hlen Htake]; rewrite ?length_chars; try lia.
    rewrite <- (str_chars s), <- (str_chars t). f_equal.
    rewrite <- (take_ge (chars s) (String.length s)) by (rewrite length_chars; lia).
    rewrite <- (take_ge (chars t) (String.length t)) by (rewrite length_chars; lia).
    done.
  - intros ->. apply edit_same.
Qed.

(** [fuzzyMatch] does not depend on which answer is the user's. *)
Theorem fuzzyMatch_sym (a b : string) : fuzzyMatch a b = fuzzyMatch b a.
Proof.
  unfold fuzzyMatch. rewrite (orb_comm (falsy a)).
  destruct (falsy b || falsy a); [done|].
  rewrite (String.eqb_sym (normalizeString a)).
  destruct (String.eqb (normalizeString b) (normalizeString a)); [done|].
  rewrite (orb_comm (includes (normalizeString a) (normalizeString b))).
  destruct (includes _ _ || includes _ _); [done|].
  cbv zeta. rewrite (Nat.max_comm (String.length (normalizeString a))).
  rewrite !levenshteinDistance_edit. by rewrite edit_sym.
Qed.

(** Two non-empty answers whose normal forms are at most two edits apart
    match, whatever their length; so any two non-empty answers with normal
    forms of at most two characters match. *)
Theorem fuzzyMatch_two_edits (a b : string) :
  a <> "" -> b <> "" ->
  (levenshteinDistance (normalizeString a) (normalizeString b) <= 2 ->
   fuzzyMatch a b = true) /\
  (String.length (normalizeString a) <= 2 -> String.length (normalizeString b) <= 2 ->
   fuzzyMatch a b = true).
Proof.
  intros Ha Hb.
  assert (Hd : levenshteinDistance (normalizeString a) (normalizeString b) <= 2 ->
               fuzzyMatch a b = true).
  { intros Hle. unfold fuzzyMatch. destruct a; [done|]. destruct b; [done|].
    cbn [falsy orb]. destruct (String.eqb _ _); [done|].
    destruct (includes _ _ || includes _ _); [done|].
    cbv zeta. unfold maxAllowedDistance. apply Nat.leb_le. lia. }
  split; [exact Hd|]. intros Hla Hlb. apply Hd.
  rewrite levenshteinDistance_edit.
  pose proof (edit_bounds (chars (normalizeString a)) (chars (normalizeString b))
                (String.length (normalizeString b)) (String.length (normalizeString a))).
  lia.
Qed.

Lemma fuzzyMatch_two_edits_witness :
  "no" <> "" /\ "ok" <> "" /\ fuzzyMatch "no" "ok" = true.
Proof.
  split; [discriminate|]. split; [discriminate|].
  destruct (fuzzyMatch_two_edits "no" "ok") as [_ H]; [discriminate | discriminate |].
  apply H; vm_compute; lia.
Defined.

(** ** functions/utils/diagramDetector *)

Example wordCount_examples :
  wordCount "" = 0 /\ wordCount "   " = 0 /\
  wordCount "  one two   three " = 3 /\
  wordCount (n_words 10) = 10 /\ wordCount (n_words 80) = 80.
Proof. vm_compute. done. Qed.

Lemma drop_spaces_split (l : list ascii) :
  exists sp, Forall (fun c => is_space c = true) sp /\ l = sp ++ drop_spaces l.
Proof.
  induction l as [|c l (sp & Hsp & IH)]; simpl.
  - by exists [].
  - destruct (is_space c) eqn:Hc.
    + exists (c :: sp). split; [by constructor|]. simpl. by rewrite <- IH.
    + by exists [].
Qed.

Lemma count_words_leading (sp l : list ascii) :
  Forall (fun c => is_space c = true) sp ->
  count_words false (sp ++ l) = count_words false l.
Proof.
  induction 1 as [|c sp Hc Hsp IH]; [done|]. simpl. by rewrite Hc.
Qed.

Lemma count_words_trailing (b : bool) (l sp : list ascii) :
  Forall (fun c => is_space c = true) sp ->
  count_words b (l ++ sp) = count_words b l.
Proof.
  intros Hsp. revert b. induction l as [|c l IH]; intros b; simpl.
  - revert b. induction Hsp as [|c sp Hc _ IHsp]; intros b; simpl; [done|].
    by rewrite Hc.
  - destruct (is_space c); by rewrite IH.
Qed.

(** Trimming removes no word. *)
Lemma count_words_trim (l : list ascii) :
  count_words false (trim_chars l) = count_words false l.
Proof.
  unfold trim_chars.
  destruct (drop_spaces_split l) as (sp1 & Hsp1 & E1).
  destruct (drop_spaces_split (rev (drop_spaces l))) as (sp2 & Hsp2 & E2).
  assert (E3 : drop_spaces l = rev (drop_spaces (rev (drop_spaces l))) ++ rev sp2).
  { rewrite <- rev_app_distr, <- E2. by rewrite rev_involutive. }
  rewrite E1 at 2. rewrite (count_words_leading sp1 _ Hsp1).
  rewrite E3 at 2. symmetry. apply count_words_trailing.
  rewrite Forall_forall in *. intros c Hc. apply Hsp2.
  apply list_elem_of_In. apply list_elem_of_In in Hc. by apply in_rev.
Qed.

Lemma rev_nil_iff {A} (l : list A) : rev l = [] <-> l = [].
Proof.
  split; [|by intros ->]. destruct l as [|a l]; [done|]. simpl. intros H.
  by apply app_eq_nil in H as [_ H].
Qed.

(** The pieces of the split that are not empty are the words. *)
Lemma split_ws_go_count (in_sep : bool) (cur l : list ascii) :
  (in_sep = true -> cur = []) ->
  length (filter (fun p => p <> []) (split_ws_go in_sep cur l)) =
  (if decide (cur = []) then count_words false l else 1 + count_words true l).
Proof.
  revert in_sep cur. induction l as [|c l IH]; intros in_sep cur Hinv.
  - cbn [split_ws_go count_words]. rewrite filter_cons, filter_nil.
    pose proof (rev_nil_iff cur) as Hrev. repeat case_decide; simpl; try done; tauto.
  - cbn [split_ws_go count_words]. destruct (is_space c) eqn:Hc.
    + destruct in_sep.
      * rewrite (Hinv eq_refl). rewrite IH by done. done.
      * rewrite filter_cons. pose proof (rev_nil_iff cur) as Hrev.
        repeat case_decide; simpl; rewrite IH by done; simpl; try done; tauto.
    + rewrite IH by done. rewrite decide_False by done.
      case_decide; done.
Qed.

Lemma filter_nonempty_str (L : list (list ascii)) :
  length (filter (fun word => 0 < String.length word) (map str L)) =
  length (filter (fun p => p <> []) L).
Proof.
  induction L as [|p L IH]; [done|].
  cbn [map]. rewrite !filter_cons.
  destruct p as [|a p]; repeat case_decide; simpl in *; rewrite ?IH; try done; lia.
Qed.

(** The source's count (trim, split, filter) is the number of words. *)
Lemma wordCount_words (text : string) : wordCount text = words_of text.
Proof.
  unfold wordCount, words_of, split_ws, trim.
  rewrite filter_nonempty_str, chars_str.
  rewrite split_ws_go_count by done. simpl.
  apply count_words_trim.
Qed.

(** The five listed types are image MIME types. *)
Lemma listed_image_type_image (fileType : string) :
  listed_image_type fileType -> image_mime_type fileType.
Proof.
  unfold listed_image_type, image_mime_type, imageTypes. intros Hin.
  repeat (apply elem_of_cons in Hin as [->|Hin]; [reflexivity|]).
  by apply elem_of_nil in Hin.
Qed.

(** C7, as stated, fails: image/bmp and image/heic are image MIME types,
    yet with 10 extracted words the classifier returns false for them. *)
Lemma shouldUseDiagramUnderstanding_unlisted_image :
  image_mime_type "image/bmp" /\ image_mime_type "image/heic" /\
  words_of (n_words 10) = 10 /\
  shouldUseDiagramUnderstanding "image/bmp" (n_words 10) = false /\
  shouldUseDiagramUnderstanding "image/heic" (n_words 10) = false.
Proof. vm_compute. done. Qed.

(** C7, amended: [shouldUseDiagramUnderstanding] depends only on its two
    arguments and is true exactly when the file type, in lower case, is one
    of the five listed types (image/jpeg, image/jpg, image/png, image/webp,
    image/gif) and the text has fewer than 50 words; it is false for a PDF,
    for every type that is not an image MIME type and for every image type
    outside the list; a listed image with 10 words gives true, one with 80
    words false. *)
Theorem shouldUseDiagramUnderstanding_iff (fileType extractedText : string) :
  (shouldUseDiagramUnderstanding fileType extractedText = true <->
   listed_image_type fileType /\ words_of extractedText < 50) /\
  (~ listed_image_type fileType ->
   shouldUseDiagramUnderstanding fileType extractedText = false) /\
  shouldUseDiagramUnderstanding "application/pdf" extractedText = false /\
  (listed_image_type fileType -> words_of extractedText = 10 ->
   shouldUseDiagramUnderstanding fileType extractedText = true) /\
  (listed_image_type fileType -> words_of extractedText = 80 ->
   shouldUseDiagramUnderstanding fileType extractedText = false) /\
  (shouldUseDiagramUnderstanding fileType extractedText = true ->
   image_mime_type fileType /\ words_of extractedText < 50) /\
  (~ image_mime_type fileType ->
   shouldUseDiagramUnderstanding fileType extractedText = false).
Proof.
  assert (Hiff : shouldUseDiagramUnderstanding fileType extractedText = true <->
                 listed_image_type fileType /\ words_of extractedText < 50).
  { unfold shouldUseDiagramUnderstanding, array_includes, listed_image_type.
    rewrite wordCount_words. case_bool_decide as Hin.
    - rewrite Nat.ltb_lt. tauto.
    - split; [discriminate | tauto]. }
  split; [exact Hiff|]. split; [|split; [|split; [|split; [|split]]]].
  - intros Hni. apply not_true_is_false. intros E. apply Hiff in E. tauto.
  - done.
  - intros Him Hw. apply Hiff. split; [done | lia].
  - intros Him Hw. apply not_true_is_false. intros E. apply Hiff in E. lia.
  - intros E. apply Hiff in E as [Him Hw]. split; [|done].
    by apply listed_image_type_image.
  - intros Hni. apply not_true_is_false. intros E. apply Hiff in E as [Him _].
    by apply Hni, listed_image_type_image.
Qed.

Lemma shouldUseDiagramUnderstanding_iff_witness :
  listed_image_type "image/PNG" /\ words_of (n_words 10) = 10 /\
  shouldUseDiagramUnderstanding "image/PNG" (n_words 10) = true.
Proof.
  assert (Him : listed_image_type "image/PNG").
  { unfold listed_image_type. vm_compute. set_solver. }
  split; [exact Him|]. split; [reflexivity|].
  destruct (shouldUseDiagramUnderstanding_iff "image/PNG" (n_words 10))
    as (_ & _ & _ & H & _).
  apply H; [exact Him | reflexivity].
Defined.

(** ** functions/utils/pdfSplitter *)

Example decimal_examples :
  decimal 0 = "0" /\ decimal 7 = "7" /\ decimal 10 = "10" /\
  decimal 38 = "38" /\ decimal 1700000000123 = "1700000000123" /\
  chunkFileName "notes" 0 3 1700000000123 = "notes_chunk_1_of_3_1700000000123.pdf".
Proof. vm_compute. done. Qed.

Example basename_examples :
  basename "/tmp/1699_notes.pdf" ".pdf" = "1699_notes" /\
  basename "/tmp/scan.png" ".pdf" = "scan.png" /\
  basename "notes.pdf" ".pdf" = "notes" /\
  basename "/tmp/.pdf" ".pdf" = ".pdf".
Proof. vm_compute. done. Qed.

Example ceil_div_examples :
  ceil_div 38 15 = 3 /\ ceil_div 30 15 = 2 /\ ceil_div 16 15 = 2 /\ ceil_div 31 15 = 3.
Proof. vm_compute. done. Qed.

Section SplitterFacts.
Context {Page : Type}.
Implicit Types (source pages : list Page) (fs : gmap string (File Page)).

Lemma ceil_div_15_bounds (n : nat) :
  n <= 15 * ceil_div n 15 /\ 15 * ceil_div n 15 < n + 15.
Proof.
  unfold ceil_div. change (15 - 1) with 14.
  pose proof (Nat.div_mod_eq (n + 14) 15) as E.
  pose proof (Nat.mod_upper_bound (n + 14) 15). lia.
Qed.

(** Copying a run of page indices that lies inside the document yields that
    run of pages. *)
Lemma copyPages_seq source (start len : nat) :
  start + len <= length source ->
  copyPages source (seq start len) = Some (take len (drop start source)).
Proof.
  unfold copyPages. revert start. induction len as [|len IH]; intros start Hle.
  - done.
  - destruct (lookup_lt_is_Some_2 source start) as [p Hp]; [lia|].
    cbn [seq mapM]. rewrite Hp. simpl. rewrite IH by lia. simpl.
    by rewrite (drop_S _ _ _ Hp).
Qed.

(** The pages the loop copies for chunk [i] are the chunk of the document. *)
Lemma copyPages_chunk source (i : nat) :
  i * 15 <= length source ->
  copyPages source
    (seq (i * 15) (Nat.min (i * 15 + 15) (length source) - i * 15)) =
  Some (chunk_pages source i).
Proof.
  intros Hi. rewrite copyPages_seq by lia. f_equal.
  unfold chunk_pages, MAX_PAGES_PER_CHUNK.
  destruct (decide (i * 15 + 15 <= length source)) as [Hfull|Hlast].
  - by replace (Nat.min (i * 15 + 15) (length source) - i * 15) with 15 by lia.
  - rewrite !take_ge; [done | rewrite length_drop; lia | rewrite length_drop; lia].
Qed.

Lemma split_loop_ok (now : nat -> N) (filePath tempDir : string) source
    (indices : list nat) fs (acc : list string) :
  Forall (fun i => i * 15 <= length source) indices ->
  split_loop now source tempDir (basename filePath ".pdf")
    (ceil_div (length source) MAX_PAGES_PER_CHUNK) indices fs acc =
  (Ok (acc ++ map (chunk_path now filePath tempDir (length source)) indices),
   write_chunks now filePath tempDir source indices fs).
Proof.
  intros Hall. revert fs acc.
  induction Hall as [|i indices Hi _ IH]; intros fs acc.
  - simpl. by rewrite app_nil_r.
  - cbn [split_loop]. cbv zeta. change MAX_PAGES_PER_CHUNK with 15.
    rewrite (copyPages_chunk source i Hi).
    change MAX_PAGES_PER_CHUNK with 15 in IH.
    rewrite IH. cbn [map write_chunks fold_left]. by rewrite <- app_assoc.
Qed.

Lemma chunk_pages_lookup source (i k : nat) :
  chunk_pages source i !! k =
  if decide (k < 15) then source !! (i * 15 + k) else None.
Proof.
  unfold chunk_pages, MAX_PAGES_PER_CHUNK. case_decide.
  - rewrite lookup_take_lt by done. by rewrite lookup_drop.
  - rewrite lookup_take_ge by lia. done.
Qed.

Lemma chunk_pages_length source (i : nat) :
  length (chunk_pages source i) = Nat.min (i * 15 + 15) (length source) - i * 15.
Proof.
  unfold chunk_pages, MAX_PAGES_PER_CHUNK. rewrite length_take, length_drop. lia.
Qed.

Lemma chunks_concat (k : nat) source :
  length source <= 15 * k ->
  concat (map (chunk_pages source) (seq 0 k)) = source.
Proof.
  revert source. induction k as [|k IH]; intros source Hlen.
  - destruct source; [done | simpl in Hlen; lia].
  - rewrite <- cons_seq, <- fmap_S_seq. cbn [map concat].
    change (map (chunk_pages source) (S <$> seq 0 k))
      with (chunk_pages source <$> (S <$> seq 0 k)).
    rewrite <- list_fmap_compose.
    rewrite (list_fmap_ext _ (chunk_pages (drop 15 source)) (seq 0 k)).
    + change (chunk_pages (drop 15 source) <$> seq 0 k)
        with (map (chunk_pages (drop 15 source)) (seq 0 k)).
      rewrite IH by (rewrite length_drop; lia).
      unfold chunk_pages, MAX_PAGES_PER_CHUNK. simpl. apply take_drop.
    + intros _ i _. unfold chunk_pages, MAX_PAGES_PER_CHUNK. cbn [compose].
      rewrite drop_drop. do 2 f_equal; lia.
Qed.

(** C3: a document of N pages that is at most 15 pages long is returned as
    the one-element list of the original path, and nothing is written.  A
    longer one gives ceil(N/15) chunk files, in order; chunk [i] holds the
    pages [15 i, min(15 i + 15, N)) of the original, so it has between 1 and
    15 pages, and the chunks put together are the original pages. *)
Theorem splitPdfIntoChunks_chunks (now : nat -> N) (filePath tempDir : string) fs pages :
  fs !! filePath = Some (PdfFile pages) ->
  let n := length pages in
  let k := ceil_div n 15 in
  (n <= 15 -> splitPdfIntoChunks now filePath tempDir fs = (Ok [filePath], fs)) /\
  (15 < n ->
   splitPdfIntoChunks now filePath tempDir fs =
     (Ok (map (chunk_path now filePath tempDir n) (seq 0 k)),
      write_chunks now filePath tempDir pages (seq 0 k) fs) /\
   length (map (chunk_path now filePath tempDir n) (seq 0 k)) = k) /\
  (forall i, i < k ->
     (forall j, chunk_pages pages i !! j =
                if decide (i * 15 + j < Nat.min (i * 15 + 15) n)
                then pages !! (i * 15 + j) else None) /\
     length (chunk_pages pages i) = Nat.min (i * 15 + 15) n - i * 15 /\
     1 <= length (chunk_pages pages i) <= 15) /\
  concat (map (chunk_pages pages) (seq 0 k)) = pages.
Proof.
  intros Hfile n k. destruct (ceil_div_15_bounds n) as [Hlo Hhi]. fold k in Hlo, Hhi.
  split; [|split; [|split]].
  - intros Hn. unfold splitPdfIntoChunks, load_pdf. rewrite Hfile.
    fold n. by rewrite (proj2 (Nat.leb_le n MAX_PAGES_PER_CHUNK) Hn).
  - intros Hn. split; [|by rewrite length_map, length_seq].
    unfold splitPdfIntoChunks, load_pdf. rewrite Hfile. fold n.
    rewrite (proj2 (Nat.leb_gt n MAX_PAGES_PER_CHUNK)) by (unfold MAX_PAGES_PER_CHUNK; lia).
    cbv zeta. subst n k. rewrite split_loop_ok; [done|].
    change MAX_PAGES_PER_CHUNK with 15.
    apply Forall_forall. intros i Hi. apply elem_of_seq in Hi. lia.
  - intros i Hi. split; [|split].
    + intros j. rewrite chunk_pages_lookup. fold n.
      repeat case_decide; try done; try lia.
      apply lookup_ge_None_2. fold n. lia.
    + apply chunk_pages_length.
    + rewrite chunk_pages_length. fold n. lia.
  - apply chunks_concat. fold n. fold k. lia.
Qed.

End SplitterFacts.

Lemma splitPdfIntoChunks_chunks_witness :
  notes_fs !! notes_path = Some (PdfFile (seq 0 38)) /\
  (splitPdfIntoChunks clock notes_path "/tmp" notes_fs).1 =
  Ok [ "/tmp/1700000000000_notes_chunk_1_of_3_1700000000123.pdf";
       "/tmp/1700000000000_notes_chunk_2_of_3_1700000000124.pdf";
       "/tmp/1700000000000_notes_chunk_3_of_3_1700000000125.pdf" ] /\
  map length (map (chunk_pages (seq 0 38)) (seq 0 3)) = [15; 15; 8].
Proof.
  assert (H : notes_fs !! notes_path = Some (PdfFile (seq 0 38))) by reflexivity.
  split; [exact H|]. split; [|reflexivity].
  destruct (splitPdfIntoChunks_chunks clock notes_path "/tmp" notes_fs (seq 0 38) H)
    as (_ & Hsplit & _).
  destruct Hsplit as [-> _]; [vm_compute; lia|]. reflexivity.
Defined.

(** ** Chunk cleanup and the OCR adapter *)

Section CleanupFacts.
Context {Page : Type}.
Implicit Types (fs : gmap string (File Page)) (log : list LogEntry).

Lemma cleanup_chunk_lookup (u : string -> bool) fs log (q p : string) :
  (cleanup_chunk u (fs, log) q).1 !! p =
  if decide (p = q /\ deletable u q = true) then None else fs !! p.
Proof.
  unfold cleanup_chunk, deletable.
  destruct (includes q "_chunk_") eqn:Hq; destruct (u q) eqn:Hu;
    case_bool_decide as Hex; simpl;
    case_decide as Hd; try done; try (destruct Hd; discriminate);
    try (destruct Hd as [-> _]).
  - by rewrite lookup_delete_eq.
  - rewrite lookup_delete_ne; [done|]. intros ->. by apply Hd.
  - symmetry. destruct (fs !! q) eqn:E; [|done]. exfalso. by apply Hex.
Qed.

(** What chunk cleanup leaves behind: the deletable paths of the list are
    gone, every other path holds what it held. *)
Lemma cleanupPdfChunks_lookup (u : string -> bool) (paths : list string) fs log
    (p : string) :
  (cleanupPdfChunks u paths (fs, log)).1 !! p =
  if decide (p ∈ paths /\ deletable u p = true) then None else fs !! p.
Proof.
  unfold cleanupPdfChunks. revert fs log.
  induction paths as [|q paths IH]; intros fs log.
  - cbn [fold_left fst]. rewrite decide_False; [done|]. intros [H _]. by apply elem_of_nil in H.
  - cbn [fold_left].
    destruct (cleanup_chunk u (fs, log) q) as [fs1 log1] eqn:E.
    rewrite IH.
    pose proof (cleanup_chunk_lookup u fs log q p) as Hq. rewrite E in Hq. simpl in Hq.
    rewrite Hq.
    repeat case_decide; try done; exfalso; set_unfold; intuition congruence.
Qed.

Lemma cleanup_chunk_missing (u : string -> bool) fs log (q : string) :
  fs !! q = None -> cleanup_chunk u (fs, log) q = (fs, log).
Proof.
  intros Hq. unfold cleanup_chunk. rewrite bool_decide_eq_false_2; [done|].
  rewrite Hq. by intros [? ?].
Qed.

Lemma cleanupPdfChunks_missing (u : string -> bool) (paths : list string) fs log :
  Forall (fun p => fs !! p = None) paths ->
  cleanupPdfChunks u paths (fs, log) = (fs, log).
Proof.
  unfold cleanupPdfChunks. induction 1 as [|q paths Hq _ IH]; [done|].
  cbn [fold_left]. by rewrite cleanup_chunk_missing.
Qed.

Lemma chunks_without_spec (filePath : string) (chunks : list string) (p : string) :
  p ∈ chunks_without filePath chunks <-> p ∈ chunks /\ p <> filePath.
Proof. unfold chunks_without. rewrite list_elem_of_filter. tauto. Qed.

Lemma split_loop_keeps (now : nat -> N) (source : list Page) (tempDir base : string)
    (k : nat) (indices : list nat) fs (acc : list string) (p : string) :
  is_Some (fs !! p) ->
  is_Some ((split_loop now source tempDir base k indices fs acc).2 !! p).
Proof.
  revert fs acc. induction indices as [|i indices IH]; intros fs acc Hp; [done|].
  cbn [split_loop]. cbv zeta.
  destruct (copyPages _ _); [|done].
  apply IH. rewrite lookup_insert. case_decide; [by eexists | done].
Qed.

Lemma splitPdfIntoChunks_keeps (now : nat -> N) (filePath tempDir : string) fs
    (p : string) :
  is_Some (fs !! p) ->
  is_Some ((splitPdfIntoChunks now filePath tempDir fs).2 !! p).
Proof.
  intros Hp. unfold splitPdfIntoChunks.
  destruct (load_pdf fs filePath); [|done].
  destruct (_ <=? _); [done|]. by apply split_loop_keeps.
Qed.

Lemma cleanup_without_keeps (u : string -> bool) (filePath : string)
    (chunks : list string) fs log :
  (cleanupPdfChunks u (chunks_without filePath chunks) (fs, log)).1 !! filePath =
  fs !! filePath.
Proof.
  rewrite cleanupPdfChunks_lookup. rewrite decide_False; [done|].
  intros [H _]. apply chunks_without_spec in H. by destruct H.
Qed.

End CleanupFacts.

Section AdapterFacts.
Context {Page : Type}.
Implicit Types (fs : gmap string (File Page)) (log : list LogEntry)
  (env : OcrEnv Page) (w : World Page).

(** The [try] block keeps the source file, and the chunk paths it remembers
    never contain the source path. *)
Lemma extract_try_keeps env (filePath mimeType : string) w :
  is_Some (w.1 !! filePath) ->
  is_Some ((extract_try env filePath mimeType w).1.2.1 !! filePath) /\
  filePath ∉ (extract_try env filePath mimeType w).2.
Proof.
  destruct w as [fs log]. simpl. intros Hsrc. unfold extract_try.
  assert (Hnil : filePath ∉ @nil string) by apply not_elem_of_nil.
  assert (Hwo : forall chunks, filePath ∉ chunks_without filePath chunks).
  { intros chunks H. apply chunks_without_spec in H. by destruct H. }
  pose proof (splitPdfIntoChunks_keeps (now env) filePath "/tmp" fs filePath Hsrc) as Hsplit.
  repeat case_match; simplify_eq/=;
    (split; [by rewrite ?cleanup_without_keeps | done || apply Hwo]).
Qed.

Lemma extract_retry_keeps env (filePath : string) w :
  is_Some (w.1 !! filePath) ->
  is_Some ((extract_retry env filePath w).2.1 !! filePath).
Proof.
  destruct w as [fs log]. simpl. intros Hsrc. unfold extract_retry.
  pose proof (splitPdfIntoChunks_keeps (now env) filePath "/tmp" fs filePath Hsrc) as Hsplit.
  repeat case_match; simplify_eq/=; try done.
  by rewrite cleanup_without_keeps.
Qed.

Lemma cleanup_absent_keeps (u : string -> bool) (paths : list string) w (p : string) :
  p ∉ paths -> (cleanupPdfChunks u paths w).1 !! p = w.1 !! p.
Proof.
  destruct w as [fs log]. intros Hp. rewrite cleanupPdfChunks_lookup.
  rewrite decide_False; [done|]. by intros [H _].
Qed.

(** The adapter never removes the file it is asked to read. *)
Lemma extractTextFromFile_keeps env (filePath mimeType : string) w :
  is_Some (w.1 !! filePath) ->
  is_Some ((extractTextFromFile env filePath mimeType w).2.1 !! filePath).
Proof.
  intros Hsrc. unfold extractTextFromFile.
  destruct (extract_try_keeps env filePath mimeType w Hsrc) as [Hkeep Hnotin].
  destruct (extract_try env filePath mimeType w) as [[r w1] cps]. simpl in Hkeep, Hnotin.
  assert (Hw2 : is_Some ((match cps with
                          | [] => w1
                          | _ => cleanupPdfChunks (unlink_throws env) cps w1
                          end).1 !! filePath)).
  { destruct cps; [done|]. by rewrite cleanup_absent_keeps. }
  destruct (processorId env) as [[|c s]|]; [done | | done].
  destruct r as [text|error]; [done|].
  destruct (is_page_limit_error error); [|done].
  destruct (String.eqb mimeType "application/pdf" && bool_decide (cps = [])).
  - pose proof (extract_retry_keeps env filePath _ Hw2) as Hretry.
    destruct (extract_retry env filePath _) as [[t|] w3]; done.
  - done.
Qed.

End AdapterFacts.

Section ChunkCleanup.
Context {Page : Type}.

(** C10: chunk cleanup removes exactly the listed paths that carry the
    chunk marker and whose deletion succeeds, and leaves every other path as
    it was; listed paths that do not exist are passed over without a log
    line; a failing deletion does not keep later paths from being removed.
    The list the adapter hands over is the chunk list without the source
    path, so the source file is not removed by it, and the adapter as a whole
    never removes the file it reads. *)
Theorem cleanupPdfChunks_frame (u : string -> bool) (paths : list string)
    (fs : gmap string (File Page)) (log : list LogEntry) :
  (forall p,
     (cleanupPdfChunks u paths (fs, log)).1 !! p =
     if decide (p ∈ paths /\ includes p "_chunk_" = true /\ u p = false)
     then None else fs !! p) /\
  (Forall (fun p => fs !! p = None) paths ->
   cleanupPdfChunks u paths (fs, log) = (fs, log)) /\
  (forall p, p ∈ paths -> includes p "_chunk_" = true -> u p = false ->
     (cleanupPdfChunks u paths (fs, log)).1 !! p = None) /\
  (forall filePath chunks,
     (cleanupPdfChunks u (chunks_without filePath chunks) (fs, log)).1 !! filePath =
     fs !! filePath) /\
  (forall (env : OcrEnv Page) filePath mimeType,
     is_Some (fs !! filePath) ->
     is_Some ((extractTextFromFile env filePath mimeType (fs, log)).2.1 !! filePath)).
Proof.
  assert (Hlookup : forall p,
     (cleanupPdfChunks u paths (fs, log)).1 !! p =
     if decide (p ∈ paths /\ includes p "_chunk_" = true /\ u p = false)
     then None else fs !! p).
  { intros p. rewrite cleanupPdfChunks_lookup. unfold deletable.
    repeat case_decide; try done; exfalso;
      destruct (includes p "_chunk_"); destruct (u p); simpl in *; intuition congruence. }
  split; [exact Hlookup|]. split; [apply cleanupPdfChunks_missing|].
  split; [|split].
  - intros p Hin Hmark Hu. rewrite Hlookup. by rewrite decide_True.
  - intros. apply cleanup_without_keeps.
  - intros env filePath mimeType Hsrc.
    by apply (extractTextFromFile_keeps env filePath mimeType (fs, log)).
Qed.

End ChunkCleanup.

Lemma cleanupPdfChunks_frame_witness :
  chunk2_path ∈ cleanup_list /\ includes chunk2_path "_chunk_" = true /\
  first_chunk_locked chunk2_path = false /\
  (cleanupPdfChunks first_chunk_locked cleanup_list (chunked_fs, [])).1 !! chunk2_path = None /\
  cleanupPdfChunks first_chunk_locked cleanup_list (chunked_fs, []) =
  ({[ "/tmp/notes.pdf" := PdfFile (seq 0 20);
      chunk1_path := PdfFile (seq 0 15);
      "/tmp/photo.png" := OtherFile 2048 no_pdf_header ]},
   [ LogError ("Error cleaning up PDF chunk " +:+ chunk1_path +:+ ":");
     LogInfo ("Cleaned up PDF chunk: " +:+ chunk2_path) ]).
Proof.
  assert (Hin : chunk2_path ∈ cleanup_list).
  { unfold cleanup_list. set_solver. }
  split; [exact Hin|]. split; [reflexivity|]. split; [reflexivity|]. split.
  - destruct (cleanupPdfChunks_frame first_chunk_locked cleanup_list chunked_fs [])
      as (_ & _ & H & _).
    apply H; [exact Hin | reflexivity | reflexivity].
  - vm_compute. reflexivity.
Defined.

(** ** Decimal numerals *)

Lemma size_nat_bound (n : N) : (n < 2 ^ N.of_nat (N.size_nat n))%N.
Proof.
  destruct n as [|p]; [done|]. cbn [N.size_nat].
  induction p as [p IH|p IH|]; cbn [Pos.size_nat].
  - rewrite Nat2N.inj_succ, N.pow_succ_r'. lia.
  - rewrite Nat2N.inj_succ, N.pow_succ_r'. lia.
  - done.
Qed.

Lemma digit_is_digit (d : N) : (d < 10)%N -> is_digit (digit d) = true.
Proof.
  intros Hd. assert (Hcases : d ∈ [0; 1; 2; 3; 4; 5; 6; 7; 8; 9]%N).
  { set_unfold. lia. }
  set_unfold. destruct_or?; subst; done.
Qed.

Lemma digit_value (d : N) : (d < 10)%N -> (N_of_ascii (digit d) - 48 = d)%N.
Proof.
  intros Hd. unfold digit. rewrite N_ascii_embedding by lia. lia.
Qed.

Lemma digits_value_snoc (l : list ascii) (c : ascii) :
  digits_value (l ++ [c]) = (digits_value l * 10 + (N_of_ascii c - 48))%N.
Proof. unfold digits_value. by rewrite fold_left_app. Qed.

(** With enough fuel the loop prepends the digits of the number. *)
Lemma decimal_go_digits (fuel : nat) (n : N) (acc : list ascii) :
  (n < 2 ^ N.of_nat (S fuel))%N ->
  exists ds, decimal_go (S fuel) n acc = ds ++ acc /\
             Forall (fun c => is_digit c = true) ds /\ ds <> [] /\
             digits_value ds = n.
Proof.
  revert n acc. induction fuel as [|fuel IH]; intros n acc Hn.
  - cbn [decimal_go]. assert (Hq : (n / 10 = 0)%N).
    { apply N.div_small. change (2 ^ N.of_nat 1)%N with 2%N in Hn. lia. }
    rewrite Hq. cbn. exists [digit (n mod 10)]. split; [done|].
    assert (Hm : (n mod 10 < 10)%N) by (apply N.mod_lt; lia).
    split; [constructor; [by apply digit_is_digit | constructor]|].
    split; [done|]. unfold digits_value. cbn. rewrite digit_value by done.
    rewrite N.mod_small; [done|]. change (2 ^ N.of_nat 1)%N with 2%N in Hn. lia.
  - cbn [decimal_go]. fold (decimal_go (S fuel)).
    assert (Hm : (n mod 10 < 10)%N) by (apply N.mod_lt; lia).
    destruct (N.eqb_spec (n / 10) 0) as [Hq|Hq].
    + exists [digit (n mod 10)]. split; [done|].
      split; [constructor; [by apply digit_is_digit | constructor]|].
      split; [done|]. unfold digits_value. cbn. rewrite digit_value by done.
      pose proof (N.div_mod n 10 ltac:(lia)) as Hdm. rewrite Hq in Hdm. lia.
    + destruct (IH (n / 10)%N (digit (n mod 10) :: acc)) as (ds & Hgo & Hds & Hne & Hval).
      { rewrite Nat2N.inj_succ, N.pow_succ_r' in Hn.
        remember (2 ^ N.of_nat (S fuel))%N as bound eqn:Hbound. clear Hbound IH.
        pose proof (N.div_mod n 10 ltac:(lia)) as Hdm.
        remember (n / 10)%N as q eqn:Eq. remember (n mod 10)%N as r eqn:Er.
        clear Eq Er. lia. }
      exists (ds ++ [digit (n mod 10)]). rewrite <- app_assoc. split; [exact Hgo|].
      split; [apply Forall_app; split; [done | constructor; [by apply digit_is_digit | constructor]]|].
      split; [by destruct ds|].
      rewrite digits_value_snoc, Hval, digit_value by done.
      pose proof (N.div_mod n 10 ltac:(lia)) as Hdm. lia.
Qed.

Lemma decimal_digits (n : N) :
  Forall (fun c => is_digit c = true) (chars (decimal n)) /\
  chars (decimal n) <> [] /\ digits_value (chars (decimal n)) = n.
Proof.
  unfold decimal. rewrite chars_str.
  destruct (decimal_go_digits (N.size_nat n) n []) as (ds & -> & Hds & Hne & Hval).
  - pose proof (size_nat_bound n) as Hb.
    rewrite Nat2N.inj_succ, N.pow_succ_r'.
    remember (2 ^ N.of_nat (N.size_nat n))%N as bound eqn:Hbound. clear Hbound.
    lia.
  - by rewrite app_nil_r.
Qed.

Lemma decimal_inj (n m : N) : decimal n = decimal m -> n = m.
Proof.
  intros H. destruct (decimal_digits n) as (_ & _ & <-).
  destruct (decimal_digits m) as (_ & _ & <-). by rewrite H.
Qed.

(** Two runs of digits that are followed by a character that is not a digit
    and agree as texts are the same run. *)
Lemma digit_runs_agree (ds1 ds2 r1 r2 : list ascii) (c1 c2 : ascii) :
  Forall (fun c => is_digit c = true) ds1 ->
  Forall (fun c => is_digit c = true) ds2 ->
  is_digit c1 = false -> is_digit c2 = false ->
  ds1 ++ c1 :: r1 = ds2 ++ c2 :: r2 -> ds1 = ds2.
Proof.
  intros H1. revert ds2. induction H1 as [|d ds1 Hd _ IH]; intros ds2 H2 Hc1 Hc2 Heq.
  - destruct ds2 as [|d2 ds2]; [done|]. apply Forall_cons in H2 as [Hd2 _].
    simplify_eq/=. congruence.
  - destruct ds2 as [|d2 ds2]; simplify_eq/=; [congruence|].
    apply Forall_cons in H2 as [_ H2]. f_equal. by apply IH.
Qed.

(** *** Chunk paths *)

Lemma chars_inj (s t : string) : chars s = chars t -> s = t.
Proof. intros H. by rewrite <- (str_chars s), <- (str_chars t), H. Qed.

Lemma chars_chunkFileName (base : string) (i k : nat) (t : N) :
  chars (chunkFileName base i k t) = chars base ++ chunk_suffix i k t.
Proof. unfold chunkFileName, chunk_suffix. by rewrite !chars_app. Qed.

Lemma starts_with_app (t l : list ascii) : starts_with t (t ++ l) = true.
Proof. induction t as [|c t IH]; [done|]. simpl. by rewrite decide_True. Qed.

Lemma includes_chars_app (l1 t l2 : list ascii) :
  includes_chars (l1 ++ t ++ l2) t = true.
Proof.
  induction l1 as [|c l1 IH].
  - cbn [app]. destruct (t ++ l2) eqn:E; cbn [includes_chars];
      rewrite <- E, starts_with_app; done.
  - cbn [app includes_chars]. rewrite IH. apply orb_true_r.
Qed.

Lemma digit_not_underscore (c : ascii) : is_digit c = true -> c <> "_"%char.
Proof. intros H ->. done. Qed.

(** Chunks with different indices have different file names. *)
Lemma chunk_suffix_inj (i j k : nat) (t u : N) :
  chunk_suffix i k t = chunk_suffix j k u -> i = j.
Proof.
  unfold chunk_suffix. intros H. apply app_inv_head in H.
  change (chars "_of_") with ("_"%char :: chars "of_") in H.
  rewrite <- !app_comm_cons in H.
  apply digit_runs_agree in H; try done; try apply decimal_digits.
  apply chars_inj, decimal_inj in H. lia.
Qed.

Lemma last_component_after_slash (cur l1 l2 : list ascii) :
  last_component cur (l1 ++ "/"%char :: l2) = last_component [] l2.
Proof.
  revert cur. induction l1 as [|c l1 IH]; intros cur; cbn [app last_component].
  - by rewrite decide_True.
  - destruct (decide (c = "/"%char)); apply IH.
Qed.

Lemma last_component_slash_free (cur l : list ascii) :
  slash_free l -> last_component cur l = rev cur ++ l.
Proof.
  intros Hl. revert cur. induction Hl as [|c l Hc _ IH]; intros cur; cbn [last_component].
  - by rewrite app_nil_r.
  - rewrite decide_False by done. rewrite IH. cbn [rev]. by rewrite <- app_assoc.
Qed.

Lemma last_component_is_slash_free (cur l : list ascii) :
  slash_free cur -> slash_free (last_component cur l).
Proof.
  revert cur. induction l as [|c l IH]; intros cur Hcur; cbn [last_component].
  - unfold slash_free in *. rewrite Forall_forall in *. intros x Hx. apply Hcur.
    apply list_elem_of_In. apply list_elem_of_In in Hx. by apply in_rev.
  - destruct (decide (c = "/"%char)); apply IH; [constructor | by constructor].
Qed.

Lemma basename_slash_free (p ext : string) : slash_free (chars (basename p ext)).
Proof.
  unfold basename.
  pose proof (last_component_is_slash_free [] (chars p) ltac:(constructor)) as Hn.
  destruct (_ && _); rewrite chars_str; [|done].
  unfold slash_free in *. by apply Forall_take.
Qed.

Lemma basename_length (p ext : string) :
  length (last_component [] (chars p)) <= length (chars (basename p ext)) + String.length ext.
Proof.
  unfold basename. destruct (_ && _); rewrite chars_str, ?length_take, <- ?length_chars; lia.
Qed.

Lemma digits_slash_free (l : list ascii) :
  Forall (fun c => is_digit c = true) l -> slash_free l.
Proof.
  unfold slash_free. intros H. eapply Forall_impl; [exact H|]. intros c Hc ->. done.
Qed.

Lemma chunk_suffix_slash_free (i k : nat) (t : N) : slash_free (chunk_suffix i k t).
Proof.
  unfold chunk_suffix, slash_free. rewrite !Forall_app.
  repeat split; try (apply digits_slash_free, decimal_digits);
    repeat constructor; discriminate.
Qed.

Lemma chunk_suffix_length (i k : nat) (t : N) : 7 <= length (chunk_suffix i k t).
Proof. unfold chunk_suffix. rewrite length_app. cbn. lia. Qed.

(** *** path.join before a plain file name *)

Lemma segments_app (cur l1 l2 : list ascii) :
  segments cur (l1 ++ "/"%char :: l2) = segments cur l1 ++ segments [] l2.
Proof.
  revert cur. induction l1 as [|c l1 IH]; intros cur; cbn [app segments].
  - by rewrite decide_True.
  - destruct (decide (c = "/"%char)); by rewrite IH.
Qed.

Lemma segments_slash_free (l : list ascii) : slash_free l -> segments [] l = [l].
Proof.
  intros Hl. assert (G : forall cur, segments cur l = [rev cur ++ l]).
  { induction Hl as [|c l Hc _ IH]; intros cur; cbn [segments].
    - by rewrite app_nil_r.
    - rewrite decide_False by done. rewrite IH. cbn [rev]. by rewrite <- app_assoc. }
  apply (G []).
Qed.

Lemma segments_snoc (cur l1 l2 : list ascii) :
  slash_free l2 ->
  segments cur (l1 ++ "/"%char :: l2) = segments cur l1 ++ [l2].
Proof. intros Hl2. by rewrite segments_app, segments_slash_free. Qed.

Lemma normalize_segment_plain (allow : bool) (kept : list (list ascii)) (n : list ascii) :
  plain_name n -> normalize_segment allow kept n = n :: kept.
Proof.
  intros (Hne & _ & Hdot & Hdots). unfold normalize_segment.
  rewrite decide_False by tauto. by rewrite decide_False.
Qed.

Lemma join_segments_snoc (segs : list (list ascii)) (s : list ascii) :
  join_segments (segs ++ [s]) =
  match segs with
  | [] => []
  | _ => join_segments segs ++ ["/"%char]
  end ++ s.
Proof.
  induction segs as [|a segs IH]; [done|].
  destruct segs as [|b segs]; [cbn; by rewrite <- app_assoc|].
  change (join_segments ((a :: b :: segs) ++ [s]))
    with (a ++ "/"%char :: join_segments ((b :: segs) ++ [s])).
  rewrite IH.
  change (join_segments (a :: b :: segs)) with (a ++ "/"%char :: join_segments (b :: segs)).
  by rewrite <- !app_assoc.
Qed.

Lemma last_app_plain (l n : list ascii) :
  plain_name n -> last (l ++ n) <> Some "/"%char.
Proof.
  intros (Hne & Hfree & _) H.
  destruct n as [|c n] using rev_ind; [done|]. clear IHn.
  rewrite app_assoc, last_snoc in H. injection H as ->.
  unfold slash_free in Hfree. rewrite Forall_app, Forall_singleton in Hfree. tauto.
Qed.

(** In front of a plain file name [path.join] puts a prefix that depends on
    the directory alone. *)
Lemma chars_path_join (dir name : string) :
  plain_name (chars name) ->
  chars (path_join dir name) = join_prefix dir ++ chars name.
Proof.
  intros Hn. pose proof Hn as (Hne & Hfree & _).
  unfold path_join, join_prefix.
  destruct (chars name) as [|c n] eqn:En; [done|].
  destruct (chars dir) as [|first d] eqn:Ed.
  - rewrite chars_str. unfold normalize.
    rewrite segments_slash_free by done. cbn [fold_left].
    rewrite normalize_segment_plain by done. cbn [rev app join_segments].
    assert (Hc : c <> "/"%char).
    { unfold slash_free in Hfree. by apply Forall_cons in Hfree as [? _]. }
    rewrite bool_decide_eq_false_2 by done.
    rewrite bool_decide_eq_false_2 by (apply (last_app_plain [] (c :: n)); done).
    cbn [app]. by rewrite app_nil_r.
  - rewrite chars_str.
    change ((first :: d) ++ "/"%char :: c :: n) with (first :: (d ++ "/"%char :: c :: n)).
    unfold normalize.
    change (first :: (d ++ "/"%char :: c :: n)) with ((first :: d) ++ "/"%char :: c :: n).
    rewrite segments_snoc by done. rewrite fold_left_app. cbn [fold_left].
    rewrite normalize_segment_plain by done. cbn [rev].
    rewrite join_segments_snoc.
    assert (Hlast : last ((first :: d) ++ "/"%char :: c :: n) <> Some "/"%char).
    { change ((first :: d) ++ "/"%char :: c :: n)
        with ((first :: d) ++ ["/"%char] ++ (c :: n)).
      rewrite app_assoc. by apply last_app_plain. }
    rewrite (bool_decide_eq_false_2 _ Hlast).
    set (kept := fold_left _ _ _). destruct (rev kept) as [|s segs].
    + cbn [app]. by rewrite !app_nil_r.
    + set (pre := join_segments (s :: segs) ++ ["/"%char]).
      destruct (pre ++ c :: n) as [|r res] eqn:Eres.
      { by apply app_eq_nil in Eres as [_ ?]. }
      rewrite <- Eres. by rewrite app_nil_r, app_assoc.
Qed.

Lemma join_prefix_shape (dir : string) :
  join_prefix dir = [] \/ exists p, join_prefix dir = p ++ ["/"%char].
Proof.
  unfold join_prefix. destruct (chars dir) as [|first d]; [by left|].
  cbv zeta. set (kept := fold_left _ _ _).
  destruct (rev kept) as [|s segs].
  - rewrite app_nil_r. case_bool_decide; [right; by exists [] | by left].
  - right. eexists. by rewrite app_assoc.
Qed.

Lemma last_component_join_prefix (dir : string) (n : list ascii) :
  slash_free n -> last_component [] (join_prefix dir ++ n) = n.
Proof.
  intros Hn. destruct (join_prefix_shape dir) as [->|[p ->]].
  - cbn [app]. by rewrite last_component_slash_free.
  - rewrite <- app_assoc. cbn [app]. rewrite last_component_after_slash.
    by rewrite last_component_slash_free.
Qed.

Example path_join_examples :
  path_join "/tmp" "notes.pdf" = "/tmp/notes.pdf" /\
  path_join "/tmp/val_dir/" "notes.pdf" = "/tmp/val_dir/notes.pdf" /\
  path_join "/tmp//a/./b/../c" "notes.pdf" = "/tmp/a/c/notes.pdf" /\
  path_join "" "notes.pdf" = "notes.pdf" /\
  path_join "a/.." "notes.pdf" = "notes.pdf" /\
  path_join "../a" "notes.pdf" = "../a/notes.pdf" /\
  path_join "/.." "notes.pdf" = "/notes.pdf" /\
  path_join "/tmp" ".." = "/" /\
  path_join "tmp" "" = "tmp" /\
  path_join "tmp/" "" = "tmp/" /\
  path_join "" "" = ".".
Proof. vm_compute. done. Qed.

(** The file name of a chunk is a plain name. *)
Lemma chunk_name_plain (base : string) (i k : nat) (t : N) :
  slash_free (chars base) -> plain_name (chars (chunkFileName base i k t)).
Proof.
  intros Hbase. rewrite chars_chunkFileName.
  pose proof (chunk_suffix_length i k t) as Hlen.
  assert (Hl : 7 <= length (chars base ++ chunk_suffix i k t))
    by (rewrite length_app; lia).
  split; [|split; [|split]].
  - intros E. rewrite E in Hl. cbn in Hl. lia.
  - apply Forall_app. split; [done | apply chunk_suffix_slash_free].
  - intros E. rewrite E in Hl. cbn in Hl. lia.
  - intros E. rewrite E in Hl. cbn in Hl. lia.
Qed.

Lemma chars_chunk_path (now : nat -> N) (filePath tempDir : string) (n i : nat) :
  chars (chunk_path now filePath tempDir n i) =
  join_prefix tempDir ++ chars (basename filePath ".pdf") ++
  chunk_suffix i (ceil_div n MAX_PAGES_PER_CHUNK) (now i).
Proof.
  unfold chunk_path. rewrite chars_path_join, chars_chunkFileName; [done|].
  apply chunk_name_plain, basename_slash_free.
Qed.

(** Every chunk path carries the chunk marker. *)
Lemma chunk_path_marker (now : nat -> N) (filePath tempDir : string) (n i : nat) :
  includes (chunk_path now filePath tempDir n i) "_chunk_" = true.
Proof.
  unfold includes. rewrite chars_chunk_path. unfold chunk_suffix.
  match goal with
  | |- includes_chars (?d ++ ?b ++ ?m ++ ?r) _ = true =>
      replace (d ++ b ++ m ++ r) with ((d ++ b) ++ m ++ r)
        by (by rewrite <- app_assoc)
  end.
  apply includes_chars_app.
Qed.

Lemma chunk_path_inj (now : nat -> N) (filePath tempDir : string) (n i j : nat) :
  chunk_path now filePath tempDir n i = chunk_path now filePath tempDir n j -> i = j.
Proof.
  intros H. apply (f_equal chars) in H.
  rewrite !chars_chunk_path in H.
  apply app_inv_head in H. apply app_inv_head in H.
  by apply chunk_suffix_inj in H.
Qed.

(** A chunk is never written over the file that is split. *)
Lemma chunk_path_not_source (now : nat -> N) (filePath tempDir : string) (n i : nat) :
  chunk_path now filePath tempDir n i <> filePath.
Proof.
  intros H. pose proof (basename_length filePath ".pdf") as Hlen.
  rewrite <- H in Hlen at 1.
  rewrite chars_chunk_path in Hlen.
  rewrite last_component_join_prefix in Hlen.
  - rewrite length_app in Hlen.
    pose proof (chunk_suffix_length i (ceil_div n MAX_PAGES_PER_CHUNK) (now i)).
    cbn [String.length] in Hlen. lia.
  - apply Forall_app. split; [apply basename_slash_free | apply chunk_suffix_slash_free].
Qed.

Section ChunkFiles.
Context {Page : Type}.
Implicit Types (source : list Page) (fs : gmap string (File Page)).

Lemma write_chunks_snoc (now : nat -> N) (filePath tempDir : string) source
    (indices : list nat) (i : nat) fs :
  write_chunks now filePath tempDir source (indices ++ [i]) fs =
  <[chunk_path now filePath tempDir (length source) i := PdfFile (chunk_pages source i)]>
    (write_chunks now filePath tempDir source indices fs).
Proof. unfold write_chunks. by rewrite fold_left_app. Qed.

(** A path that is no chunk path holds what it held. *)
Lemma write_chunks_other (now : nat -> N) (filePath tempDir : string) source
    (indices : list nat) fs (p : string) :
  (forall i, i ∈ indices -> chunk_path now filePath tempDir (length source) i <> p) ->
  write_chunks now filePath tempDir source indices fs !! p = fs !! p.
Proof.
  induction indices as [|i indices IH] using rev_ind; intros Hp; [done|].
  rewrite write_chunks_snoc, lookup_insert_ne by (apply Hp; set_solver).
  apply IH. intros j Hj. apply Hp. set_solver.
Qed.

(** The path of a chunk holds the pages of that chunk. *)
Lemma write_chunks_chunk (now : nat -> N) (filePath tempDir : string) source
    (indices : list nat) fs (i : nat) :
  i ∈ indices ->
  write_chunks now filePath tempDir source indices fs
    !! chunk_path now filePath tempDir (length source) i =
  Some (PdfFile (chunk_pages source i)).
Proof.
  induction indices as [|j indices IH] using rev_ind; intros Hi.
  - by apply elem_of_nil in Hi.
  - rewrite write_chunks_snoc.
    destruct (decide (j = i)) as [->|Hne]; [by rewrite lookup_insert_eq|].
    rewrite lookup_insert_ne by (intros E; by apply chunk_path_inj in E).
    apply IH. set_unfold. destruct Hi as [Hi|[Hi|[]]]; [exact Hi | by destruct Hne].
Qed.

End ChunkFiles.

Section SplitFiles.
Context {Page : Type}.
Implicit Types (pages : list Page) (fs : gmap string (File Page)).

(** The outcome of splitting a PDF of more than 15 pages. *)
Lemma splitPdfIntoChunks_large (now : nat -> N) (filePath tempDir : string) fs pages :
  fs !! filePath = Some (PdfFile pages) -> 15 < length pages ->
  splitPdfIntoChunks now filePath tempDir fs =
  (Ok (map (chunk_path now filePath tempDir (length pages))
         (seq 0 (ceil_div (length pages) 15))),
   write_chunks now filePath tempDir pages (seq 0 (ceil_div (length pages) 15)) fs).
Proof.
  intros Hfile Hn. unfold splitPdfIntoChunks, load_pdf. rewrite Hfile.
  rewrite (proj2 (Nat.leb_gt (length pages) MAX_PAGES_PER_CHUNK))
    by (unfold MAX_PAGES_PER_CHUNK; lia).
  cbv zeta. rewrite split_loop_ok; [done|].
  change MAX_PAGES_PER_CHUNK with 15.
  destruct (ceil_div_15_bounds (length pages)) as [_ Hhi].
  apply Forall_forall. intros i Hi. apply elem_of_seq in Hi. lia.
Qed.

(** After a PDF of more than 15 pages is split, the returned paths are
    pairwise different, each carries the chunk marker and differs from the
    source path; the file at the [i]-th path holds the pages of chunk [i];
    the source file still holds all its pages, and every path that is not
    returned holds what it held before. *)
Theorem splitPdfIntoChunks_files (now : nat -> N) (filePath tempDir : string) fs pages :
  fs !! filePath = Some (PdfFile pages) -> 15 < length pages ->
  exists paths,
    (splitPdfIntoChunks now filePath tempDir fs).1 = Ok paths /\
    NoDup paths /\
    Forall (fun p => includes p "_chunk_" = true /\ p <> filePath) paths /\
    (forall i p, paths !! i = Some p ->
       (splitPdfIntoChunks now filePath tempDir fs).2 !! p =
       Some (PdfFile (chunk_pages pages i))) /\
    (splitPdfIntoChunks now filePath tempDir fs).2 !! filePath = Some (PdfFile pages) /\
    (forall p, p ∉ paths ->
       (splitPdfIntoChunks now filePath tempDir fs).2 !! p = fs !! p).
Proof.
  intros Hfile Hn. rewrite (splitPdfIntoChunks_large now filePath tempDir fs pages Hfile Hn).
  eexists. split; [reflexivity|]. cbn [snd].
  split; [|split; [|split; [|split]]].
  - apply NoDup_fmap_2_strong; [|apply NoDup_seq].
    intros i j _ _ E. by apply chunk_path_inj in E.
  - apply Forall_forall. intros p Hp. apply list_elem_of_fmap in Hp as (i & -> & _).
    split; [apply chunk_path_marker | apply chunk_path_not_source].
  - intros i p Hp. rewrite list_lookup_fmap in Hp.
    destruct (seq 0 (ceil_div (length pages) 15) !! i) as [j|] eqn:Hj; [|done].
    pose proof Hj as Hin. apply lookup_seq in Hj as [-> Hlt]. simplify_eq/=.
    apply write_chunks_chunk. apply elem_of_seq. lia.
  - rewrite write_chunks_other; [done|]. intros i _. apply chunk_path_not_source.
  - intros p Hp. apply write_chunks_other. intros i Hi E. apply Hp.
    apply list_elem_of_fmap. by exists i.
Qed.

(** Splitting and then cleaning up the returned paths restores the local
    files, when no deletion fails and the chunk paths were free before. *)
Theorem split_then_cleanup (now : nat -> N) (u : string -> bool)
    (filePath tempDir : string) fs pages (log : list LogEntry) (paths : list string) :
  fs !! filePath = Some (PdfFile pages) -> 15 < length pages ->
  (splitPdfIntoChunks now filePath tempDir fs).1 = Ok paths ->
  Forall (fun p => fs !! p = None) paths ->
  (forall p, u p = false) ->
  (cleanupPdfChunks u paths
     ((splitPdfIntoChunks now filePath tempDir fs).2, log)).1 = fs.
Proof.
  intros Hfile Hn Hpaths Hfree Hu. revert Hpaths.
  rewrite (splitPdfIntoChunks_large now filePath tempDir fs pages Hfile Hn).
  cbn [fst snd]. intros [= <-].
  apply map_eq. intros p. rewrite cleanupPdfChunks_lookup.
  rewrite Forall_forall in Hfree.
  case_decide as Hd.
  - destruct Hd as [Hin _]. symmetry. by apply Hfree.
  - apply write_chunks_other. intros i Hi E. apply Hd.
    split; [apply list_elem_of_fmap; by exists i|].
    unfold deletable. rewrite <- E, chunk_path_marker. by rewrite Hu.
Qed.

(** The page count and the split agree: a file whose pages cannot be counted
    cannot be split and nothing is written; a file with [n] pages is split
    into one path when [n <= 15] and into ceil(n/15) paths otherwise. *)
Theorem getPdfPageCount_split (now : nat -> N) (filePath tempDir : string) fs :
  match getPdfPageCount fs filePath with
  | Throw _ =>
      exists e, splitPdfIntoChunks now filePath tempDir fs = (Throw e, fs)
  | Ok n =>
      exists paths,
        (splitPdfIntoChunks now filePath tempDir fs).1 = Ok paths /\
        length paths = Nat.max 1 (ceil_div n 15) /\
        (n <= 15 -> paths = [filePath] /\
                    (splitPdfIntoChunks now filePath tempDir fs).2 = fs)
  end.
Proof.
  unfold getPdfPageCount.
  destruct (load_pdf fs filePath) as [pages|e] eqn:Hload.
  - assert (Hfile : fs !! filePath = Some (PdfFile pages)).
    { unfold load_pdf in Hload. by repeat case_match; simplify_eq. }
    destruct (decide (length pages <= 15)) as [Hle|Hgt].
    + exists [filePath]. unfold splitPdfIntoChunks. rewrite Hload.
      rewrite (proj2 (Nat.leb_le _ MAX_PAGES_PER_CHUNK) Hle). cbn [fst snd length].
      split; [done|]. split; [|done].
      destruct (ceil_div_15_bounds (length pages)). lia.
    + rewrite (splitPdfIntoChunks_large now filePath tempDir fs pages Hfile) by lia.
      eexists. split; [reflexivity|]. rewrite length_map, length_seq.
      destruct (ceil_div_15_bounds (length pages)). split; lia.
  - unfold splitPdfIntoChunks. rewrite Hload. by eexists.
Qed.

End SplitFiles.

Lemma splitPdfIntoChunks_files_witness :
  notes_fs !! notes_path = Some (PdfFile (seq 0 38)) /\ 15 < length (seq 0 38) /\
  (splitPdfIntoChunks clock notes_path "/tmp" notes_fs).2
    !! "/tmp/1700000000000_notes_chunk_3_of_3_1700000000125.pdf" =
  Some (PdfFile (seq 30 8)).
Proof.
  assert (H : notes_fs !! notes_path = Some (PdfFile (seq 0 38))) by reflexivity.
  assert (Hn : 15 < length (seq 0 38)) by (vm_compute; lia).
  split; [exact H|]. split; [exact Hn|].
  destruct (splitPdfIntoChunks_files clock notes_path "/tmp" notes_fs (seq 0 38) H Hn)
    as (paths & Hpaths & _ & _ & Hfiles & _).
  apply (Hfiles 2). vm_compute in Hpaths. injection Hpaths as <-. reflexivity.
Defined.

Lemma split_then_cleanup_witness :
  notes_fs !! notes_path = Some (PdfFile (seq 0 38)) /\ 15 < length (seq 0 38) /\
  (cleanupPdfChunks (fun _ => false)
     [ "/tmp/1700000000000_notes_chunk_1_of_3_1700000000123.pdf";
       "/tmp/1700000000000_notes_chunk_2_of_3_1700000000124.pdf";
       "/tmp/1700000000000_notes_chunk_3_of_3_1700000000125.pdf" ]
     ((splitPdfIntoChunks clock notes_path "/tmp" notes_fs).2, [])).1 = notes_fs.
Proof.
  assert (H : notes_fs !! notes_path = Some (PdfFile (seq 0 38))) by reflexivity.
  assert (Hn : 15 < length (seq 0 38)) by (vm_compute; lia).
  split; [exact H|]. split; [exact Hn|].
  apply (split_then_cleanup clock (fun _ => false) notes_path "/tmp" notes_fs (seq 0 38));
    [exact H | exact Hn | vm_compute; reflexivity | | done].
  repeat constructor.
Defined.


(** ** The OCR adapter: further properties *)

Section AdapterTexts.
Context {Page : Type}.
Implicit Types (fs : gmap string (File Page)) (env : OcrEnv Page) (w : World Page).

Lemma process_chunks_skips env fs (chunks : list string) (i : nat) (acc : list string) :
  Forall (fun p => chunk_over_limit env fs p = false) chunks ->
  process_chunks env fs chunks i acc = Ok (acc ++ omap (chunk_text env fs) chunks).
Proof.
  intros Hall. revert i acc.
  induction Hall as [|p chunks Hp _ IH]; intros i acc.
  - cbn. by rewrite app_nil_r.
  - cbn [process_chunks omap list_omap]. unfold chunk_over_limit, chunk_text in *.
    destruct (processPdfChunk env fs p) as [text|e].
    + rewrite IH. by rewrite <- app_assoc.
    + rewrite Hp. apply IH.
Qed.

(** The chunk loop of the [try] block is best effort: as long as no chunk
    fails with the page-limit error, it returns the texts of the chunks that
    could be read, in order, and skips the others; the first chunk that
    fails with the page-limit error makes the loop throw. *)
Theorem process_chunks_best_effort env fs (chunks : list string) (i : nat)
    (acc : list string) :
  (Forall (fun p => chunk_over_limit env fs p = false) chunks ->
   process_chunks env fs chunks i acc = Ok (acc ++ omap (chunk_text env fs) chunks)) /\
  (Exists (fun p => chunk_over_limit env fs p = true) chunks ->
   exists e, process_chunks env fs chunks i acc = Throw e).
Proof.
  split; [apply process_chunks_skips|].
  - intros Hex. revert i acc.
    induction chunks as [|p chunks IH]; intros i acc.
    + by apply Exists_nil in Hex.
    + cbn [process_chunks]. unfold chunk_over_limit in *.
      apply Exists_cons in Hex as [Hp|Hrest].
      * destruct (processPdfChunk env fs p) as [text|e]; [done|]. rewrite Hp. by eexists.
      * destruct (processPdfChunk env fs p) as [text|e]; [by apply IH|].
        destruct (is_page_limit_error e); [by eexists | by apply IH].
Qed.

Lemma omap_map_ext {A B C} (f : B -> option C) (g : A -> B) (h : A -> option C)
    (l : list A) :
  (forall x, x ∈ l -> f (g x) = h x) -> omap f (map g l) = omap h l.
Proof.
  induction l as [|x l IH]; intros Hext; [done|].
  cbn [map omap list_omap]. rewrite Hext by set_solver.
  rewrite IH; [done|]. intros y Hy. apply Hext. set_solver.
Qed.

Lemma chunks_without_all (filePath : string) (chunks : list string) :
  Forall (fun p => p <> filePath) chunks -> chunks_without filePath chunks = chunks.
Proof.
  unfold chunks_without. induction 1 as [|p chunks Hp _ IH]; [done|].
  rewrite filter_cons_True by done. by rewrite IH.
Qed.


(** A PDF of more than 15 pages is split, every chunk is sent to the OCR
    service, and the texts of the chunks that were read are joined with the
    separator, in page order; if no deletion fails and the chunk paths were
    free, the local files are afterwards what they were before. *)
Theorem extractTextFromFile_large env (filePath : string) fs (log : list LogEntry)
    (pages : list Page) :
  configured env -> fs !! filePath = Some (PdfFile pages) -> 15 < length pages ->
  let k := ceil_div (length pages) 15 in
  (forall i, i < k -> ocr_within_limit env pages i) ->
  (forall i, i < k -> fs !! chunk_path (now env) filePath "/tmp" (length pages) i = None) ->
  (forall p, unlink_throws env p = false) ->
  (extractTextFromFile env filePath "application/pdf" (fs, log)).1 =
    Ok (join chunk_separator (omap (ocr_chunk env pages) (seq 0 k))) /\
  (extractTextFromFile env filePath "application/pdf" (fs, log)).2.1 = fs.
Proof.
  intros (c & s & Hconf) Hfile Hn k Hlimit Hfree Hunlink.
  unfold extractTextFromFile. rewrite Hconf.
  set (paths := map (chunk_path (now env) filePath "/tmp" (length pages)) (seq 0 k)).
  set (fs1 := write_chunks (now env) filePath "/tmp" pages (seq 0 k) fs).
  assert (Hread : forall i, i < k ->
            processPdfChunk env fs1 (chunk_path (now env) filePath "/tmp" (length pages) i) =
            match processDocument env (PdfFile (chunk_pages pages i)) "application/pdf" true with
            | Ok text => Ok (text_or_empty text)
            | Throw e => Throw e
            end).
  { intros i Hi. unfold processPdfChunk, fs1.
    rewrite write_chunks_chunk by (apply elem_of_seq; lia). done. }
  assert (Hloop : process_chunks env fs1 paths 0 [] =
                  Ok (omap (ocr_chunk env pages) (seq 0 k))).
  { rewrite process_chunks_skips.
    - cbn [app]. f_equal. apply omap_map_ext. intros i Hi. apply elem_of_seq in Hi.
      unfold chunk_text, ocr_chunk. rewrite Hread by lia.
      by destruct (processDocument env _ _ _).
    - apply Forall_forall. intros p Hp. apply list_elem_of_fmap in Hp as (i & -> & Hi).
      apply elem_of_seq in Hi. unfold chunk_over_limit. rewrite Hread by lia.
      specialize (Hlimit i ltac:(lia)). unfold ocr_within_limit in Hlimit.
      by destruct (processDocument env _ _ _). }
  assert (Hwo : chunks_without filePath paths = paths).
  { apply chunks_without_all, Forall_forall.
    intros p Hp. apply list_elem_of_fmap in Hp as (i & -> & _).
    apply chunk_path_not_source. }
  assert (Htry : extract_try env filePath "application/pdf" (fs, log) =
    (Ok (join chunk_separator (omap (ocr_chunk env pages) (seq 0 k))),
     cleanupPdfChunks (unlink_throws env) paths (fs1, log), paths)).
  { unfold extract_try. cbn [String.eqb Ascii.eqb Bool.eqb].
    unfold getPdfPageCount, load_pdf. rewrite Hfile.
    rewrite (proj2 (Nat.ltb_lt 15 (length pages))) by lia.
    rewrite (splitPdfIntoChunks_large (now env) filePath "/tmp" fs pages Hfile Hn).
    fold k paths fs1. rewrite Hloop, Hwo. done. }
  rewrite Htry. cbn [fst snd]. split; [done|].
  apply map_eq. intros p. rewrite cleanupPdfChunks_lookup.
  case_decide as Hd.
  - destruct Hd as [Hin _]. apply list_elem_of_fmap in Hin as (i & -> & Hi).
    apply elem_of_seq in Hi. symmetry. apply Hfree. lia.
  - unfold fs1. apply write_chunks_other. intros i Hi E. apply Hd.
    split; [apply list_elem_of_fmap; by exists i|].
    unfold deletable. rewrite <- E, chunk_path_marker. by rewrite Hunlink.
Qed.

End AdapterTexts.

Lemma process_chunks_best_effort_witness :
  Forall (fun p => chunk_over_limit flaky_ocr chunked_fs p = false)
         [chunk1_path; chunk2_path] /\
  process_chunks flaky_ocr chunked_fs [chunk1_path; chunk2_path] 0 [] =
  Ok ["text of a chunk"].
Proof.
  assert (H : Forall (fun p => chunk_over_limit flaky_ocr chunked_fs p = false)
                     [chunk1_path; chunk2_path]).
  { repeat constructor. }
  split; [exact H|].
  destruct (process_chunks_best_effort flaky_ocr chunked_fs [chunk1_path; chunk2_path] 0 [])
    as [Hok _].
  rewrite (Hok H). reflexivity.
Defined.


Lemma extractTextFromFile_large_witness :
  (extractTextFromFile flaky_ocr notes_path "application/pdf" (notes_fs, [])).1 =
    Ok (join chunk_separator ["text of a chunk"; "text of a chunk"]) /\
  (extractTextFromFile flaky_ocr notes_path "application/pdf" (notes_fs, [])).2.1 = notes_fs.
Proof.
  assert (Hfile : notes_fs !! notes_path = Some (PdfFile (seq 0 38)))
    by (vm_compute; reflexivity).
  assert (Hconf : configured flaky_ocr) by (by exists "p"%char, "rocessor-1").
  assert (Hn : 15 < length (seq 0 38)) by (cbn; lia).
  destruct (extractTextFromFile_large flaky_ocr notes_path notes_fs [] (seq 0 38)
              Hconf Hfile Hn) as [Htext Hfs].
  - intros i Hi. change (ceil_div (length (seq 0 38)) 15) with 3 in Hi.
    destruct i as [|[|[|i]]]; [vm_compute; tauto .. | lia].
  - intros i Hi. change (ceil_div (length (seq 0 38)) 15) with 3 in Hi.
    destruct i as [|[|[|i]]]; [vm_compute; reflexivity .. | lia].
  - reflexivity.
  - split; [exact Htext | exact Hfs].
Defined.

(** ** functions/utils/jsonParser *)

Example strip_code_fence_examples :
  strip_code_fence untagged_response = untagged_text /\
  strip_code_fence ("  ```" +:+ String "010" "[1]```  ") = "[1]" /\
  strip_code_fence " {} " = "{}" /\
  strip_code_fence "```JSON{}" = "JSON{}".
Proof. vm_compute. done. Qed.

Example parseFlashcardResponse_example :
  parseFlashcardResponse sample_parse untagged_response =
  Ok (JObject [ ("title", JString "Cells");
                ("cards", JArray [ JObject [ ("question", JString "Q");
                                             ("answer", JString "A") ] ]);
                ("tags", JArray []) ]).
Proof. vm_compute. done. Qed.

Lemma nonempty_string_spec (x : option Json) :
  nonempty_string x = true <-> exists s, x = Some (JString s) /\ s <> "".
Proof.
  split.
  - destruct x as [[| | |[|c s]| |]|]; try discriminate. intros _. by eexists.
  - intros (s & -> & Hs). by destruct s.
Qed.

Lemma isArray_spec (x : option Json) :
  isArray x = true <-> exists items, x = Some (JArray items).
Proof.
  split.
  - destruct x as [[]|]; try discriminate. intros _. by eexists.
  - by intros (items & ->).
Qed.

Lemma assoc_set_same (key : string) (v : Json) (fields : list (string * Json)) :
  assoc key (assoc_set key v fields) = Some v.
Proof.
  induction fields as [|[k old] rest IH]; simpl.
  - by rewrite String.eqb_refl.
  - destruct (String.eqb k key) eqn:E; simpl; by rewrite E.
Qed.

Lemma assoc_set_other (key key' : string) (v : Json) (fields : list (string * Json)) :
  key' <> key -> assoc key' (assoc_set key v fields) = assoc key' fields.
Proof.
  intros Hne. induction fields as [|[k old] rest IH]; simpl.
  - destruct (String.eqb_spec key key'); [congruence | done].
  - destruct (String.eqb_spec k key) as [->|Hk]; simpl.
    + destruct (String.eqb_spec key key'); [congruence | done].
    + destruct (String.eqb k key'); [done | exact IH].
Qed.

(** The loop over the cards succeeds exactly on lists of valid cards. *)
Lemma validate_cards_spec (cards : list Json) :
  (Forall valid_card cards -> validate_cards cards = Ok ()) /\
  (~ Forall valid_card cards -> exists e, validate_cards cards = Throw e).
Proof.
  induction cards as [|card rest [IHok IHbad]].
  - split; [done|]. intros H. destruct H. constructor.
  - assert (Hcase : valid_card card \/ exists e, forall k : Result unit,
      (question ← prop card "question";
       if negb (nonempty_string question)
       then Throw (plain_error "Invalid flashcard response: card missing question")
       else answer ← prop card "answer";
            if negb (nonempty_string answer)
            then Throw (plain_error "Invalid flashcard response: card missing answer")
            else k) = Throw e).
    { destruct card as [| | | | |fields]; try (right; eexists; intros k; reflexivity).
      cbn [prop mbind Result_bind].
      destruct (nonempty_string (assoc "question" fields)) eqn:Hq;
        [|right; eexists; intros k; reflexivity].
      destruct (nonempty_string (assoc "answer" fields)) eqn:Ha;
        [|right; eexists; intros k; reflexivity].
      left. apply nonempty_string_spec in Hq as (q & Hq & Hq').
      apply nonempty_string_spec in Ha as (a & Ha & Ha').
      exists q, a. cbn [prop]. by rewrite Hq, Ha. }
    split.
    + intros Hall. apply Forall_cons in Hall as [Hcard Hrest].
      destruct Hcard as (q & a & Hq & Hq' & Ha & Ha').
      cbn [validate_cards]. rewrite Hq. cbn [mbind Result_bind].
      destruct q; [done|]. cbn [nonempty_string negb]. rewrite Ha.
      cbn [mbind Result_bind]. destruct a; [done|]. cbn [nonempty_string negb].
      by apply IHok.
    + intros Hnot. cbn [validate_cards]. destruct Hcase as [Hcard|[e He]].
      * destruct IHbad as [e He].
        { intros Hrest. apply Hnot. by constructor. }
        destruct Hcard as (q & a & Hq & Hq' & Ha & Ha').
        rewrite Hq. cbn [mbind Result_bind].
        destruct q; [done|]. cbn [nonempty_string negb]. rewrite Ha.
        cbn [mbind Result_bind]. destruct a; [done|]. cbn [nonempty_string negb].
        by exists e.
      * exists e. apply He.
Qed.

Lemma validate_cards_inv (cards : list Json) :
  validate_cards cards = Ok () -> Forall valid_card cards.
Proof.
  induction cards as [|card rest IH]; [constructor|].
  cbn [validate_cards]. intros H.
  destruct card as [| | | | |fields]; try discriminate.
  cbn [prop mbind Result_bind] in H.
  destruct (nonempty_string (assoc "question" fields)) eqn:Hq; [|discriminate].
  destruct (nonempty_string (assoc "answer" fields)) eqn:Ha; [|discriminate].
  cbn [negb] in H. constructor; [|by apply IH].
  apply nonempty_string_spec in Hq as (q & Hq & Hq').
  apply nonempty_string_spec in Ha as (a & Ha & Ha').
  exists q, a. cbn [prop]. by rewrite Hq, Ha.
Qed.

(** What the [try] block computes on a parsed object. *)
Lemma parseFlashcard_try_object (JSON_parse : string -> Result Json) (response : string)
    (fields : list (string * Json)) :
  JSON_parse (strip_code_fence response) = Ok (JObject fields) ->
  parseFlashcard_try JSON_parse response =
  if negb (nonempty_string (assoc "title" fields))
  then Throw (plain_error "Invalid flashcard response: missing or invalid title")
  else match assoc "cards" fields with
       | Some (JArray items) =>
           match validate_cards items with
           | Ok _ => Ok (if isArray (assoc "tags" fields) then JObject fields
                         else JObject (assoc_set "tags" (JArray []) fields))
           | Throw e => Throw e
           end
       | _ => Throw (plain_error "Invalid flashcard response: cards must be an array")
       end.
Proof.
  intros Hparse. unfold parseFlashcard_try. rewrite Hparse.
  cbn [mbind Result_bind prop]. destruct (negb _); [done|].
  destruct (assoc "cards" fields) as [[]|]; try done;
    cbn [mbind Result_bind set_prop]; by destruct (validate_cards items).
Qed.

(** Anything that is not an object fails the title check or, for [null],
    the property access itself. *)
Lemma parseFlashcard_try_not_object (JSON_parse : string -> Result Json)
    (response : string) (parsed : Json) :
  JSON_parse (strip_code_fence response) = Ok parsed ->
  (forall fields, parsed <> JObject fields) ->
  exists e, parseFlashcard_try JSON_parse response = Throw e.
Proof.
  intros Hparse Hno. unfold parseFlashcard_try. rewrite Hparse.
  destruct parsed; try (eexists; reflexivity). by destruct (Hno fields).
Qed.

(** C6: a parsed response without a list of cards is rejected with an error
    and never accepted with an empty list; tags that are missing or not a
    list are replaced by the empty list; an accepted response has its list
    of cards, each with a non-empty string question and answer, and a card
    that violates this makes the whole call fail. *)
Theorem parseFlashcardResponse_validation (JSON_parse : string -> Result Json)
    (response : string) (parsed : Json) :
  JSON_parse (strip_code_fence response) = Ok parsed ->
  (lacks_list parsed "cards" ->
   exists e, parseFlashcardResponse JSON_parse response = Throw e) /\
  (forall result, parseFlashcardResponse JSON_parse response = Ok result ->
     valid_title result /\
     (exists cards, has_list parsed "cards" cards /\ has_list result "cards" cards /\
                    Forall valid_card cards) /\
     (exists tags, has_list result "tags" tags /\
                   (lacks_list parsed "tags" -> tags = []) /\
                   (has_list parsed "tags" tags -> result = parsed))) /\
  (forall cards, has_list parsed "cards" cards -> ~ Forall valid_card cards ->
     exists e, parseFlashcardResponse JSON_parse response = Throw e) /\
  (forall cards, valid_title parsed -> has_list parsed "cards" cards ->
     Forall valid_card cards -> lacks_list parsed "tags" ->
     parseFlashcardResponse JSON_parse response =
     Ok (set_prop parsed "tags" (JArray []))).
Proof.
  intros Hparse. unfold parseFlashcardResponse.
  assert (Hobj : (forall fields, parsed <> JObject fields) ->
                 exists e, parseFlashcard_try JSON_parse response = Throw e).
  { apply parseFlashcard_try_not_object. exact Hparse. }
  destruct parsed as [| | | | |fields];
    try (destruct Hobj as [e He]; [done|]; rewrite He;
         unfold lacks_list, has_list, valid_title; cbn [prop];
         split; [by eexists|]; split; [done|]; split;
         [by eexists | by intros cards (t & Ht & _)]).
  clear Hobj. rewrite (parseFlashcard_try_object _ _ _ Hparse).
  unfold lacks_list, has_list, valid_title. cbn [prop set_prop].
  split; [|split; [|split]].
  - intros Hlack. destruct (negb _); [by eexists|].
    destruct (assoc "cards" fields) as [[]|]; try by eexists.
    by destruct (Hlack items).
  - intros result Hres.
    destruct (nonempty_string (assoc "title" fields)) eqn:Htitle; [|done].
    cbn [negb] in Hres.
    destruct (assoc "cards" fields) as [[| | | |items|]|] eqn:Hcards; try done.
    destruct (validate_cards items) as [[]|e] eqn:Hval; [|done].
    pose proof (validate_cards_inv items Hval) as Hall.
    apply nonempty_string_spec in Htitle as (t & Htitle & Ht).
    destruct (isArray (assoc "tags" fields)) eqn:Htags.
    + apply isArray_spec in Htags as [tags Htags]. simplify_eq. cbn [prop].
      split; [exists t; by rewrite Htitle|].
      split; [exists items; by rewrite Hcards|].
      exists tags. rewrite Htags. split; [done|]. split; [|done].
      intros Hlack. by destruct (Hlack tags).
    + simplify_eq. cbn [prop].
      rewrite assoc_set_same, !assoc_set_other by done.
      split; [exists t; by rewrite Htitle|].
      split; [exists items; by rewrite Hcards|].
      exists []. split; [done|]. split; [done|].
      intros Hhas. simplify_eq. by rewrite Hhas in Htags.
  - intros cards Hcards Hnot. simplify_eq. rewrite Hcards.
    destruct (negb _); [by eexists|].
    destruct (validate_cards_spec cards) as [_ Hbad].
    destruct (Hbad Hnot) as [e ->]. by eexists.
  - intros cards (t & Ht & Hne) Hcards Hall Hlack. simplify_eq.
    rewrite Ht, Hcards. destruct t; [done|]. cbn [nonempty_string negb].
    destruct (validate_cards_spec cards) as [Hok _]. rewrite (Hok Hall).
    destruct (isArray (assoc "tags" fields)) eqn:Htags; [|done].
    apply isArray_spec in Htags as [tags Htags]. destruct (Hlack tags).
    by rewrite Htags.
Qed.

Lemma parseFlashcardResponse_validation_witness :
  sample_parse (strip_code_fence untagged_response) = Ok untagged_value /\
  parseFlashcardResponse sample_parse untagged_response =
  Ok (set_prop untagged_value "tags" (JArray [])).
Proof.
  assert (H : sample_parse (strip_code_fence untagged_response) = Ok untagged_value)
    by reflexivity.
  split; [exact H|].
  destruct (parseFlashcardResponse_validation sample_parse untagged_response
              untagged_value H) as (_ & _ & _ & Hdefault).
  apply (Hdefault [ JObject [ ("question", JString "Q"); ("answer", JString "A") ] ]).
  - exists "Cells". split; [reflexivity | discriminate].
  - reflexivity.
  - constructor; [|constructor]. exists "Q", "A".
    repeat split; try reflexivity; discriminate.
  - intros items. discriminate.
Defined.
(** ** functions/utils/jsonParser: quiz responses *)

Lemma valid_type_spec (x : option Json) (t : string) :
  valid_type x = Some t <-> x = Some (JString t) /\ t ∈ validTypes.
Proof.
  unfold valid_type, array_includes. split.
  - destruct x as [[| | |s| |]|]; try discriminate.
    case_bool_decide; [|discriminate]. by intros [= ->].
  - intros [-> Hin]. by rewrite bool_decide_eq_true_2.
Qed.

Lemma fewer_than_two_spec (x : option Json) :
  fewer_than_two x = false <-> exists options, x = Some (JArray options) /\ 2 <= length options.
Proof.
  unfold fewer_than_two. split.
  - destruct x as [[| | | |items|]|]; try discriminate.
    intros H. apply Nat.ltb_ge in H. by exists items.
  - intros (options & -> & H). by apply Nat.ltb_ge.
Qed.

Lemma nullish_spec (x : option Json) :
  nullish x = false <-> exists answer, x = Some answer /\ answer <> JNull.
Proof.
  unfold nullish. split.
  - destruct x as [[]|]; try discriminate; intros _; by eexists.
  - intros (answer & -> & H). by destruct answer.
Qed.

(** One round of the loop over the questions. *)
Lemma validate_questions_cons (show : option Json -> string) (question : Json)
    (rest : list Json) :
  validate_questions show (question :: rest) = Ok () <->
  valid_question question /\ validate_questions show rest = Ok ().
Proof.
  unfold valid_question.
  destruct question as [| | | | |fields];
    try (split; [discriminate | by intros [(t & text & answer & Ht & _) _]]).
  cbn [validate_questions prop mbind Result_bind].
  destruct (valid_type (assoc "type" fields)) as [t|] eqn:Ht.
  2: { split; [discriminate|]. intros [(t & text & answer & [= Ht'] & Hin & _) _].
       assert (valid_type (assoc "type" fields) = Some t) by by apply valid_type_spec.
       congruence. }
  apply valid_type_spec in Ht as [Ht Hin].
  destruct (nonempty_string (assoc "question" fields)) eqn:Hq; cbn [negb].
  2: { split; [discriminate|]. intros [(t' & text & answer & _ & _ & [= Hq'] & Hne & _) _].
       assert (nonempty_string (assoc "question" fields) = true)
         by (apply nonempty_string_spec; by exists text).
       congruence. }
  apply nonempty_string_spec in Hq as (text & Hq & Htext).
  destruct (nullish (assoc "answer" fields)) eqn:Ha.
  { split; [discriminate|].
    intros [(t' & text' & answer & _ & _ & _ & _ & [= Ha'] & Hnull & _) _].
    assert (nullish (assoc "answer" fields) = false)
      by (apply nullish_spec; by exists answer).
    congruence. }
  apply nullish_spec in Ha as (answer & Ha & Hnull).
  assert (Hchoice : String.eqb t "multiple-choice" || String.eqb t "multiple-selection" = true
                    <-> t <> "fill-in-the-blank").
  { unfold validTypes in Hin. set_unfold.
    destruct Hin as [->|[->|[->|[]]]]; cbn; split; done. }
  destruct ((String.eqb t "multiple-choice" || String.eqb t "multiple-selection")
            && fewer_than_two (assoc "options" fields)) eqn:Hopt.
  { split; [discriminate|].
    intros [(t' & text' & answer' & [= Ht'] & _ & _ & _ & _ & _ & Hoptions & _) _].
    rewrite Ht in Ht'. injection Ht' as <-.
    apply andb_true_iff in Hopt as [Hc Hfew]. apply Hchoice in Hc.
    apply Hoptions in Hc as (options & [= Ho] & Hlen).
    assert (fewer_than_two (assoc "options" fields) = false)
      by (apply fewer_than_two_spec; by exists options).
    congruence. }
  destruct (String.eqb t "multiple-selection" && negb (isArray (assoc "answer" fields)))
    eqn:Hsel.
  { split; [discriminate|].
    intros [(t' & text' & answer' & [= Ht'] & _ & _ & _ & [= Ha'] & _ & _ & Hitems) _].
    rewrite Ht in Ht'. injection Ht' as <-.
    apply andb_true_iff in Hsel as [Hs Hno]. apply String.eqb_eq in Hs.
    apply Hitems in Hs as [items ->]. rewrite Ha' in Hno. done. }
  split; [|by intros [_ ?]].
  intros Hrest. split; [|done].
  exists t, text, answer. rewrite Ht, Hq, Ha.
  split; [done|]. split; [done|]. split; [done|]. split; [done|].
  split; [done|]. split; [done|]. split.
  - intros Hc. apply Hchoice in Hc. rewrite Hc in Hopt. cbn [andb] in Hopt.
    apply fewer_than_two_spec in Hopt as (options & -> & Hlen). by exists options.
  - intros ->. cbn [String.eqb Ascii.eqb Bool.eqb andb] in Hsel.
    apply negb_false_iff, isArray_spec in Hsel as [items Hitems].
    rewrite Ha in Hitems. injection Hitems as ->. by exists items.
Qed.

(** The loop over the questions succeeds exactly on lists of valid
    questions. *)
Lemma validate_questions_spec (show : option Json -> string) (questions : list Json) :
  validate_questions show questions = Ok () <-> Forall valid_question questions.
Proof.
  induction questions as [|question rest IH].
  - split; [constructor | done].
  - rewrite validate_questions_cons, IH, Forall_cons. done.
Qed.

(** A parsed quiz is accepted exactly when it has a title that is a
    non-empty string and a list of questions, each of them valid: a known
    type, a non-empty question text, an answer, at least two options for the
    choice types and a list as answer for multiple selection.  The value
    returned is the parsed one, with its tags replaced by the empty list
    when they are not a list.  Every failure, of [JSON.parse] as well, is
    reported with the same prefix. *)
Theorem parseQuizResponse_validation (JSON_parse : string -> Result Json)
    (show : option Json -> string) (response : string) :
  (forall parsed, JSON_parse (strip_code_fence response) = Ok parsed ->
   forall result,
     parseQuizResponse JSON_parse show response = Ok result <->
     valid_title parsed /\
     (exists questions, has_list parsed "questionsList" questions /\
                        Forall valid_question questions) /\
     result = with_tags parsed) /\
  (forall e, JSON_parse (strip_code_fence response) = Throw e ->
     parseQuizResponse JSON_parse show response =
     Throw (plain_error ("Failed to parse quiz JSON: " +:+ err_message e))) /\
  (forall e, parseQuizResponse JSON_parse show response = Throw e ->
     startsWith (err_message e) "Failed to parse quiz JSON: " = true /\
     err_code e = None).
Proof.
  split; [|split].
  - intros parsed Hparse result.
    unfold parseQuizResponse, parseQuiz_try, valid_title, has_list, with_tags.
    rewrite Hparse. cbn [mbind Result_bind].
    destruct parsed as [| | | | |fields];
      try (split; [discriminate | by intros [(t & Ht & _) _]]).
    cbn [prop mbind Result_bind set_prop].
    destruct (nonempty_string (assoc "title" fields)) eqn:Htitle; cbn [negb].
    2: { split; [discriminate|]. intros [(t & [= Ht] & Hne) _].
         assert (nonempty_string (assoc "title" fields) = true)
           by (apply nonempty_string_spec; by exists t).
         congruence. }
    apply nonempty_string_spec in Htitle as (t & Htitle & Ht).
    destruct (assoc "questionsList" fields) as [[| | | |items|]|] eqn:Hlist;
      try (split; [discriminate | by intros (_ & (questions & Hq & _) & _)]).
    pose proof (validate_questions_spec show items) as Hval.
    assert (Htags : (if isArray (assoc "tags" fields) then JObject fields
                     else JObject (assoc_set "tags" (JArray []) fields)) =
                    match assoc "tags" fields with
                    | Some (JArray _) => JObject fields
                    | _ => JObject (assoc_set "tags" (JArray []) fields)
                    end).
    { by destruct (assoc "tags" fields) as [[]|]. }
    destruct (validate_questions show items) as [[]|e].
    + cbn [mbind Result_bind]. rewrite Htags. split.
      * intros [= <-]. split; [by exists t; rewrite Htitle|].
        split; [|done]. exists items. split; [done|]. by apply Hval.
      * by intros (_ & _ & ->).
    + split; [discriminate|]. intros (_ & (questions & [= <-] & Hall) & _).
      by apply Hval in Hall.
  - intros e Hparse. unfold parseQuizResponse, parseQuiz_try. by rewrite Hparse.
  - intros e. unfold parseQuizResponse.
    destruct (parseQuiz_try JSON_parse show response); [discriminate|].
    intros [= <-]. cbn [err_message err_code plain_error]. split; [|done].
    unfold startsWith. rewrite chars_app. apply starts_with_app.
Qed.

Lemma parseQuizResponse_validation_witness :
  parseQuizResponse sample_quiz_parse show_undefined
    ("```json" +:+ String "010" quiz_text +:+ String "010" "```") =
  Ok (set_prop quiz_value "tags" (JArray [])).
Proof.
  destruct (parseQuizResponse_validation sample_quiz_parse show_undefined
              ("```json" +:+ String "010" quiz_text +:+ String "010" "```"))
    as [Hok _].
  apply (Hok quiz_value); [vm_compute; reflexivity|].
  split; [exists "Cells"; by split|]. split; [|reflexivity].
  eexists. split; [reflexivity|].
  assert (Hin : forall t, bool_decide (t ∈ validTypes) = true -> t ∈ validTypes)
    by (intros t; apply bool_decide_eq_true_1).
  repeat apply Forall_cons_2; [| | |apply Forall_nil_2].
  - exists "multiple-choice", "Which organelle makes ATP?", (JString "Mitochondrion").
    split_and!; [done | by apply Hin | done | done | done | done | | done].
    intros _. eexists. split; [reflexivity | cbn; lia].
  - exists "multiple-selection", "Which have a membrane?",
      (JArray [JString "Nucleus"; JString "Lysosome"]).
    split_and!; [done | by apply Hin | done | done | done | done | | ].
    + intros _. eexists. split; [reflexivity | cbn; lia].
    + intros _. by eexists.
  - exists "fill-in-the-blank", "The powerhouse of the cell is the ...",
      (JString "mitochondrion").
    split_and!; [done | by apply Hin | done | done | done | done | done | done].
Defined.
(** ** functions/utils/jsonParser: the code fence *)

Lemma drop_spaces_blank (ws l : list ascii) :
  Forall (fun c => is_space c = true) ws -> drop_spaces (ws ++ l) = drop_spaces l.
Proof. induction 1 as [|c ws Hc _ IH]; [done|]. cbn. by rewrite Hc. Qed.

(** Trimming removes the white space around a text that starts and ends
    with a character that is not white space. *)
Lemma trim_chars_framed (ws1 ws2 l l1 l2 : list ascii) (c d : ascii) :
  Forall (fun c => is_space c = true) ws1 -> Forall (fun c => is_space c = true) ws2 ->
  l = c :: l1 -> l = l2 ++ [d] -> is_space c = false -> is_space d = false ->
  trim_chars (ws1 ++ l ++ ws2) = l.
Proof.
  intros H1 H2 Hc Hd Hsc Hsd. unfold trim_chars.
  rewrite drop_spaces_blank by done.
  assert (E : drop_spaces (l ++ ws2) = l ++ ws2).
  { rewrite Hc. cbn. by rewrite Hsc. }
  rewrite E, rev_app_distr, drop_spaces_blank.
  2: { apply Forall_forall. intros x Hx. rewrite Forall_forall in H2. apply H2.
       apply list_elem_of_In. apply list_elem_of_In, in_rev in Hx. done. }
  assert (E' : drop_spaces (rev l) = rev l).
  { rewrite Hd at 1 2. rewrite rev_app_distr. cbn. by rewrite Hsd. }
  by rewrite E', rev_involutive.
Qed.

Lemma ends_with_app (l suffix : list ascii) : ends_with (l ++ suffix) suffix = true.
Proof. unfold ends_with. rewrite rev_app_distr. apply starts_with_app. Qed.

Lemma drop_fence_close_fenced (body : list ascii) :
  drop_fence_close (body ++ chars (String "010" "```")) = body.
Proof.
  unfold drop_fence_close.
  change (chars (String "010" "```")) with (["010"%char] ++ chars "```").
  rewrite app_assoc, ends_with_app.
  rewrite length_app. change (length (chars "```")) with 3.
  replace (length (body ++ ["010"%char]) + 3 - 3) with (length (body ++ ["010"%char])) by lia.
  rewrite take_app_length, ends_with_app, length_app. cbn [length].
  replace (length body + 1 - 1) with (length body) by lia.
  by rewrite take_app_length.
Qed.

Lemma strip_code_fence_cleaned (response : string) :
  startsWith (trim response) "```" = false -> strip_code_fence response = trim response.
Proof.
  unfold startsWith, trim, strip_code_fence. rewrite chars_str.
  generalize (trim_chars (chars response)). intros l Hplain.
  assert (Hjson : starts_with (chars "```json") l = false).
  { destruct (starts_with (chars "```json") l) eqn:E; [|done].
    rewrite <- Hplain.
    destruct l as [|a [|b [|c l]]]; simpl in E |- *; repeat case_decide; done. }
  by rewrite Hjson, Hplain.
Qed.

Lemma chars_in_code_fence (tag body : string) :
  chars (in_code_fence tag body) =
  chars "```" ++ chars tag ++ "010"%char :: chars body ++ chars (String "010" "```").
Proof.
  unfold in_code_fence. rewrite (chars_app "```"), (chars_app tag).
  change (String "010" body +:+ String "010" "```")
    with (String "010" (body +:+ String "010" "```")).
  change (chars (String "010" (body +:+ String "010" "```")))
    with ("010"%char :: chars (body +:+ String "010" "```")).
  by rewrite (chars_app body).
Qed.

(** Trimming a fenced text surrounded by white space leaves the fenced
    text. *)
Lemma trim_in_code_fence (ws1 ws2 tag body : string) :
  blank ws1 -> blank ws2 ->
  trim_chars (chars (ws1 +:+ in_code_fence tag body +:+ ws2)) =
  chars "```" ++ chars tag ++ "010"%char :: chars body ++ chars (String "010" "```").
Proof.
  intros H1 H2.
  rewrite (chars_app ws1), (chars_app (in_code_fence tag body) ws2), chars_in_code_fence.
  apply (trim_chars_framed _ _ _
           (chars "``" ++ chars tag ++ "010"%char :: chars body ++ chars (String "010" "```"))
           (chars "```" ++ chars tag ++ "010"%char :: chars body ++ chars (String "010" "``"))
           "`"%char "`"%char); try done.
  repeat (rewrite <- app_assoc || rewrite <- app_comm_cons). done.
Qed.

Lemma drop_fence_open_fenced (fence rest : list ascii) :
  drop_fence_open (length fence) (fence ++ "010"%char :: rest) = rest.
Proof.
  unfold drop_fence_open. rewrite drop_app_length. by rewrite decide_True.
Qed.

(** The clean-up before parsing unwraps a fenced response: a text between
    an opening fence (plain or tagged json) with a line break and a line
    break with the closing fence, surrounded by any white space, is cleaned
    to exactly that text; a response that does not start with a fence after
    trimming is only trimmed.  So a response gives the same result with and
    without the fence. *)
Theorem strip_code_fence_unwraps (JSON_parse : string -> Result Json)
    (show : option Json -> string) (ws1 ws2 body : string) :
  blank ws1 -> blank ws2 ->
  (strip_code_fence (ws1 +:+ in_code_fence "json" body +:+ ws2) = body /\
   strip_code_fence (ws1 +:+ in_code_fence "" body +:+ ws2) = body) /\
  (trim body = body -> startsWith body "```" = false ->
   strip_code_fence body = body /\
   parseFlashcardResponse JSON_parse (ws1 +:+ in_code_fence "json" body +:+ ws2) =
     parseFlashcardResponse JSON_parse body /\
   parseQuizResponse JSON_parse show (ws1 +:+ in_code_fence "json" body +:+ ws2) =
     parseQuizResponse JSON_parse show body).
Proof.
  intros H1 H2.
  assert (Hjson : strip_code_fence (ws1 +:+ in_code_fence "json" body +:+ ws2) = body).
  { unfold strip_code_fence. rewrite trim_in_code_fence by done.
    change (chars "```" ++ chars "json" ++
            "010"%char :: chars body ++ chars (String "010" "```"))
      with (chars "```json" ++ "010"%char :: chars body ++ chars (String "010" "```")).
    rewrite starts_with_app.
    rewrite (drop_fence_open_fenced (chars "```json")).
    by rewrite drop_fence_close_fenced, str_chars. }
  assert (Hplain : strip_code_fence (ws1 +:+ in_code_fence "" body +:+ ws2) = body).
  { unfold strip_code_fence. rewrite trim_in_code_fence by done.
    change (chars "```" ++ chars "" ++
            "010"%char :: chars body ++ chars (String "010" "```"))
      with (chars "```" ++ "010"%char :: chars body ++ chars (String "010" "```")).
    assert (Hno : starts_with (chars "```json")
                    (chars "```" ++ "010"%char :: chars body ++ chars (String "010" "```"))
                  = false).
    { simpl. repeat case_decide; done. }
    rewrite Hno, starts_with_app.
    rewrite (drop_fence_open_fenced (chars "```")).
    by rewrite drop_fence_close_fenced, str_chars. }
  split; [done|]. intros Htrim Hstart.
  assert (Hbody : strip_code_fence body = body).
  { rewrite strip_code_fence_cleaned; [done|]. by rewrite Htrim. }
  split; [done|].
  unfold parseFlashcardResponse, parseFlashcard_try, parseQuizResponse, parseQuiz_try.
  by rewrite Hjson, Hbody.
Qed.

Lemma strip_code_fence_unwraps_witness :
  strip_code_fence (" " +:+ in_code_fence "json" untagged_text +:+ String "010" "") =
    untagged_text /\
  parseFlashcardResponse sample_parse
    (" " +:+ in_code_fence "json" untagged_text +:+ String "010" "") =
  parseFlashcardResponse sample_parse untagged_text.
Proof.
  assert (H1 : blank " ") by (repeat constructor).
  assert (H2 : blank (String "010" "")) by (repeat constructor).
  destruct (strip_code_fence_unwraps sample_parse show_undefined " " (String "010" "")
              untagged_text H1 H2) as [[Hjson _] Hparse].
  split; [exact Hjson|].
  destruct Hparse as (_ & Hflash & _); [vm_compute; reflexivity .. | exact Hflash].
Defined.

(** ** utils/firestoreService: save with duplicate check *)

Example millis_of_examples :
  millis_of (at_millis 1700000001234) = 1700000001234%float /\
  millis_of (Timestamp 1700000001 234500000) = 1700000001234.5%float /\
  millis_of (PlainSeconds 1700000001) = 1700000001000%float /\
  millis_of NoTime = 0%float /\
  toMillis_or_0 (PlainSeconds 1700000001) = 0%float /\
  within 5000 (millis_of (Timestamp 1700000006 234000000))
              (millis_of (Timestamp 1700000001 234500000)) = true /\
  within 5000 (millis_of (Timestamp 1700000006 234000000))
              (millis_of (Timestamp 1700000001 234000000)) = false.
Proof. vm_compute. done. Qed.

(** C4 at a failing input: the history holds a three-card set "Biology".
    A five-card set "Biology" is saved two seconds later and appended.  One
    second later the same five-card set is saved again: nothing is appended,
    but the call returns the three-card set, not the five-card set the
    first call stored: [find] looks at title and time only. *)
Lemma saveFlashcard_returns_other_entity :
  saveFlashcardToFirestore false (at_millis 1700000003000) "uid-1" large_input one_set_db
    = (Ok large_set, two_sets_db) /\
  saveFlashcardToFirestore false (at_millis 1700000004000) "uid-1" large_input two_sets_db
    = (Ok small_set, two_sets_db) /\
  flashcard_isDuplicate (new_flashcard (at_millis 1700000004000) large_input) small_set
    = false /\
  (length <$> fc_cards small_set) = Some 3 /\
  (length <$> fi_cards large_input) = Some 5.
Proof. vm_compute. done. Qed.

(** The same for quizzes. *)
Lemma saveQuiz_returns_other_entity :
  let first := saveQuizToFirestore false (at_millis 1700000003000) "uid-1"
                 large_quiz_input one_quiz_db in
  let second := saveQuizToFirestore false (at_millis 1700000004000) "uid-1"
                  large_quiz_input first.2 in
  first.1 = Ok (new_quiz (at_millis 1700000003000) large_quiz_input) /\
  second = (Ok small_quiz, first.2) /\
  quiz_isDuplicate (new_quiz (at_millis 1700000004000) large_quiz_input) small_quiz
    = false.
Proof. vm_compute. done. Qed.

(** ** utils/flashcardHelpers: further properties *)

(** After [k] correct answers in a row a card that started at a level of at
    most 5 is at min(5, level + k), after [k] wrong answers a card that
    started at a level of at least 0 is at max(0, level - k); so five
    correct answers master every card, and five wrong ones reset it. *)
Theorem updateCardConfidence_repeated (level : Z) (k : nat) :
  ((level <= 5)%Z ->
   answer_repeatedly true k level = Z.min 5 (level + Z.of_nat k)) /\
  ((0 <= level)%Z ->
   answer_repeatedly false k level = Z.max 0 (level - Z.of_nat k)) /\
  ((0 <= level <= 5)%Z ->
   getCardStatus (answer_repeatedly true 5 level) = mastered /\
   getCardStatus (answer_repeatedly false 5 level) = unlearned).
Proof.
  assert (Hup : forall k, (level <= 5)%Z ->
            answer_repeatedly true k level = Z.min 5 (level + Z.of_nat k)).
  { intros n Hl. induction n as [|n IH].
    - unfold answer_repeatedly. simpl. lia.
    - change (answer_repeatedly true (S n) level)
        with (updateCardConfidence (answer_repeatedly true n level) true).
      rewrite IH. unfold updateCardConfidence. lia. }
  assert (Hdown : forall k, (0 <= level)%Z ->
            answer_repeatedly false k level = Z.max 0 (level - Z.of_nat k)).
  { intros n Hl. induction n as [|n IH].
    - unfold answer_repeatedly. simpl. lia.
    - change (answer_repeatedly false (S n) level)
        with (updateCardConfidence (answer_repeatedly false n level) false).
      rewrite IH. unfold updateCardConfidence. lia. }
  split; [apply Hup|]. split; [apply Hdown|].
  intros [H0 H5]. rewrite Hup, Hdown by lia.
  replace (Z.min 5 (level + Z.of_nat 5)) with 5%Z by lia.
  replace (Z.max 0 (level - Z.of_nat 5)) with 0%Z by lia. done.
Qed.

Lemma updateCardConfidence_repeated_witness :
  (0 <= 2 <= 5)%Z /\
  getCardStatus (answer_repeatedly true 5 2) = mastered /\
  answer_repeatedly false 1 2 = 1%Z.
Proof.
  split; [lia|].
  destruct (updateCardConfidence_repeated 2 5) as (_ & _ & H).
  destruct H as [H _]; [lia|]. split; [exact H | reflexivity].
Defined.

Lemma getCardStatus_cases (level : Z) :
  getCardStatus level = mastered \/ getCardStatus level = learning_status \/
  getCardStatus level = unlearned.
Proof.
  unfold getCardStatus.
  destruct (level =? 5)%Z; [by left|].
  destruct ((1 <=? level)%Z && (level <? 5)%Z); [right; by left | right; by right].
Qed.

Lemma filter_all_true {A} (p : A -> bool) (l : list A) :
  (forall x, p x = true) -> List.filter p l = l.
Proof.
  intros Hp. induction l as [|x l IH]; [done|]. simpl. by rewrite Hp, IH.
Qed.

Lemma filter_sublist {A} (p : A -> bool) (l : list A) : sublist (List.filter p l) l.
Proof.
  induction l as [|x l IH]; [done|]. simpl.
  destruct (p x); by constructor.
Qed.

(** [filterCards] returns the cards unchanged when no filter or every
    filter is selected; in general it returns, in their order, the cards
    whose status is selected: mastered at level 5, learning at levels 1 to
    4, unlearned otherwise. *)
Theorem filterCards_selection (cards : list FlashcardCard) (filters : FilterOptions) :
  filterCards cards no_filters = cards /\
  filterCards cards all_filters = cards /\
  sublist (filterCards cards filters) cards /\
  (filters <> no_filters ->
   forall card, card ∈ filterCards cards filters <->
                card ∈ cards /\
                ((card_confidenceLevel card = 5%Z /\ filter_mastered filters = true) \/
                 ((1 <= card_confidenceLevel card < 5)%Z /\ filter_learned filters = true) \/
                 (~ (1 <= card_confidenceLevel card <= 5)%Z /\
                  filter_unlearned filters = true))).
Proof.
  split; [done|]. split; [|split].
  - unfold filterCards. cbn. apply filter_all_true.
    intros card. unfold card_selected. by destruct (getCardStatus _).
  - unfold filterCards. destruct (_ && _); [done | apply filter_sublist].
  - intros Hsome card. unfold filterCards.
    destruct filters as [m l u].
    assert (Hnot : negb m && negb l && negb u = false).
    { destruct m, l, u; try done. }
    cbn [filter_mastered filter_learned filter_unlearned]. rewrite Hnot.
    rewrite list_elem_of_In, filter_In, <- list_elem_of_In.
    unfold card_selected, getCardStatus.
    cbn [filter_mastered filter_learned filter_unlearned].
    destruct (Z.eqb_spec (card_confidenceLevel card) 5) as [E5|E5].
    { split; [intros [? ?]; split; [done|]; left; done|].
      intros [? [[_ ?]|[[? _]|[? _]]]]; try done; lia. }
    destruct (Z.leb_spec 1 (card_confidenceLevel card));
      destruct (Z.ltb_spec (card_confidenceLevel card) 5); cbn [andb];
      (split; [intros [? ?]; split; [done|] |
               intros [? [[? ?]|[[? ?]|[? ?]]]]; try done; try lia]).
    all: try (right; left; split; [lia | done]).
    all: try (right; right; split; [lia | done]).
Qed.

Lemma filterCards_selection_witness :
  all_filters <> no_filters /\
  filterCards [a_card; updateCardStatus a_card] all_filters =
  [a_card; updateCardStatus a_card].
Proof.
  split; [discriminate|].
  by destruct (filterCards_selection [a_card; updateCardStatus a_card] all_filters)
    as (_ & H & _).
Defined.

Lemma lower_char_idemp (c : ascii) : lower_char (lower_char c) = lower_char c.
Proof. destruct c as [[] [] [] [] [] [] [] []]; vm_compute; reflexivity. Qed.

Lemma is_space_lower (c : ascii) : is_space (lower_char c) = is_space c.
Proof. destruct c as [[] [] [] [] [] [] [] []]; vm_compute; reflexivity. Qed.

Lemma toLowerCase_idemp (s : string) : toLowerCase (toLowerCase s) = toLowerCase s.
Proof.
  unfold toLowerCase. rewrite chars_str, map_map. f_equal.
  apply map_ext. intros c. apply lower_char_idemp.
Qed.

Lemma drop_spaces_lower (l : list ascii) :
  drop_spaces (map lower_char l) = map lower_char (drop_spaces l).
Proof.
  induction l as [|c l IH]; [done|]. cbn [map drop_spaces].
  rewrite is_space_lower. by destruct (is_space c).
Qed.

(** Trimming and lower-casing commute. *)
Lemma trim_toLowerCase (s : string) : trim (toLowerCase s) = toLowerCase (trim s).
Proof.
  unfold trim, toLowerCase, trim_chars. rewrite !chars_str. f_equal.
  by rewrite drop_spaces_lower, <- map_rev, drop_spaces_lower, map_rev.
Qed.

Lemma falsy_toLowerCase (s : string) : falsy (toLowerCase s) = falsy s.
Proof. by destruct s. Qed.

Lemma filter_filter_same {A} (p : A -> bool) (l : list A) :
  List.filter p (List.filter p l) = List.filter p l.
Proof.
  induction l as [|x l IH]; [done|]. simpl.
  destruct (p x) eqn:E; [|done]. simpl. by rewrite E, IH.
Qed.

(** [searchCards] returns all cards for a query that is empty or blank;
    otherwise it returns, in their order, the cards whose question or answer
    contains the trimmed query, letter case ignored on both sides.
    Searching the result again with the same query changes nothing. *)
Theorem searchCards_query (cards : list FlashcardCard) (searchQuery : string) :
  (trim searchQuery = "" -> searchCards cards searchQuery = cards) /\
  sublist (searchCards cards searchQuery) cards /\
  searchCards (searchCards cards searchQuery) searchQuery = searchCards cards searchQuery /\
  searchCards cards (toLowerCase searchQuery) = searchCards cards searchQuery /\
  (trim searchQuery <> "" ->
   forall card, card ∈ searchCards cards searchQuery <->
                card ∈ cards /\
                (includes (toLowerCase (card_question card))
                          (toLowerCase (trim searchQuery)) = true \/
                 includes (toLowerCase (card_answer card))
                          (toLowerCase (trim searchQuery)) = true)).
Proof.
  split; [|split; [|split; [|split]]].
  - intros Hblank. unfold searchCards. rewrite Hblank. cbn [falsy].
    by rewrite orb_true_r.
  - unfold searchCards. destruct (_ || _); [done | apply filter_sublist].
  - unfold searchCards. destruct (falsy searchQuery || falsy (trim searchQuery));
      [done | apply filter_filter_same].
  - unfold searchCards.
    rewrite falsy_toLowerCase, toLowerCase_idemp, trim_toLowerCase, falsy_toLowerCase.
    done.
  - intros Hq card. unfold searchCards.
    assert (Hf : falsy searchQuery || falsy (trim searchQuery) = false).
    { destruct searchQuery; [done|]. cbn [falsy orb].
      destruct (trim (String a searchQuery)); done. }
    rewrite Hf, trim_toLowerCase.
    rewrite list_elem_of_In, filter_In, <- list_elem_of_In.
    unfold card_matches. by rewrite orb_true_iff.
Qed.

Lemma searchCards_query_witness :
  trim "  " = "" /\ searchCards [a_card] "  " = [a_card] /\
  trim " q " <> "" /\ searchCards [a_card] " q " = [a_card].
Proof.
  destruct (searchCards_query [a_card] "  ") as (H & _).
  split; [reflexivity|]. split; [by apply H|].
  split; [discriminate | reflexivity].
Defined.

Lemma insert_by_perm {A} (compare : A -> A -> Z) (x : A) (l : list A) :
  insert_by compare x l ≡ₚ x :: l.
Proof.
  induction l as [|y l IH]; [done|]. simpl.
  destruct (compare x y <=? 0)%Z; [done|]. rewrite IH. apply Permutation_swap.
Qed.

Lemma sort_by_perm {A} (compare : A -> A -> Z) (l : list A) : sort_by compare l ≡ₚ l.
Proof.
  induction l as [|x l IH]; [done|]. cbn [sort_by foldr].
  rewrite insert_by_perm. by f_equiv.
Qed.

(** Whatever the option and the collation, [sortCards] returns the same
    cards in some order; "newest" reverses the list, so sorting by it twice
    gives the list back; "oldest" and unknown options keep the list. *)
Theorem sortCards_rearranges (localeCompare : string -> string -> Z)
    (cards : list FlashcardCard) (sortBy : string) :
  sortCards localeCompare cards sortBy ≡ₚ cards /\
  sortCards localeCompare cards "newest" = rev cards /\
  sortCards localeCompare (sortCards localeCompare cards "newest") "newest" = cards /\
  sortCards localeCompare cards "oldest" = cards /\
  (sortBy ∉ ["newest"; "title-asc"; "title-desc"] ->
   sortCards localeCompare cards sortBy = cards).
Proof.
  split; [|split; [done|split; [apply rev_involutive|split; [done|]]]].
  - unfold sortCards. repeat case_match; try done; try apply sort_by_perm.
    symmetry. apply Permutation_rev.
  - intros Hno. unfold sortCards.
    destruct (String.eqb_spec sortBy "newest") as [->|_]; [exfalso; set_solver|].
    destruct (String.eqb sortBy "oldest"); [done|].
    destruct (String.eqb_spec sortBy "title-asc") as [->|_]; [exfalso; set_solver|].
    destruct (String.eqb_spec sortBy "title-desc") as [->|_]; [exfalso; set_solver|].
    done.
Qed.

Lemma sortCards_rearranges_witness :
  ("recent" ∉ ["newest"; "title-asc"; "title-desc"]) /\
  sortCards (fun _ _ => 0%Z) [a_card; updateCardStatus a_card] "recent" =
  [a_card; updateCardStatus a_card].
Proof.
  assert (H : "recent" ∉ ["newest"; "title-asc"; "title-desc"]).
  { rewrite !not_elem_of_cons. repeat split; (discriminate || apply not_elem_of_nil). }
  split; [exact H|].
  by apply (sortCards_rearranges (fun _ _ => 0%Z) [a_card; updateCardStatus a_card] "recent").
Defined.

(** ** functions/index: processNotes *)

Example processNotes_success :
  processNotes (sample_services (Some "api-key")) (Some "uid-1") sample_request empty_cloud =
  (inr (set_prop untagged_value "tags" (JArray [])),
   {| local := ∅; bucket := ∅;
      log := [ LogInfo ("Cleaned up temp file: " +:+ sample_local_path);
               LogInfo ("Deleted file from Storage: " +:+ sample_object_path) ] |}).
Proof. vm_compute. reflexivity. Qed.

(** C2, as stated, fails: the generation stage fails (no API key), no
    deletion would fail, and yet the error is reported with the downloaded
    temporary file and the uploaded object still in place and nothing of a
    clean-up in the log. *)
Lemma processNotes_no_cleanup_on_failure :
  let out := processNotes (sample_services None) (Some "uid-1") sample_request empty_cloud in
  out.1 = inl {| https_code := "internal";
                 https_message := "Failed to process notes: Failed to generate flashcards: Gemini API key not configured" |} /\
  local out.2 !! sample_local_path = Some (PdfFile [0; 1; 2]) /\
  bucket out.2 !! sample_object_path = Some (PdfFile [0; 1; 2], "application/pdf") /\
  existsb is_cleanup_entry (log out.2) = false.
Proof. vm_compute. done. Qed.

Section HandlerFacts.
Context {Page : Type}.
Implicit Types (sv : Services Page) (c : Cloud Page).

Lemma cleanupTempFile_local sv (filePath p : string) c :
  local (cleanupTempFile sv filePath c) !! p =
  if decide (p = filePath /\ unlink_throws (sv_ocr sv) filePath = false)
  then None else local c !! p.
Proof.
  unfold cleanupTempFile.
  destruct (local c !! filePath) eqn:E;
    [destruct (unlink_throws (sv_ocr sv) filePath) eqn:U|];
    cbn [local add_log with_local]; case_decide as Hd; try done;
    try (destruct Hd as [-> ?]); try congruence.
  - by rewrite lookup_delete_eq.
  - rewrite lookup_delete_ne; [done|]. intros ->. by apply Hd.
Qed.

Lemma cleanupTempFile_bucket sv (filePath : string) c :
  bucket (cleanupTempFile sv filePath c) = bucket c.
Proof.
  unfold cleanupTempFile.
  destruct (local c !! filePath); [|done].
  by destruct (unlink_throws (sv_ocr sv) filePath).
Qed.

Lemma deleteFileFromStorage_local sv (url : string) c :
  local (deleteFileFromStorage sv url c) = local c.
Proof.
  unfold deleteFileFromStorage.
  destruct (falsy _); [done|].
  destruct (bucket c !! _); [|done].
  by destruct (sv_remote_delete_fails sv _).
Qed.

Lemma deleteFileFromStorage_bucket sv (url k : string) c :
  bucket (deleteFileFromStorage sv url c) !! k =
  if decide (k = sv_extractFilePathFromUrl sv url /\ k <> "" /\
             sv_remote_delete_fails sv k = false)
  then None else bucket c !! k.
Proof.
  unfold deleteFileFromStorage.
  destruct (falsy (sv_extractFilePathFromUrl sv url)) eqn:F.
  { apply falsy_empty in F. cbn [bucket add_log].
    rewrite decide_False; [done|]. intros (-> & H & _). by apply H. }
  assert (Hne : sv_extractFilePathFromUrl sv url <> "").
  { intros H. apply falsy_empty in H. congruence. }
  destruct (bucket c !! sv_extractFilePathFromUrl sv url) eqn:E;
    [destruct (sv_remote_delete_fails sv _) eqn:D|];
    cbn [bucket add_log with_bucket]; case_decide as Hd; try done;
    try (destruct Hd as (-> & ? & ?)); try congruence.
  - by rewrite lookup_delete_eq.
  - rewrite lookup_delete_ne; [done|]. intros Heq. apply Hd. subst k.
    repeat split; done.
Qed.

(** The local files after the clean-up loop. *)
Lemma cleanup_all_local sv (files : list DownloadedFile) c (p : string) :
  local (cleanup_all sv files c) !! p =
  if decide (p ∈ cleanup_paths files /\ unlink_throws (sv_ocr sv) p = false)
  then None else local c !! p.
Proof.
  unfold cleanup_all, cleanup_paths. revert c.
  induction files as [|f files IH]; intros c.
  - cbn [fold_left map]. rewrite decide_False; [done|].
    intros [H _]. by apply elem_of_nil in H.
  - cbn [fold_left map]. rewrite IH. unfold cleanup_file at 1.
    rewrite deleteFileFromStorage_local, cleanupTempFile_local.
    repeat case_decide; try done; exfalso; set_unfold; intuition congruence.
Qed.

(** The objects of the bucket after the clean-up loop. *)
Lemma cleanup_all_bucket sv (files : list DownloadedFile) c (k : string) :
  bucket (cleanup_all sv files c) !! k =
  if decide (k ∈ cleanup_objects sv files /\ k <> "" /\
             sv_remote_delete_fails sv k = false)
  then None else bucket c !! k.
Proof.
  unfold cleanup_all, cleanup_objects. revert c.
  induction files as [|f files IH]; intros c.
  - cbn [fold_left map]. rewrite decide_False; [done|].
    intros [H _]. by apply elem_of_nil in H.
  - cbn [fold_left map]. rewrite IH. unfold cleanup_file at 1.
    rewrite deleteFileFromStorage_bucket, cleanupTempFile_bucket.
    repeat case_decide; try done; exfalso; set_unfold; intuition congruence.
Qed.

(** The downloaded files carry the URLs they were downloaded from, in
    order. *)
Lemma download_all_urls sv (urls : list string) (i : nat)
    (acc downloadedFiles : list DownloadedFile) c c' :
  download_all sv urls i acc c = (Done downloadedFiles, c') ->
  map df_storageUrl downloadedFiles = map df_storageUrl acc ++ urls.
Proof.
  revert i acc c. induction urls as [|u urls IH]; intros i acc c H.
  - cbn [download_all] in H. simplify_eq. by rewrite app_nil_r.
  - cbn [download_all] in H.
    destruct (downloadFileFromStorage sv i u c) as [[d|e] c1]; [|done].
    destruct (local c1 !! dl_filePath d); [|done].
    apply IH in H. rewrite H, map_app. cbn [map df_storageUrl].
    by rewrite <- app_assoc.
Qed.

Lemma upload_all_length sv (userId : string) (files : list FileData) (i : nat)
    (acc urls : list string) c c' :
  upload_all sv userId files i acc c = (Done urls, c') ->
  length urls = length acc + length files.
Proof.
  revert i acc c. induction files as [|f files IH]; intros i acc c H.
  - cbn [upload_all] in H. simplify_eq. simpl. lia.
  - cbn [upload_all] in H.
    destruct (uploadFileFromBase64 sv i _ _ _ userId c) as [[u|e] c1]; [|done].
    apply IH in H. rewrite H, length_app. simpl. lia.
Qed.

(** A successful run of the stages uploaded one object per file of the
    request, and the files handed to the clean-up are their downloads. *)
Lemma run_stages_uploads sv (userId : string) (data : ProcessNotesRequest) c
    (result : Json) (downloadedFiles : list DownloadedFile) c' :
  run_stages sv userId data c = (Done (result, downloadedFiles), c') ->
  exists files urls c1,
    validate_request (processorId (sv_ocr sv)) data = Done files /\
    upload_all sv userId files 0 [] c = (Done urls, c1) /\
    length urls = length files /\
    map df_storageUrl downloadedFiles = urls.
Proof.
  unfold run_stages. intros H.
  destruct (validate_request _ data) as [files|]; [|done].
  destruct (upload_all sv userId files 0 [] c) as [[urls|] c1] eqn:Hup; [|done].
  destruct (download_all sv urls 0 [] c1) as [[dl|] c2] eqn:Hdl; [|done].
  destruct dl as [|d dl]; [done|].
  destruct (extract_all sv (d :: dl) [] c2) as [[ex|] c3]; [|done].
  destruct (process_all sv ex (d :: dl) [] c3); [|done].
  destruct (falsy _); [done|].
  destruct (generate sv data _); [|done].
  simplify_eq. exists files, urls, c1. repeat split; try done.
  - by apply upload_all_length in Hup.
  - by apply download_all_urls in Hdl.
Qed.

(** C2, amended: the clean-up runs when all stages up to the generation
    have succeeded, and only then.  After a success the call reports the
    generated data whatever the clean-up meets; of every downloaded file the
    local copy is gone unless its deletion failed, and of every uploaded
    object the one its URL is resolved to is gone unless no path could be
    extracted or its deletion failed; nothing else is removed.  When a stage
    fails, the error is reported and the files and objects are left as that
    stage left them. *)
Theorem processNotes_cleanup sv (userId : string) (data : ProcessNotesRequest) c :
  (forall result downloadedFiles c1,
     run_stages sv userId data c = (Done (result, downloadedFiles), c1) ->
     let out := processNotes sv (Some userId) data c in
     out.1 = inr result /\
     (forall p, local out.2 !! p =
        if decide (p ∈ cleanup_paths downloadedFiles /\
                   unlink_throws (sv_ocr sv) p = false)
        then None else local c1 !! p) /\
     (forall k, bucket out.2 !! k =
        if decide (k ∈ cleanup_objects sv downloadedFiles /\ k <> "" /\
                   sv_remote_delete_fails sv k = false)
        then None else bucket c1 !! k) /\
     (exists files urls c0,
        validate_request (processorId (sv_ocr sv)) data = Done files /\
        upload_all sv userId files 0 [] c = (Done urls, c0) /\
        length urls = length files /\
        map df_storageUrl downloadedFiles = urls)) /\
  (forall e c1,
     run_stages sv userId data c = (Failed e, c1) ->
     exists err, processNotes sv (Some userId) data c = (inl err, c1) /\
                 https_message err =
                 match e with
                 | ThrowHttps h => https_message h
                 | ThrowPlain p => "Failed to process notes: " +:+ err_message p
                 end).
Proof.
  split.
  - intros result downloadedFiles c1 Hrun out. subst out.
    unfold processNotes. rewrite Hrun. cbn [fst snd].
    split; [done|]. split; [|split].
    + intros p. apply cleanup_all_local.
    + intros k. apply cleanup_all_bucket.
    + by apply (run_stages_uploads sv userId data c result downloadedFiles c1).
  - intros e c1 Hrun. unfold processNotes. rewrite Hrun.
    destruct e as [h|p]; eexists; split; reflexivity.
Qed.

End HandlerFacts.

Lemma processNotes_cleanup_witness :
  exists result downloadedFiles c1,
    run_stages (sample_services (Some "api-key")) "uid-1" sample_request empty_cloud =
      (Done (result, downloadedFiles), c1) /\
    local c1 !! sample_local_path = Some (PdfFile [0; 1; 2]) /\
    local (processNotes (sample_services (Some "api-key")) (Some "uid-1")
             sample_request empty_cloud).2 !! sample_local_path = None /\
    bucket (processNotes (sample_services (Some "api-key")) (Some "uid-1")
              sample_request empty_cloud).2 !! sample_object_path = None.
Proof.
  eexists _, _, _. split; [vm_compute; reflexivity|].
  split; [reflexivity|].
  destruct (processNotes_cleanup (sample_services (Some "api-key")) "uid-1"
              sample_request empty_cloud) as [Hok _].
  edestruct Hok as (_ & Hlocal & Hbucket & _); [vm_compute; reflexivity|].
  split.
  - rewrite Hlocal. reflexivity.
  - rewrite Hbucket. reflexivity.
Defined.
